(** * A shallow embedding of the back-tester (src/strategies/backtester.py)

    The development follows the Python source function by function:
    the data classes, the per-timestamp replay loop of [run_backtest]
    (book construction, limit guard, matching engine, mark-to-market
    accounting) and [merge_results].

    Modelling conventions.
    - Python [int] is [Z].  Python [float] is the rational it denotes ([Q]);
      the only float arithmetic of the program adds integer amounts, which
      binary64 performs exactly below 2^53.  The cash accumulator
      [seashells_by_product] is a float that only ever receives integer
      amounts, so it is kept as the integer it denotes.
      Floats are finite and integer amounts lie within the float range: a
      mid price that is nan or inf (on which [int] raises ValueError or
      OverflowError) and an integer too large to be added to a float (an
      OverflowError) have no counterpart here: a statement that a step of
      the replay returns speaks of feeds and amounts of that kind.
    - A raised exception is the [Raise] branch of [result].
    - Dictionaries are [gmap]s, [defaultdict]s are [gmap]s read with a
      default, Python [set]s are [gset]s iterated through [elements].
    - [Order] objects are mutated in place by the matching engine, so the
      orders returned by the decision algorithm live in an object store and
      the per-product lists hold references into it. *)

From Stdlib Require Import ZArith QArith String Ascii DecimalString DecimalPos DecimalZ.
From stdpp Require Import base option list sorting functions gmap strings.

Local Open Scope Z_scope.

(** ** Exceptions *)

Inductive exn : Type := KeyError | IndexError | TypeError.

Inductive result (A : Type) : Type :=
| Ok (a : A)
| Raise (e : exn).
Arguments Ok {A} a.
Arguments Raise {A} e.

#[global] Instance result_ret : MRet result := fun _ a => Ok a.
#[global] Instance result_bind : MBind result := fun _ _ f m =>
  match m with Ok a => f a | Raise e => Raise e end.

Definition from_option {A} (e : exn) (o : option A) : result A :=
  match o with Some a => Ok a | None => Raise e end.

Definition is_ok {A} (r : result A) : Prop := ∃ a, r = Ok a.

(** [for x in xs: st = body(st, x)], stopping at the first exception. *)
Fixpoint for_each {S X} (body : S → X → result S) (xs : list X) (st : S)
  : result S :=
  match xs with
  | [] => Ok st
  | x :: xs' => st' ← body st x; for_each body xs' st'
  end.

(** ** Python values held in heterogeneous lists *)

Inductive value : Type :=
| VInt (z : Z)
| VFloat (q : Q)
| VStr (s : string).

(** [a + b] on Python values; a string and a number do not add. *)
Definition vadd (a b : value) : result value :=
  match a, b with
  | VInt x, VInt y => Ok (VInt (x + y))
  | VInt x, VFloat y => Ok (VFloat (Qred (inject_Z x + y)))
  | VFloat x, VInt y => Ok (VFloat (Qred (x + inject_Z y)))
  | VFloat x, VFloat y => Ok (VFloat (Qred (x + y)))
  | VStr x, VStr y => Ok (VStr (x +:+ y))
  | _, _ => Raise TypeError
  end.

(** Numeric equality ([==] on numbers), the sense of "numerically equal". *)
Definition num_eq (a b : value) : Prop :=
  match a, b with
  | VInt x, VInt y => x = y
  | VInt x, VFloat y => Qeq (inject_Z x) y
  | VFloat x, VInt y => Qeq x (inject_Z y)
  | VFloat x, VFloat y => Qeq x y
  | _, _ => False
  end.

(** [int(x)] on a float: truncation towards zero. *)
Definition int_of_float (q : Q) : Z := Z.quot (Qnum q) (Zpos (Qden q)).

(** ** Data model *)

(** Modelled from the spec: the [datamodel] module ([Order], [OrderDepth],
    [Trade], [TradingState]) is imported by the back-tester but is not part
    of the sources; the records carry the fields the back-tester reads and
    writes, in constructor order. *)
Record Order : Type := mkOrder {
  o_symbol : string;
  o_price : Z;
  o_quantity : Z;
}.

Record OrderDepth : Type := mkOrderDepth {
  buy_orders : gmap Z Z;
  sell_orders : gmap Z Z;
}.

Record Trade : Type := mkTrade {
  t_symbol : string;
  t_price : value;
  t_quantity : Z;
  t_buyer : string;
  t_seller : string;
  t_timestamp : Z;
}.

Record Listing : Type := mkListing {
  l_symbol : string;
  l_product : string;
  l_denomination : string;
}.

Record TradingState : Type := mkTradingState {
  ts_timestamp : Z;
  ts_listings : gmap string Listing;
  ts_order_depths : gmap string OrderDepth;
  ts_own_trades : gmap string (list Trade);
  ts_market_trades : gmap string (list Trade);
  ts_position : gmap string Z;
  ts_observations : gmap string Z;
}.

Record PriceRow : Type := mkPriceRow {
  day : Z;
  timestamp : Z;
  product : string;
  bid_prices : list Z;
  bid_volumes : list Z;
  ask_prices : list Z;
  ask_volumes : list Z;
  mid_price : Q;
  profit_loss : Q;
}.

Record DayData : Type := mkDayData {
  prices : list PriceRow;
  trades : list Trade;
}.

Record SandboxLogRow : Type := mkSandboxLogRow {
  sb_timestamp : Z;
  sb_data : string;
}.

Record SubmissionLogRow : Type := mkSubmissionLogRow {
  sm_timestamp : Z;
  sm_data : string;
}.

Record ActivityLogRow : Type := mkActivityLogRow {
  columns : list value;
}.

Record DayResult : Type := mkDayResult {
  dr_round : Z;
  dr_day : Z;
  sandbox_logs : list SandboxLogRow;
  submission_logs : list SubmissionLogRow;
  activity_logs : list ActivityLogRow;
}.

(** [LIMITS], the table of per-product position limits. *)
Definition LIMITS : gmap string Z :=
  list_to_map
    [ ("PEARLS"%string, 20); ("BANANAS"%string, 20);
      ("COCONUTS"%string, 600); ("PINA_COLADAS"%string, 300);
      ("DIVING_GEAR"%string, 50); ("BERRIES"%string, 250);
      ("BAGUETTE"%string, 150); ("DIP"%string, 300);
      ("UKULELE"%string, 70); ("PICNIC_BASKET"%string, 70) ].

(** ** The matching engine (run_backtest, lines 214-252) *)

(** The mutable objects the matching loop works on: the per-product books of
    this timestamp, the position ledger, the cash ledger and the own trades
    of this timestamp ([defaultdict]s are read with their default). *)
Record Engine : Type := mkEngine {
  order_depths : gmap string OrderDepth;
  own_positions : gmap string Z;
  seashells_by_product : gmap string Z;
  own_trades : gmap string (list Trade);
}.

Definition position_of (m : gmap string Z) (p : string) : Z := default 0 (m !! p).
Definition trades_of (m : gmap string (list Trade)) (p : string) : list Trade :=
  default [] (m !! p).

Definition SUBMISSION : string := "SUBMISSION".

(** [sorted(d.keys())] restricted by a filter. *)
Definition keys {V} (m : gmap Z V) : list Z := (map_to_list m).*1.

Definition ask_matches (depth : OrderDepth) (limit : Z) : list Z :=
  merge_sort Z.le (filter (λ price, price ≤ limit) (keys (sell_orders depth))).

Definition bid_matches (depth : OrderDepth) (limit : Z) : list Z :=
  reverse (merge_sort Z.le (filter (λ price, limit ≤ price) (keys (buy_orders depth)))).

(** One iteration of the buy loop (lines 222-233), up to the update of
    [order.quantity]; returns the engine and the remaining quantity. *)
Definition buy_fill (sym : string) (ts price q : Z) (st : Engine)
  : result (Engine * Z) :=
  depth ← from_option KeyError (order_depths st !! sym);
  resting ← from_option KeyError (sell_orders depth !! price);
  let volume := Z.min q (Z.abs resting) in
  let resting' := resting + volume in
  let sells' := if decide (resting' = 0)
                then delete price (sell_orders depth)
                else <[price := resting']> (sell_orders depth) in
  Ok (mkEngine
        (<[sym := mkOrderDepth (buy_orders depth) sells']> (order_depths st))
        (<[sym := position_of (own_positions st) sym + volume]> (own_positions st))
        (<[sym := position_of (seashells_by_product st) sym - price * volume]>
           (seashells_by_product st))
        (<[sym := trades_of (own_trades st) sym
                    ++ [mkTrade sym (VInt price) volume SUBMISSION EmptyString ts]]>
           (own_trades st)),
      q - volume).

(** One iteration of the sell loop (lines 239-250); [q] is negative. *)
Definition sell_fill (sym : string) (ts price q : Z) (st : Engine)
  : result (Engine * Z) :=
  depth ← from_option KeyError (order_depths st !! sym);
  resting ← from_option KeyError (buy_orders depth !! price);
  let volume := Z.min (Z.abs q) resting in
  let resting' := resting - volume in
  let buys' := if decide (resting' = 0)
               then delete price (buy_orders depth)
               else <[price := resting']> (buy_orders depth) in
  Ok (mkEngine
        (<[sym := mkOrderDepth buys' (sell_orders depth)]> (order_depths st))
        (<[sym := position_of (own_positions st) sym - volume]> (own_positions st))
        (<[sym := position_of (seashells_by_product st) sym + price * volume]>
           (seashells_by_product st))
        (<[sym := trades_of (own_trades st) sym
                    ++ [mkTrade sym (VInt price) volume EmptyString SUBMISSION ts]]>
           (own_trades st)),
      q + volume).

(** [for price in price_matches: ...; if order.quantity == 0: break]. *)
Fixpoint fill_loop (fill : Z → Z → Engine → result (Engine * Z))
    (price_matches : list Z) (q : Z) (st : Engine) : result (Engine * Z) :=
  match price_matches with
  | [] => Ok (st, q)
  | price :: rest =>
      '(st', q') ← fill price q st;
      if decide (q' = 0) then Ok (st', q') else fill_loop fill rest q' st'
  end.

(** The body of [for order in orders_by_symbol.get(product, [])]: returns the
    engine and the order object as the loop leaves it. *)
Definition match_order (ts : Z) (o : Order) (st : Engine)
  : result (Engine * Order) :=
  depth ← from_option KeyError (order_depths st !! o_symbol o);
  if decide (o_quantity o > 0) then
    '(st', q') ← fill_loop (buy_fill (o_symbol o) ts)
                   (ask_matches depth (o_price o)) (o_quantity o) st;
    Ok (st', mkOrder (o_symbol o) (o_price o) q')
  else if decide (o_quantity o < 0) then
    '(st', q') ← fill_loop (sell_fill (o_symbol o) ts)
                   (bid_matches depth (o_price o)) (o_quantity o) st;
    Ok (st', mkOrder (o_symbol o) (o_price o) q')
  else Ok (st, o).

(** The object store of [Order]s and a batch as a list of references. *)
Abbreviation store := (nat → Order).

Definition match_ref (ts : Z) (acc : Engine * store) (ref : nat)
  : result (Engine * store) :=
  '(st', o') ← match_order ts (acc.2 ref) acc.1;
  Ok (st', <[ref := o']> acc.2).

Definition match_batch (ts : Z) (refs : list nat) (acc : Engine * store)
  : result (Engine * store) :=
  for_each (match_ref ts) refs acc.

(** ** The limit guard (run_backtest, lines 202-212) *)

Definition total_long (objs : store) (refs : list nat) : Z :=
  foldr Z.add 0 ((λ r, o_quantity (objs r)) <$> filter (λ r, o_quantity (objs r) > 0) refs).

Definition total_short (objs : store) (refs : list nat) : Z :=
  foldr Z.add 0 ((λ r, Z.abs (o_quantity (objs r))) <$> filter (λ r, o_quantity (objs r) < 0) refs).

Definition exceeds (position limit long short : Z) : bool :=
  bool_decide (position + long > limit) || bool_decide (position - short < - limit).

Definition show_Z (z : Z) : string := NilZero.string_of_int (Z.to_int z).

Definition rejection_message (p : string) (limit : Z) : string :=
  "Orders for product " +:+ p +:+ " exceeded limit of " +:+ show_Z limit +:+ " set".

Definition guard_product (ts : Z) (positions : gmap string Z) (objs : store)
    (acc : gmap string (list nat) * list SubmissionLogRow) (p : string)
  : result (gmap string (list nat) * list SubmissionLogRow) :=
  let refs := default [] (acc.1 !! p) in
  let current_position := position_of positions p in
  limit ← from_option KeyError (LIMITS !! p);
  if exceeds current_position limit (total_long objs refs) (total_short objs refs) then
    _ ← from_option KeyError (acc.1 !! p);
    Ok (delete p acc.1, acc.2 ++ [mkSubmissionLogRow ts (rejection_message p limit)])
  else Ok acc.

Definition limit_guard (ts : Z) (positions : gmap string Z) (objs : store)
    (products : list string)
    (acc : gmap string (list nat) * list SubmissionLogRow)
  : result (gmap string (list nat) * list SubmissionLogRow) :=
  for_each (guard_product ts positions objs) products acc.

(** The matching loop over the products whose batch survived the guard. *)
Definition match_product (ts : Z) (orders_by_symbol : gmap string (list nat))
    (acc : Engine * store) (p : string) : result (Engine * store) :=
  match_batch ts (default [] (orders_by_symbol !! p)) acc.

Definition match_all (ts : Z) (orders_by_symbol : gmap string (list nat))
    (products : list string) (acc : Engine * store) : result (Engine * store) :=
  for_each (match_product ts orders_by_symbol) products acc.

(** ** Indexing the historical data (run_backtest, lines 156-171) *)

Definition prices_by_timestamp (data : DayData) : gmap Z (gmap string PriceRow) :=
  foldl (λ m row,
           <[timestamp row := <[product row := row]> (default ∅ (m !! timestamp row))]> m)
        ∅ (prices data).

Definition trades_by_timestamp (data : DayData) : gmap Z (gmap string (list Trade)) :=
  foldl (λ m t,
           let at_ts := default ∅ (m !! t_timestamp t) in
           <[t_timestamp t :=
               <[t_symbol t := default [] (at_ts !! t_symbol t) ++ [t]]> at_ts]> m)
        ∅ (trades data).

Definition tradable_products (data : DayData) : gset string :=
  list_to_set (product <$> filter (λ row, (0 < length (bid_prices row))%nat) (prices data)).

Definition non_tradable_products (data : DayData) : gset string :=
  list_to_set (product <$> filter (λ row, length (bid_prices row) = 0%nat) (prices data)).

Definition listings (data : DayData) : gmap string Listing :=
  set_to_map (λ p, (p, mkListing p p "SEASHELLS")) (tradable_products data).

(** ** Building the state of one timestamp (lines 179-194) *)

Definition book_of_row (row : PriceRow) : OrderDepth :=
  mkOrderDepth
    (foldl (λ m pv, <[pv.1 := pv.2]> m) ∅ (zip (bid_prices row) (bid_volumes row)))
    (foldl (λ m pv, <[pv.1 := - pv.2]> m) ∅ (zip (ask_prices row) (ask_volumes row))).

Definition build_order_depths (rows : gmap string PriceRow) (products : list string)
  : result (gmap string OrderDepth) :=
  for_each (λ depths p,
              row ← from_option KeyError (rows !! p);
              Ok (<[p := book_of_row row]> depths))
           products ∅.

Definition build_observations (rows : gmap string PriceRow) (products : list string)
  : result (gmap string Z) :=
  for_each (λ obs p,
              row ← from_option KeyError (rows !! p);
              Ok (<[p := int_of_float (mid_price row)]> obs))
           products ∅.

Definition nonzero_positions (own : gmap string Z) : gmap string Z :=
  filter (λ kv, kv.2 ≠ 0) own.

Definition build_state (data : DayData) (ts : Z)
    (own : gmap string Z) (own_tr : gmap string (list Trade))
  : result TradingState :=
  let rows := default ∅ (prices_by_timestamp data !! ts) in
  depths ← build_order_depths rows (elements (tradable_products data));
  let market_trades := default ∅ (trades_by_timestamp data !! ts) in
  let position := nonzero_positions own in
  observations ← build_observations rows (elements (non_tradable_products data));
  Ok (mkTradingState ts (listings data) depths own_tr market_trades position observations).

(** ** Accounting (lines 254-295) *)

Definition cell (l : list Z) (i : nat) : value :=
  match l !! i with Some z => VInt z | None => VStr EmptyString end.

(** Mark-to-market of one product against its price row of this timestamp. *)
Definition mark_to_market (cash position : Z) (price : PriceRow) : result Z :=
  if decide (position < 0) then
    ask ← from_option IndexError (ask_prices price !! 0%nat);
    Ok (cash + position * ask)
  else if decide (position > 0) then
    bid ← from_option IndexError (bid_prices price !! 0%nat);
    Ok (cash + position * bid)
  else Ok cash.

Definition tradable_row (ts : Z) (rows : gmap string PriceRow) (st : Engine)
    (p : string) : result ActivityLogRow :=
  price ← from_option KeyError (rows !! p);
  pnl ← mark_to_market (position_of (seashells_by_product st) p)
                       (position_of (own_positions st) p) price;
  Ok (mkActivityLogRow
        [ VInt 0; VInt ts; VStr p;
          cell (bid_prices price) 0; cell (bid_volumes price) 0;
          cell (bid_prices price) 1; cell (bid_volumes price) 1;
          cell (bid_prices price) 2; cell (bid_volumes price) 2;
          cell (ask_prices price) 0; cell (ask_volumes price) 0;
          cell (ask_prices price) 1; cell (ask_volumes price) 1;
          cell (ask_prices price) 2; cell (ask_volumes price) 2;
          VFloat (mid_price price); VFloat (inject_Z pnl) ]).

Definition non_tradable_row (ts : Z) (rows : gmap string PriceRow) (p : string)
  : result ActivityLogRow :=
  price ← from_option KeyError (rows !! p);
  Ok (mkActivityLogRow
        ([VInt 0; VInt ts; VStr p] ++ replicate 12 (VStr EmptyString)
           ++ [VFloat (mid_price price); VFloat 0])).

Definition append_rows {X} (mk : X → result ActivityLogRow) (xs : list X)
    (logs : list ActivityLogRow) : result (list ActivityLogRow) :=
  for_each (λ acc x, row ← mk x; Ok (acc ++ [row])) xs logs.

(** ** The replay loop (run_backtest, lines 173-313) *)

Record Loop (Mem : Type) : Type := mkLoop {
  lp_mem : Mem;
  lp_positions : gmap string Z;
  lp_seashells : gmap string Z;
  lp_own_trades : gmap string (list Trade);
  lp_result : DayResult;
}.
Arguments mkLoop {Mem}.
Arguments lp_mem {Mem}.
Arguments lp_positions {Mem}.
Arguments lp_seashells {Mem}.
Arguments lp_own_trades {Mem}.
Arguments lp_result {Mem}.

(** The decision algorithm: a black box with private memory.  One call
    returns its new memory, the text it printed, the [Order] objects it
    created and, per symbol, the list of references to them. *)
Definition Trader (Mem : Type) : Type :=
  Mem → TradingState → result (Mem * string * store * gmap string (list nat)).

Section Replay.
Context {Mem : Type}.
Variable trader_run : Trader Mem.
Variable data : DayData.

Definition step (lp : Loop Mem) (ts : Z) : result (Loop Mem) :=
  let tradable := elements (tradable_products data) in
  let rows := default ∅ (prices_by_timestamp data !! ts) in
  state ← build_state data ts (lp_positions lp) (lp_own_trades lp);
  '(mem', stdout, objs, orders_by_symbol) ← trader_run (lp_mem lp) state;
  let sandbox := sandbox_logs (lp_result lp) ++ [mkSandboxLogRow ts stdout] in
  '(accepted, submission) ←
     limit_guard ts (lp_positions lp) objs tradable
                 (orders_by_symbol, submission_logs (lp_result lp));
  '(eng, _) ←
     match_all ts accepted tradable
               (mkEngine (ts_order_depths state) (lp_positions lp)
                         (lp_seashells lp) ∅, objs);
  activity ← append_rows (tradable_row ts rows eng) tradable
                         (activity_logs (lp_result lp));
  activity' ← append_rows (non_tradable_row ts rows)
                          (elements (non_tradable_products data)) activity;
  Ok (mkLoop mem' (own_positions eng) (seashells_by_product eng) (own_trades eng)
             (mkDayResult (dr_round (lp_result lp)) (dr_day (lp_result lp))
                          sandbox submission activity')).

Definition timestamps : list Z := merge_sort Z.le (keys (prices_by_timestamp data)).

Definition run_loop (round day : Z) (mem : Mem) : result (Loop Mem) :=
  for_each step timestamps
           (mkLoop mem ∅ ∅ ∅ (mkDayResult round day [] [] [])).

(** [result.activity_logs[-1]] raises on a session without rows; the
    profit summary that follows only prints. *)
Definition run_backtest (round day : Z) (mem : Mem) : result DayResult :=
  lp ← run_loop round day mem;
  _ ← from_option IndexError (last (activity_logs (lp_result lp)));
  Ok (lp_result lp).
End Replay.

(** ** Rebasing log rows (the three [with_offset] methods) *)

(** [s.replace(pat, rep)]: every non-overlapping occurrence, left to right.
    [skip] counts the characters of a matched occurrence still to be
    consumed. *)
Fixpoint replace_go (pat rep : string) (skip : nat) (s : string) : string :=
  match s with
  | EmptyString => EmptyString
  | String c s' =>
      match skip with
      | S k => replace_go pat rep k s'
      | O =>
          if String.prefix pat s
          then rep +:+ replace_go pat rep (String.length pat - 1) s'
          else String c (replace_go pat rep 0 s')
      end
  end.

Fixpoint interleave (rep s : string) : string :=
  match s with
  | EmptyString => EmptyString
  | String c s' => String c (rep +:+ interleave rep s')
  end.

Definition replace (pat rep s : string) : string :=
  match pat with
  | EmptyString => rep +:+ interleave rep s
  | String _ _ => replace_go pat rep 0 s
  end.

(** The double-quote character of the two marker patterns. *)
Definition dquote : ascii := "034"%char.

(** [f'"timestamp":{n}'] and [f'"t":{n}']. *)
Definition timestamp_marker (n : Z) : string :=
  String dquote ("timestamp" +:+ String dquote (":" +:+ show_Z n)).
Definition t_marker (n : Z) : string :=
  String dquote ("t" +:+ String dquote (":" +:+ show_Z n)).

(** SandboxLogRow.with_offset *)
Definition sandbox_with_offset (row : SandboxLogRow) (timestamp_offset : Z)
  : SandboxLogRow :=
  let new_timestamp := sb_timestamp row + timestamp_offset in
  let new_data :=
    foldl (λ d cr, replace cr.1 cr.2 d) (sb_data row)
          [ (timestamp_marker (sb_timestamp row), timestamp_marker new_timestamp);
            (t_marker (sb_timestamp row), t_marker new_timestamp) ] in
  mkSandboxLogRow new_timestamp new_data.

(** SubmissionLogRow.with_offset: the argument becomes the timestamp. *)
Definition submission_with_offset (row : SubmissionLogRow) (new_timestamp : Z)
  : SubmissionLogRow :=
  mkSubmissionLogRow new_timestamp (sm_data row).

(** [xs[i] += d] on a list of values. *)
Definition add_at (i : nat) (d : value) (xs : list value) : result (list value) :=
  x ← from_option IndexError (xs !! i);
  x' ← vadd x d;
  Ok (<[i := x']> xs).

(** ActivityLogRow.timestamp *)
Definition row_timestamp (row : ActivityLogRow) : result value :=
  from_option IndexError (columns row !! 1%nat).

(** ActivityLogRow.with_offset; index [-1] is the last column. *)
Definition activity_with_offset (row : ActivityLogRow)
    (timestamp_offset : Z) (profit_loss_offset : value) : result ActivityLogRow :=
  new_columns ← add_at 1 (VInt timestamp_offset) (columns row);
  new_columns' ← add_at (length new_columns - 1) profit_loss_offset new_columns;
  Ok (mkActivityLogRow new_columns').

(** ** merge_results *)

(** [==] between Python values. *)
Definition py_eqb (a b : value) : bool :=
  match a, b with
  | VInt x, VInt y => bool_decide (x = y)
  | VInt x, VFloat y => Qeq_bool (inject_Z x) y
  | VFloat x, VInt y => Qeq_bool x (inject_Z y)
  | VFloat x, VFloat y => Qeq_bool x y
  | VStr x, VStr y => bool_decide (x = y)
  | _, _ => false
  end.

(** [profit_loss_offsets]: a [defaultdict(float)] keyed by column values,
    kept as an association list whose most recent binding wins. *)
Fixpoint offset_of (offsets : list (value * value)) (key : value) : value :=
  match offsets with
  | [] => VFloat 0
  | (k, v) :: rest => if py_eqb k key then v else offset_of rest key
  end.

(** The loop of lines 325-329 over [reversed(a.activity_logs)]. *)
Fixpoint collect_offsets (a_last_timestamp : Z) (merge_profit_loss : bool)
    (rows : list ActivityLogRow) (offsets : list (value * value))
  : result (list (value * value)) :=
  match rows with
  | [] => Ok offsets
  | row :: rest =>
      ts ← row_timestamp row;
      if negb (py_eqb ts (VInt a_last_timestamp)) then Ok offsets
      else
        key ← from_option IndexError (columns row !! 2%nat);
        pnl ← (if merge_profit_loss
               then from_option IndexError (last (columns row))
               else Ok (VInt 0));
        collect_offsets a_last_timestamp merge_profit_loss rest ((key, pnl) :: offsets)
  end.

Definition rebase_activity (timestamp_offset : Z) (offsets : list (value * value))
    (acc : list ActivityLogRow) (row : ActivityLogRow) : result (list ActivityLogRow) :=
  key ← from_option IndexError (columns row !! 2%nat);
  row' ← activity_with_offset row timestamp_offset (offset_of offsets key);
  Ok (acc ++ [row']).

Definition merge_results (a b : DayResult) (merge_profit_loss : bool)
  : result DayResult :=
  last_row ← from_option IndexError (last (sandbox_logs a));
  let a_last_timestamp := sb_timestamp last_row in
  let timestamp_offset := a_last_timestamp + 100 in
  offsets ← collect_offsets a_last_timestamp merge_profit_loss
                            (reverse (activity_logs a)) [];
  let sandbox := sandbox_logs a
                   ++ ((λ row, sandbox_with_offset row timestamp_offset) <$> sandbox_logs b) in
  let submission := submission_logs a
                   ++ ((λ row, submission_with_offset row timestamp_offset)
                         <$> submission_logs b) in
  rebased ← for_each (rebase_activity timestamp_offset offsets) (activity_logs b) [];
  Ok (mkDayResult (dr_round a) (dr_day a) sandbox submission (activity_logs a ++ rebased)).

(** ** Vocabulary of the statements about the matching engine *)

(** The two branches of the matching loop differ by a sign and by the half
    of the book they read. *)
Inductive Side : Type := Buy | Sell.

#[global] Instance Side_eq_dec : EqDecision Side.
Proof. solve_decision. Defined.

Definition sgn (sd : Side) : Z := match sd with Buy => 1 | Sell => -1 end.

Definition side_of (q : Z) : option Side :=
  if decide (q > 0) then Some Buy else if decide (q < 0) then Some Sell else None.

(** The half of the book an order executes against, and the other half. *)
Definition facing (sd : Side) (d : OrderDepth) : gmap Z Z :=
  match sd with Buy => sell_orders d | Sell => buy_orders d end.

Definition behind (sd : Side) (d : OrderDepth) : gmap Z Z :=
  match sd with Buy => buy_orders d | Sell => sell_orders d end.

Definition fill_of (sd : Side) : string → Z → Z → Z → Engine → result (Engine * Z) :=
  match sd with Buy => buy_fill | Sell => sell_fill end.

Definition matches (sd : Side) (d : OrderDepth) (limit : Z) : list Z :=
  match sd with Buy => ask_matches d limit | Sell => bid_matches d limit end.

(** The order in which a side's levels are visited: ascending prices for a
    buy, descending prices for a sell. *)
Definition visit_order (sd : Side) : relation Z :=
  match sd with Buy => Z.lt | Sell => flip Z.lt end.

(** Whether a level's price is acceptable for an order with this limit. *)
Definition within_limit (sd : Side) (limit price : Z) : Prop :=
  match sd with Buy => price ≤ limit | Sell => limit ≤ price end.

(** The trade record the engine emits for a fill. *)
Definition own_trade (sd : Side) (sym : string) (ts : Z) (fill : Z * Z) : Trade :=
  match sd with
  | Buy => mkTrade sym (VInt fill.1) fill.2 SUBMISSION EmptyString ts
  | Sell => mkTrade sym (VInt fill.1) fill.2 EmptyString SUBMISSION ts
  end.

(** The resting volume a stored level value stands for: bids are stored as
    they are, asks negated. *)
Definition resting (sd : Side) (v : Z) : Z := - sgn sd * v.

(** A well-formed book holds non-negative resting volumes on both halves
    (bids stored as they are, asks negated). *)
Definition book_wf (d : OrderDepth) : Prop :=
  map_Forall (λ _ v, 0 ≤ v) (buy_orders d) ∧ map_Forall (λ _ v, v ≤ 0) (sell_orders d).

Definition books_wf (depths : gmap string OrderDepth) : Prop :=
  ∀ sym d, depths !! sym = Some d → book_wf d.

(** The matchable levels of an order, as (price, resting volume) pairs in
    visiting order. *)
Definition levels (sd : Side) (d : OrderDepth) (limit : Z) : list (Z * Z) :=
  (λ p, (p, resting sd (default 0 (facing sd d !! p)))) <$> matches sd d limit.

(** Follows the spec's words (section 4.4): walk the matchable levels in
    order; at each level fill min(remaining quantity, resting volume),
    decrement the remaining quantity and stop when it reaches zero or no
    level is left.  The result lists the (price, fill volume) pairs. *)
Fixpoint walk_levels (lvls : list (Z * Z)) (remaining : Z) : list (Z * Z) :=
  match lvls with
  | [] => []
  | (price, volume) :: rest =>
      let fill := Z.min remaining volume in
      (price, fill) ::
        (if decide (remaining - fill = 0) then []
         else walk_levels rest (remaining - fill))
  end.

Definition total_volume (fills : list (Z * Z)) : Z := foldr Z.add 0 (fills.*2).
Definition total_value (fills : list (Z * Z)) : Z :=
  foldr Z.add 0 ((λ pf, pf.1 * pf.2) <$> fills).

Fixpoint fill_at (fills : list (Z * Z)) (p : Z) : option Z :=
  match fills with
  | [] => None
  | (p', f) :: rest => if decide (p' = p) then Some f else fill_at rest p
  end.

(** Follows the spec's words: a filled level shrinks by the fill and is
    removed exactly when nothing is left; other levels are untouched. *)
Definition level_after (sd : Side) (stored : option Z) (fill : option Z) : option Z :=
  match fill, stored with
  | Some f, Some v =>
      if decide (resting sd v - f = 0) then None else Some (- sgn sd * (resting sd v - f))
  | Some f, None => None
  | None, _ => stored
  end.

(** The net quantity an own trade adds to the position. *)
Definition signed_quantity (t : Trade) : Z :=
  if decide (t_buyer t = SUBMISSION) then t_quantity t
  else if decide (t_seller t = SUBMISSION) then - t_quantity t
  else 0.

Definition net (ts : list Trade) : Z := foldr Z.add 0 (signed_quantity <$> ts).

(** What an order's fills did to the engine, product by product. *)
Record fills_applied (sd : Side) (sym : string) (ts : Z) (fills : list (Z * Z))
    (st st' : Engine) : Prop := mkFillsApplied {
  fa_book : ∃ d d',
      order_depths st !! sym = Some d ∧ order_depths st' !! sym = Some d' ∧
      behind sd d' = behind sd d ∧
      ∀ p, facing sd d' !! p = level_after sd (facing sd d !! p) (fill_at fills p);
  fa_position :
      position_of (own_positions st') sym
      = position_of (own_positions st) sym + sgn sd * total_volume fills;
  fa_cash :
      position_of (seashells_by_product st') sym
      = position_of (seashells_by_product st) sym - sgn sd * total_value fills;
  fa_trades :
      trades_of (own_trades st') sym
      = trades_of (own_trades st) sym ++ (own_trade sd sym ts <$> fills);
  fa_frame : ∀ s, s ≠ sym →
      order_depths st' !! s = order_depths st !! s ∧
      own_positions st' !! s = own_positions st !! s ∧
      seashells_by_product st' !! s = seashells_by_product st !! s ∧
      own_trades st' !! s = own_trades st !! s;
}.

(** What matching one order with a non-zero quantity does, in the words of
    section 4.4 of the specification.  [lvls] are the matchable levels in
    visiting order, [fills] the fills of the walk over them. *)
Definition order_matching_spec (sd : Side) (ts : Z) (o : Order) (st : Engine)
    (d : OrderDepth) : Prop :=
  let sym := o_symbol o in
  let quantity := sgn sd * o_quantity o in
  let lvls := levels sd d (o_price o) in
  let fills := walk_levels lvls quantity in
  (* only acceptable levels of the facing half, best price first *)
  StronglySorted (visit_order sd) (lvls.*1) ∧
  (∀ p v, (p, v) ∈ lvls ↔
     facing sd d !! p = Some (- sgn sd * v) ∧ within_limit sd (o_price o) p) ∧
  (* the fills take the levels in that order, skipping none *)
  fills.*1 `prefix_of` lvls.*1 ∧
  (∀ i p f, fills !! i = Some (p, f) →
     ∃ v, lvls !! i = Some (p, v) ∧
          f = Z.min (quantity - total_volume (take i fills)) v) ∧
  (* matching stops on an exhausted order or after the last level *)
  (total_volume fills = quantity ∨ fills.*1 = lvls.*1) ∧
  (* the effect on the engine *)
  (∃ st' d',
     match_order ts o st
       = Ok (st', mkOrder sym (o_price o) (o_quantity o - sgn sd * total_volume fills)) ∧
     order_depths st' !! sym = Some d' ∧
     position_of (own_positions st') sym
       = position_of (own_positions st) sym + sgn sd * total_volume fills ∧
     position_of (seashells_by_product st') sym
       = position_of (seashells_by_product st) sym - sgn sd * total_value fills ∧
     trades_of (own_trades st') sym
       = trades_of (own_trades st) sym ++ (own_trade sd sym ts <$> fills) ∧
     behind sd d' = behind sd d ∧
     (∀ p, facing sd d' !! p = level_after sd (facing sd d !! p) (fill_at fills p))) ∧
  (* no acceptable level: nothing happens *)
  ((∀ p, is_Some (facing sd d !! p) → ¬ within_limit sd (o_price o) p) →
     match_order ts o st = Ok (st, o)).

(** ** Sample data used to exercise the statements *)

Definition PEARLS : string := "PEARLS".
Definition BANANAS : string := "BANANAS".

(** Bids 10 x 5 and 9 x 3, asks 12 x 5 and 13 x 7. *)
Definition sample_row : PriceRow :=
  mkPriceRow 0 0 PEARLS [10; 9] [5; 3] [12; 13] [5; 7] 11 0.

Definition sample_book : OrderDepth := book_of_row sample_row.

Definition sample_engine : Engine := mkEngine {[ PEARLS := sample_book ]} ∅ ∅ ∅.

(** Two engines agree on everything they hold for symbol [s]. *)
Definition same_at (s : string) (st st' : Engine) : Prop :=
  order_depths st' !! s = order_depths st !! s ∧
  own_positions st' !! s = own_positions st !! s ∧
  seashells_by_product st' !! s = seashells_by_product st !! s ∧
  own_trades st' !! s = own_trades st !! s.

(** Every order filed under a symbol names that symbol. *)
Definition keyed (orders : gmap string (list nat)) (objs : store) : Prop :=
  ∀ p refs r, orders !! p = Some refs → r ∈ refs → o_symbol (objs r) = p.

(** The decision of the limit guard for one product, and the row it logs. *)
Definition rejected (positions : gmap string Z) (objs : store)
    (orders : gmap string (list nat)) (p : string) : bool :=
  match LIMITS !! p with
  | Some limit =>
      exceeds (position_of positions p) limit
              (total_long objs (default [] (orders !! p)))
              (total_short objs (default [] (orders !! p)))
  | None => false
  end.

Definition rejection_row (ts : Z) (p : string) : SubmissionLogRow :=
  mkSubmissionLogRow ts (rejection_message p (default 0 (LIMITS !! p))).

(** One order object, buying [q] at 13, filed under PEARLS. *)
Definition sample_orders : gmap string (list nat) := {[ PEARLS := [0%nat] ]}.
Definition sample_store (q : Z) : store := λ _, mkOrder PEARLS 13 q.

(** Follows the spec's words (section 4.5): the conservative unrealized
    value of a position against a price row, whose levels are listed best
    first: a short position at the best ask, a long one at the best bid,
    nothing for a flat one. *)
Definition best_bid (price : PriceRow) : option Z := bid_prices price !! 0%nat.
Definition best_ask (price : PriceRow) : option Z := ask_prices price !! 0%nat.

Definition unrealized (position : Z) (price : PriceRow) : option Z :=
  if decide (position < 0) then (λ ask, position * ask) <$> best_ask price
  else if decide (position > 0) then (λ bid, position * bid) <$> best_bid price
  else Some 0.

(** A two-timestamp session on one product: at timestamp 0 the book is
    bid 9 x 5 / ask 10 x 5, at timestamp 100 it is bid 12 x 5 / ask 14 x 5. *)
Definition sample_data : DayData :=
  mkDayData
    [ mkPriceRow 0 0 PEARLS [9] [5] [10] [5] (19 # 2) 0;
      mkPriceRow 0 100 PEARLS [12] [5] [14] [5] 13 0 ]
    [].

(** An algorithm without memory that buys 5 at 10 at timestamp 0 and does
    nothing afterwards. *)
Definition sample_trader : Trader unit :=
  λ _ state,
    if decide (ts_timestamp state = 0)
    then Ok (tt, EmptyString, (λ _, mkOrder PEARLS 10 5), {[ PEARLS := [0%nat] ]})
    else Ok (tt, EmptyString, (λ _, mkOrder PEARLS 10 5), ∅).

Definition sample_start : Loop unit := mkLoop tt ∅ ∅ ∅ (mkDayResult 1 0 [] [] []).

(** The loop state of the sample session after its first timestamp. *)
Definition sample_after_buy : Loop unit :=
  match step sample_trader sample_data sample_start 0 with
  | Ok lp => lp
  | Raise _ => sample_start
  end.

(** Every trade held in a per-symbol trade map satisfies [P]. *)
Definition all_trades (P : Trade → Prop) (m : gmap string (list Trade)) : Prop :=
  ∀ s l t, m !! s = Some l → t ∈ l → P t.

(** Follows the spec's words (section 3 and glossary): a product is tradable
    when it has at least one quoted level, bid or ask, and non-tradable when
    it has zero bid and zero ask levels; the two classes partition the
    products of the price data. *)
Definition quoted_levels (row : PriceRow) : nat :=
  (length (bid_prices row) + length (ask_prices row))%nat.

Definition classified_by_any_level (data : DayData) : Prop :=
  ∀ p, p ∈ product <$> prices data →
    (p ∈ tradable_products data ↔
       ∃ row, row ∈ prices data ∧ product row = p ∧ (0 < quoted_levels row)%nat) ∧
    (p ∈ non_tradable_products data ↔
       ∀ row, row ∈ prices data → product row = p → quoted_levels row = 0%nat) ∧
    (p ∈ tradable_products data ↔ p ∉ non_tradable_products data).

(** A product quoted on the ask side only. *)
Definition ask_only_data : DayData :=
  mkDayData [ mkPriceRow 0 0 PEARLS [] [] [10] [5] 10 0 ] [].

(** A product whose bid side is empty at one of two timestamps. *)
Definition thin_bid_data : DayData :=
  mkDayData
    [ mkPriceRow 0 0 PEARLS [9] [5] [10] [5] (19 # 2) 0;
      mkPriceRow 0 100 PEARLS [] [] [10] [5] 10 0 ]
    [].

(** A session with one quoted product and one observation-only product. *)
Definition DOLPHINS : string := "DOLPHIN_SIGHTINGS".

Definition observed_data : DayData :=
  mkDayData
    [ mkPriceRow 0 0 PEARLS [9] [5] [10] [5] (19 # 2) 0;
      mkPriceRow 0 0 DOLPHINS [] [] [] [] (6149 # 2) 0 ]
    [].

(** ** Vocabulary of the statements about merging *)

(** Rebasing one activity row of the later session, as [merge_results]
    does inside its list comprehension. *)
Definition rebase_row (timestamp_offset : Z) (offsets : list (value * value))
    (row : ActivityLogRow) : result ActivityLogRow :=
  key ← from_option IndexError (columns row !! 2%nat);
  activity_with_offset row timestamp_offset (offset_of offsets key).

Definition is_number (v : value) : Prop :=
  match v with VStr _ => False | _ => True end.

(** The shape of the activity rows the replay loop writes: 17 columns, an
    integer timestamp, a product name and a float P&L. *)
Record activity_row_wf (row : ActivityLogRow) : Prop := mkActivityRowWf {
  arw_length : length (columns row) = 17%nat;
  arw_timestamp : ∃ ts, columns row !! 1%nat = Some (VInt ts);
  arw_product : ∃ p, columns row !! 2%nat = Some (VStr p);
  arw_pnl : ∃ pnl, columns row !! 16%nat = Some (VFloat pnl);
}.

(** The binding the loop of lines 325-329 records for a row. *)
Definition offset_binding (merge_profit_loss : bool) (row : ActivityLogRow)
  : value * value :=
  (default (VStr EmptyString) (columns row !! 2%nat),
   if merge_profit_loss then default (VFloat 0) (last (columns row)) else VInt 0).

(** The final timestamp of a session result and the offset derived from it. *)
Definition final_timestamp (a : DayResult) : option Z :=
  sb_timestamp <$> last (sandbox_logs a).

(** The first row of a block of activity rows that names product [p]. *)
Definition names_product (p : string) (row : ActivityLogRow) : bool :=
  match columns row !! 2%nat with
  | Some (VStr q) => bool_decide (q = p)
  | _ => false
  end.

Definition final_row (final : list ActivityLogRow) (p : string)
  : option ActivityLogRow :=
  head (filter (λ row, names_product p row = true) final).

(** Two small session results to merge: the earlier one ends at timestamp
    100 with a P&L of 10, the later one has one row of each kind. *)
Definition sample_activity (ts : Z) (pnl : Q) : ActivityLogRow :=
  mkActivityLogRow
    ([VInt 0; VInt ts; VStr PEARLS] ++ replicate 12 (VStr EmptyString)
       ++ [VFloat (19 # 2); VFloat pnl]).

Definition earlier_result : DayResult :=
  mkDayResult 1 0
    [mkSandboxLogRow 0 EmptyString; mkSandboxLogRow 100 EmptyString]
    []
    [sample_activity 0 2; sample_activity 100 10].

Definition later_result : DayResult :=
  mkDayResult 1 1
    [mkSandboxLogRow 300 (timestamp_marker 300)]
    [mkSubmissionLogRow 300 (rejection_message PEARLS 20)]
    [sample_activity 300 3].

(** ** The two per-product folds of the state builder, as one *)

(** The body shared by the loops that build the books and the observations:
    read the product's row, derive a value, store it under the product. *)
Definition fold_rows_body {V : Type} (f : PriceRow → V) (rows : gmap string PriceRow)
    (m : gmap string V) (p : string) : result (gmap string V) :=
  row ← from_option KeyError (rows !! p); Ok (<[p := f row]> m).

(** ** Further sample data *)

(** A feed with one historical trade at each of two timestamps. *)
Definition traded_data : DayData :=
  mkDayData
    [ mkPriceRow 0 0 PEARLS [9] [5] [10] [5] (19 # 2) 0;
      mkPriceRow 0 100 PEARLS [12] [5] [14] [5] 13 0 ]
    [ mkTrade PEARLS (VFloat 10) 2 "Caesar" "Camilla" 0;
      mkTrade PEARLS (VFloat 13) 1 "Camilla" "Caesar" 100 ].

(** ** Conditions under which a session keeps the limits *)

(** Every row of the price feed carries non-negative volumes. *)
Definition volumes_nonneg (data : DayData) : Prop :=
  Forall (λ row, Forall (λ v, 0 ≤ v) (bid_volumes row) ∧
                 Forall (λ v, 0 ≤ v) (ask_volumes row))
         (prices data).

(** Every tradable product is within its limit. *)
Definition within_limits (data : DayData) (positions : gmap string Z) : Prop :=
  ∀ p limit, p ∈ tradable_products data → LIMITS !! p = Some limit →
             Z.abs (position_of positions p) ≤ limit.

(** Whenever the algorithm answers, it files every order under the symbol
    the order names. *)
Definition files_by_symbol {Mem : Type} (trader_run : Trader Mem) : Prop :=
  ∀ mem state mem' stdout (objs : store) orders,
    trader_run mem state = Ok (mem', stdout, objs, orders) → keyed orders objs.

(** A feed in which BANANAS has no row at timestamp 0. *)
Definition gappy_data : DayData :=
  mkDayData
    [ mkPriceRow 0 0 PEARLS [9] [5] [10] [5] (19 # 2) 0;
      mkPriceRow 0 100 PEARLS [12] [5] [14] [5] 13 0;
      mkPriceRow 0 100 BANANAS [4] [5] [6] [5] 5 0 ]
    [].

(** ** The limit guard on answers of any shape *)







(** ** The ledger of a timestamp *)

(** The cash an own trade of the engine takes: its integer price times the
    quantity it adds to the position. *)
Definition cost (t : Trade) : Z :=
  match t_price t with
  | VInt price => price * signed_quantity t
  | _ => 0
  end.

Definition total_cost (ts : list Trade) : Z := foldr Z.add 0 (cost <$> ts).

(** Between two engine states every symbol's own trades grew by a list of
    trades that accounts for the change of its position and of its cash. *)
Definition booked (st st' : Engine) : Prop :=
  ∀ s, ∃ new,
    trades_of (own_trades st') s = trades_of (own_trades st) s ++ new ∧
    position_of (own_positions st') s = position_of (own_positions st) s + net new ∧
    position_of (seashells_by_product st') s
      = position_of (seashells_by_product st) s - total_cost new.

(** Every order of the batches the matching loop replays names a symbol
    that has a book. *)
Definition orders_have_books (depths : gmap string OrderDepth)
    (orders_by_symbol : gmap string (list nat)) (objs : store)
    (products : list string) : Prop :=
  Forall (λ p, Forall (λ r, is_Some (depths !! o_symbol (objs r)))
                      (default [] (orders_by_symbol !! p)))
         products.

(** ** main: replaying the days and merging their results (lines 361-362) *)

(** [functools.reduce(function, sequence)] without an initial value: a
    TypeError on an empty sequence. *)
Definition reduce {A} (f : A → A → result A) (xs : list A) : result A :=
  match xs with
  | [] => Raise TypeError
  | x :: rest => for_each f rest x
  end.

Section Main.
Context {Mem : Type}.
(** The feed files as a function of round and day, the algorithm, and the
    memory of a freshly constructed [Trader]. *)
Variable read_day_data : Z → Z → DayData.
Variable trader_run : Trader Mem.
Variable trader_cls : Mem.

(** [[run_backtest(trader_cls(), round, day) for round, day in days]] *)
Definition run_days (days : list (Z * Z)) : result (list DayResult) :=
  for_each (λ results rd,
              res ← run_backtest trader_run (read_day_data rd.1 rd.2) rd.1 rd.2 trader_cls;
              Ok (results ++ [res]))
           days [].

(** [reduce(lambda a, b: merge_results(a, b, args.merge_profit_loss), results)] *)
Definition merged_results (days : list (Z * Z)) (merge_profit_loss : bool)
  : result DayResult :=
  results ← run_days days;
  reduce (λ a b, merge_results a b merge_profit_loss) results.
End Main.

(** ** The activity rows of one timestamp *)

(** The block of rows a timestamp appends to the activity log: a row per
    tradable product, then a row per non-tradable product with a P&L of
    0.0, every row with 17 columns, the timestamp and the product's name. *)
Definition session_block (data : DayData) (ts : Z) (block : list ActivityLogRow) : Prop :=
  ∃ rows1 rows2,
    block = rows1 ++ rows2 ∧
    Forall2 (λ p row, activity_row_wf row ∧
                      columns row !! 1%nat = Some (VInt ts) ∧
                      columns row !! 2%nat = Some (VStr p))
            (elements (tradable_products data)) rows1 ∧
    Forall2 (λ p row, activity_row_wf row ∧
                      columns row !! 1%nat = Some (VInt ts) ∧
                      columns row !! 2%nat = Some (VStr p) ∧
                      last (columns row) = Some (VFloat 0))
            (elements (non_tradable_products data)) rows2.

(** ** The profit summary (run_backtest, lines 297-310; main, lines 390-401) *)

(** The loop over [reversed(result.activity_logs)] that adds the last column
    of the rows of the last timestamp to the running total. *)
Fixpoint sum_final (last_timestamp : value) (rows : list ActivityLogRow)
    (total : value) : result value :=
  match rows with
  | [] => Ok total
  | row :: rest =>
      ts ← row_timestamp row;
      if negb (py_eqb ts last_timestamp) then Ok total
      else
        pnl ← from_option IndexError (last (columns row));
        total' ← vadd total pnl;
        sum_final last_timestamp rest total'
  end.

Definition total_profit (res : DayResult) : result value :=
  last_row ← from_option IndexError (last (activity_logs res));
  last_timestamp ← row_timestamp last_row;
  sum_final last_timestamp (reverse (activity_logs res)) (VInt 0).

(** [next(row.columns[-1] for row in reversed(...) if row.timestamp ==
    last_timestamp and row.columns[2] == product)]; the answer [None]
    stands for the StopIteration of an exhausted generator. *)
Fixpoint next_profit (last_timestamp : value) (product : string)
    (rows : list ActivityLogRow) : result (option value) :=
  match rows with
  | [] => Ok None
  | row :: rest =>
      ts ← row_timestamp row;
      if py_eqb ts last_timestamp then
        name ← from_option IndexError (columns row !! 2%nat);
        if py_eqb name (VStr product) then
          pnl ← from_option IndexError (last (columns row));
          Ok (Some pnl)
        else next_profit last_timestamp product rest
      else next_profit last_timestamp product rest
  end.

Definition product_profit (res : DayResult) (product : string)
  : result (option value) :=
  last_row ← from_option IndexError (last (activity_logs res));
  last_timestamp ← row_timestamp last_row;
  next_profit last_timestamp product (reverse (activity_logs res)).

(** The number a value denotes, and the P&L column of a row as a number. *)
Definition num_val (v : value) : Q :=
  match v with
  | VInt z => inject_Z z
  | VFloat q => q
  | VStr _ => 0%Q
  end.

Definition pnl_of (row : ActivityLogRow) : Q :=
  num_val (default (VInt 0) (last (columns row))).

(** Whether a row carries the timestamp [T]. *)
Definition stamped (T : Z) (row : ActivityLogRow) : bool :=
  match columns row !! 1%nat with
  | Some ts => py_eqb ts (VInt T)
  | None => false
  end.

(** The sum of the P&L column over the rows stamped [T]. *)
Definition final_total (res : DayResult) (T : Z) : Q :=
  foldr Qplus 0%Q
    (pnl_of <$> filter (λ row, stamped T row = true) (activity_logs res)).

(** The running total after the rows of a block have been added to it, last
    row first. *)
Definition total_after (total : value) (block : list ActivityLogRow) : value :=
  foldr (λ row acc, VFloat (Qred (num_val acc + pnl_of row)%Q)) total block.

(** An algorithm without memory that never sends an order. *)
Definition idle_trader : Trader unit :=
  λ _ _, Ok (tt, EmptyString, (λ _, mkOrder EmptyString 0 0), ∅).

(** ** Marking a position to market *)

(** The side of the row a position is valued at is quoted: a short position
    needs an ask, a long one a bid, a flat one nothing. *)
Definition valued (position : Z) (price : PriceRow) : Prop :=
  (position < 0 → ask_prices price ≠ []) ∧ (position > 0 → bid_prices price ≠ []).

(** ** Reading the feed (get_column_values and read_day_data, lines 101-148) *)

(** The outcome of reading: a value, the IndexError of a missing column or
    the ValueError of a cell that is not a number. *)
Inductive reading (A : Type) : Type :=
| Read (a : A)
| ReadIndexError
| ReadValueError.
Arguments Read {A} a.
Arguments ReadIndexError {A}.
Arguments ReadValueError {A}.

#[global] Instance reading_ret : MRet reading := fun _ a => Read a.
#[global] Instance reading_bind : MBind reading := fun _ _ f m =>
  match m with
  | Read a => f a
  | ReadIndexError => ReadIndexError
  | ReadValueError => ReadValueError
  end.

(** [columns[index]] *)
Definition column (columns : list string) (index : nat) : reading string :=
  match columns !! index with
  | Some value => Read value
  | None => ReadIndexError
  end.

(** [line.split(sep)] for a separator of one character. *)
Fixpoint split_on (sep : ascii) (s : string) : list string :=
  match s with
  | EmptyString => [EmptyString]
  | String c s' =>
      if decide (c = sep) then EmptyString :: split_on sep s'
      else match split_on sep s' with
           | first :: rest => String c first :: rest
           | [] => [String c EmptyString]
           end
  end.

Section Reader.
(** The conversions [int] and [float] of a cell; [None] is their ValueError. *)
Variable int : string → option Z.
Variable float : string → option Q.

Definition to_int (s : string) : reading Z :=
  match int s with Some z => Read z | None => ReadValueError end.

Definition to_float (s : string) : reading Q :=
  match float s with Some q => Read q | None => ReadValueError end.

(** A cell that exists, is not empty and converts to the integer [z]. *)
Definition number_at (columns : list string) (index : nat) (z : Z) : Prop :=
  ∃ cell, columns !! index = Some cell ∧ cell ≠ EmptyString ∧ int cell = Some z.

(** The loop of [get_column_values], with its accumulator [values]. *)
Fixpoint get_values (columns : list string) (indices : list nat) (values : list Z)
  : reading (list Z) :=
  match indices with
  | [] => Read values
  | index :: rest =>
      value ← column columns index;
      if decide (value = EmptyString) then Read values
      else z ← to_int value; get_values columns rest (values ++ [z])
  end.

Definition get_column_values (columns : list string) (indices : list nat)
  : reading (list Z) :=
  get_values columns indices [].

(** The body of the loop over the price lines of [read_day_data]. *)
Definition price_row_of_line (line : string) : reading PriceRow :=
  let columns := split_on ";" line in
  day ← column columns 0 ≫= to_int;
  timestamp ← column columns 1 ≫= to_int;
  product ← column columns 2;
  bid_prices ← get_column_values columns [3; 5; 7]%nat;
  bid_volumes ← get_column_values columns [4; 6; 8]%nat;
  ask_prices ← get_column_values columns [9; 11; 13]%nat;
  ask_volumes ← get_column_values columns [10; 12; 14]%nat;
  mid_price ← column columns 15 ≫= to_float;
  profit_loss ← column columns 16 ≫= to_float;
  Read (mkPriceRow day timestamp product bid_prices bid_volumes ask_prices ask_volumes
                   mid_price profit_loss).

(** The body of the loop over the trade lines of [read_day_data]. *)
Definition trade_of_line (line : string) : reading Trade :=
  let columns := split_on ";" line in
  symbol ← column columns 3;
  price ← column columns 5 ≫= to_float;
  quantity ← column columns 6 ≫= to_int;
  buyer ← column columns 1;
  seller ← column columns 2;
  timestamp ← column columns 0 ≫= to_int;
  Read (mkTrade symbol (VFloat price) quantity buyer seller timestamp).

(** [for line in lines[1:]: rows.append(...)] *)
Fixpoint read_lines {A} (of_line : string → reading A) (lines : list string)
    (rows : list A) : reading (list A) :=
  match lines with
  | [] => Read rows
  | line :: rest => row ← of_line line; read_lines of_line rest (rows ++ [row])
  end.

(** [read_day_data] on the lines of the two files. *)
Definition read_day_data (price_lines trade_lines : list string) : reading DayData :=
  prices ← read_lines price_row_of_line (drop 1 price_lines) [];
  trades ← read_lines trade_of_line (drop 1 trade_lines) [];
  Read (mkDayData prices trades).
End Reader.

(** Conversions for cells holding decimal integers, and two small files,
    to exercise the reader. *)
Definition sample_int (s : string) : option Z := Z.of_int <$> NilEmpty.int_of_string s.
Definition sample_float (s : string) : option Q := inject_Z <$> sample_int s.

Definition sample_price_lines : list string :=
  [ "day;timestamp;product"; "0;0;PEARLS;9;5;;;;;10;5;;;;;9;0" ]%string.
Definition sample_trade_lines : list string :=
  [ "timestamp;buyer;seller"; "0;Caesar;Camilla;PEARLS;SEASHELLS;10;2" ]%string.

(** ** Diagnostic texts *)

(** A text without the double-quote character. *)
Fixpoint quote_free (s : string) : Prop :=
  match s with
  | EmptyString => True
  | String c s' => c ≠ dquote ∧ quote_free s'
  end.

(** * Properties *)

(** ** The error monad *)

Lemma bind_Ok {A B} (m : result A) (f : A → result B) (b : B) :
  m ≫= f = Ok b ↔ ∃ a, m = Ok a ∧ f a = Ok b.
Proof.
  destruct m as [a|e]; simpl; split.
  - intros H. by exists a.
  - by intros (a' & [= ->] & H).
  - intros H. discriminate.
  - by intros (a' & H & _).
Qed.

Lemma from_option_Ok {A} (e : exn) (o : option A) (a : A) :
  from_option e o = Ok a ↔ o = Some a.
Proof. destruct o; simpl; split; congruence. Qed.

Lemma for_each_app {S X} (body : S → X → result S) (xs ys : list X) (st : S) :
  for_each body (xs ++ ys) st = for_each body xs st ≫= for_each body ys.
Proof.
  revert st. induction xs as [|x xs IH]; intros st; simpl; [done|].
  destruct (body st x) as [st'|e]; simpl; [apply IH | done].
Qed.

(** ** The levels an order visits *)

Lemma elem_of_keys {V} (m : gmap Z V) (p : Z) : p ∈ keys m ↔ is_Some (m !! p).
Proof.
  unfold keys. rewrite list_elem_of_fmap. split.
  - intros ([k v] & -> & H). apply elem_of_map_to_list in H. by exists v.
  - intros [v H]. exists (p, v). split; [done|]. by apply elem_of_map_to_list.
Qed.

Lemma NoDup_keys {V} (m : gmap Z V) : NoDup (keys m).
Proof. apply NoDup_fst_map_to_list. Qed.

Lemma StronglySorted_le_lt (l : list Z) :
  StronglySorted Z.le l → NoDup l → StronglySorted Z.lt l.
Proof.
  induction 1 as [|x l Hs IH Hall]; intros Hnd; [constructor|].
  apply NoDup_cons in Hnd as [Hx Hnd]. constructor; [by apply IH|].
  rewrite Forall_forall in Hall |- *. intros y Hy.
  specialize (Hall y Hy). assert (x ≠ y) by (intros Heq; apply Hx; by rewrite Heq). lia.
Qed.

Lemma StronglySorted_reverse_lt (l : list Z) :
  StronglySorted Z.lt l → StronglySorted (flip Z.lt) (reverse l).
Proof.
  induction 1 as [|x l Hs IH Hall]; [rewrite reverse_nil; constructor|].
  rewrite reverse_cons. apply StronglySorted_app. split_and!.
  - intros y z Hy Hz. apply list_elem_of_singleton in Hz as ->.
    rewrite elem_of_reverse in Hy. rewrite Forall_forall in Hall.
    unfold flip. by apply Hall.
  - done.
  - repeat constructor.
Qed.

Section sorted_filter.
Context (P : Z → Prop) `{!∀ p, Decision (P p)} {V : Type} (m : gmap Z V).

Lemma sorted_filter_elem (p : Z) :
  p ∈ merge_sort Z.le (filter P (keys m)) ↔ is_Some (m !! p) ∧ P p.
Proof.
  rewrite merge_sort_Permutation, list_elem_of_filter, elem_of_keys. tauto.
Qed.

Lemma sorted_filter_ascending :
  StronglySorted Z.lt (merge_sort Z.le (filter P (keys m))).
Proof.
  apply StronglySorted_le_lt.
  - apply StronglySorted_merge_sort; apply _.
  - rewrite merge_sort_Permutation. apply NoDup_filter, NoDup_keys.
Qed.
End sorted_filter.

Lemma elem_of_matches sd d limit p :
  p ∈ matches sd d limit ↔ is_Some (facing sd d !! p) ∧ within_limit sd limit p.
Proof.
  destruct sd; simpl; unfold ask_matches, bid_matches.
  - apply (sorted_filter_elem (λ price, price ≤ limit)).
  - rewrite elem_of_reverse. apply (sorted_filter_elem (λ price, limit ≤ price)).
Qed.

Lemma matches_sorted sd d limit : StronglySorted (visit_order sd) (matches sd d limit).
Proof.
  destruct sd; simpl; unfold ask_matches, bid_matches.
  - apply (sorted_filter_ascending (λ price, price ≤ limit)).
  - apply StronglySorted_reverse_lt, (sorted_filter_ascending (λ price, limit ≤ price)).
Qed.

Lemma StronglySorted_irrefl_NoDup {A} (R : relation A) `{!Irreflexive R} (l : list A) :
  StronglySorted R l → NoDup l.
Proof.
  induction 1 as [|x l Hs IH Hall]; constructor; [|done].
  intros Hx. rewrite Forall_forall in Hall. by apply (irreflexivity R x), Hall.
Qed.

Lemma matches_NoDup sd d limit : NoDup (matches sd d limit).
Proof.
  pose proof (matches_sorted sd d limit) as H. destruct sd; simpl in H.
  - eapply (StronglySorted_irrefl_NoDup Z.lt), H.
  - eapply (StronglySorted_irrefl_NoDup (flip Z.lt)), H.
Qed.

(** ** One fill, and the loop over the matchable levels *)

Lemma position_of_insert (m : gmap string Z) (s : string) (x : Z) :
  position_of (<[s := x]> m) s = x.
Proof. unfold position_of. by rewrite lookup_insert_eq. Qed.

Lemma trades_of_insert (m : gmap string (list Trade)) (s : string) (x : list Trade) :
  trades_of (<[s := x]> m) s = x.
Proof. unfold trades_of. by rewrite lookup_insert_eq. Qed.

Lemma total_volume_cons p f (rest : list (Z * Z)) :
  total_volume ((p, f) :: rest) = f + total_volume rest.
Proof. reflexivity. Qed.

Lemma total_value_cons p f (rest : list (Z * Z)) :
  total_value ((p, f) :: rest) = p * f + total_value rest.
Proof. reflexivity. Qed.

Lemma total_volume_nil : total_volume [] = 0.
Proof. reflexivity. Qed.

Lemma total_value_nil : total_value [] = 0.
Proof. reflexivity. Qed.

Lemma fill_at_None (fills : list (Z * Z)) (p : Z) :
  p ∉ fills.*1 → fill_at fills p = None.
Proof.
  induction fills as [|[p' f] fills IH]; simpl; [done|].
  rewrite not_elem_of_cons. intros [Hne Hnin].
  destruct (decide (p' = p)); [congruence | by apply IH].
Qed.

Lemma fills_applied_nil sd sym ts st d :
  order_depths st !! sym = Some d → fills_applied sd sym ts [] st st.
Proof.
  intros Hd. split; rewrite ?total_volume_nil, ?total_value_nil; try lia.
  - by exists d, d.
  - by rewrite app_nil_r.
  - done.
Qed.

Lemma fills_applied_cons sd sym ts p f rest st st1 st' :
  fills_applied sd sym ts [(p, f)] st st1 →
  fills_applied sd sym ts rest st1 st' →
  p ∉ rest.*1 →
  fills_applied sd sym ts ((p, f) :: rest) st st'.
Proof.
  intros [(d & d1 & Hd & Hd1 & Hb1 & Hf1) Hp1 Hc1 Ht1 Hfr1]
         [(d1' & d' & Hd1' & Hd' & Hb2 & Hf2) Hp2 Hc2 Ht2 Hfr2] Hnin.
  assert (d1' = d1) as -> by congruence.
  split.
  - exists d, d'. split_and!; [done | done | congruence |].
    intros p'. rewrite Hf2, Hf1. simpl.
    destruct (decide (p = p')) as [->|Hne].
    + by rewrite (fill_at_None rest p').
    + done.
  - rewrite Hp2, Hp1, !total_volume_cons, total_volume_nil. destruct sd; simpl; lia.
  - rewrite Hc2, Hc1, !total_value_cons, total_value_nil. destruct sd; simpl; lia.
  - rewrite Ht2, Ht1. by rewrite <- app_assoc.
  - intros s Hs. destruct (Hfr1 s Hs) as (?&?&?&?), (Hfr2 s Hs) as (?&?&?&?).
    split_and!; congruence.
Qed.

Lemma fill_step sd sym ts price q st d v :
  order_depths st !! sym = Some d →
  facing sd d !! price = Some v →
  0 ≤ resting sd v →
  0 < sgn sd * q →
  ∃ st', fill_of sd sym ts price q st
           = Ok (st', q - sgn sd * Z.min (sgn sd * q) (resting sd v))
         ∧ fills_applied sd sym ts [(price, Z.min (sgn sd * q) (resting sd v))] st st'.
Proof.
  intros Hd Hv Hres Hq. destruct sd; simpl in *; unfold resting in *; simpl in *.
  - unfold buy_fill. rewrite Hd. simpl. rewrite Hv. simpl.
    assert (Z.min q (Z.abs v) = Z.min (1 * q) (- (1) * v)) as -> by lia.
    set (f := Z.min (1 * q) (- (1) * v)).
    eexists. split; [f_equal; f_equal; lia|].
    split; simpl.
    + eexists d, _. rewrite lookup_insert_eq. split_and!; [done | done | done |].
      intros p. simpl. destruct (decide (price = p)) as [<-|Hne].
      * rewrite Hv. unfold level_after, resting. simpl.
        repeat case_decide; try lia.
        -- by rewrite lookup_delete_eq.
        -- rewrite lookup_insert_eq. f_equal. lia.
      * unfold level_after. case_decide;
          [by rewrite lookup_delete_ne | by rewrite lookup_insert_ne].
    + rewrite position_of_insert, total_volume_cons, total_volume_nil. lia.
    + rewrite position_of_insert, total_value_cons, total_value_nil. lia.
    + by rewrite trades_of_insert.
    + intros s Hs. by rewrite !lookup_insert_ne.
  - unfold sell_fill. rewrite Hd. simpl. rewrite Hv. simpl.
    assert (Z.min (Z.abs q) v = Z.min (-1 * q) (- (-1) * v)) as -> by lia.
    set (f := Z.min (-1 * q) (- (-1) * v)).
    eexists. split; [f_equal; f_equal; lia|].
    split; simpl.
    + eexists d, _. rewrite lookup_insert_eq. split_and!; [done | done | done |].
      intros p. simpl. destruct (decide (price = p)) as [<-|Hne].
      * rewrite Hv. unfold level_after, resting. simpl.
        repeat case_decide; try lia.
        -- by rewrite lookup_delete_eq.
        -- rewrite lookup_insert_eq. f_equal. lia.
      * unfold level_after. case_decide;
          [by rewrite lookup_delete_ne | by rewrite lookup_insert_ne].
    + rewrite position_of_insert, total_volume_cons, total_volume_nil. lia.
    + rewrite position_of_insert, total_value_cons, total_value_nil. lia.
    + by rewrite trades_of_insert.
    + intros s Hs. by rewrite !lookup_insert_ne.
Qed.

(** Facts about the walk itself. *)

Lemma walk_levels_prices lvls r : (walk_levels lvls r).*1 `prefix_of` lvls.*1.
Proof.
  revert r. induction lvls as [|[p v] lvls IH]; intros r; simpl; [done|].
  case_decide.
  - simpl. by apply prefix_cons, prefix_nil.
  - apply prefix_cons, IH.
Qed.

Lemma walk_levels_bounds lvls r :
  0 < r → Forall (λ pv, 0 ≤ pv.2) lvls →
  Forall (λ pf, 0 ≤ pf.2) (walk_levels lvls r) ∧
  0 ≤ total_volume (walk_levels lvls r) ≤ r.
Proof.
  revert r. induction lvls as [|[p v] lvls IH]; intros r Hr Hall; simpl.
  - rewrite total_volume_nil. split; [constructor | lia].
  - apply Forall_cons in Hall as [Hv Hall]. simpl in Hv.
    rewrite total_volume_cons. case_decide.
    + rewrite total_volume_nil. split; [|lia].
      repeat constructor. simpl. lia.
    + destruct (IH (r - r `min` v)) as [IH1 IH2]; [lia | done |].
      split; [|lia]. constructor; [simpl; lia | done].
Qed.

(** The walk ends because the quantity is exhausted or because every
    matchable level has been visited. *)
Lemma walk_levels_stops lvls r :
  0 < r → Forall (λ pv, 0 ≤ pv.2) lvls →
  total_volume (walk_levels lvls r) = r ∨ (walk_levels lvls r).*1 = lvls.*1.
Proof.
  revert r. induction lvls as [|[p v] lvls IH]; intros r Hr Hall; simpl.
  - by right.
  - apply Forall_cons in Hall as [Hv Hall]. simpl in Hv.
    rewrite total_volume_cons. case_decide.
    + left. rewrite total_volume_nil. lia.
    + destruct (IH (r - r `min` v)) as [IH1|IH1]; [lia | done | |].
      * left. lia.
      * right. simpl. by f_equal.
Qed.

(** Each fill is the minimum of what was left of the order and the volume
    resting at that level. *)
Lemma walk_levels_fill lvls r i p f :
  walk_levels lvls r !! i = Some (p, f) →
  ∃ v, lvls !! i = Some (p, v) ∧
       f = Z.min (r - total_volume (take i (walk_levels lvls r))) v.
Proof.
  revert r i. induction lvls as [|[p' v] lvls IH]; intros r i; simpl; [done|].
  destruct i as [|i]; simpl.
  - intros [= -> <-]. exists v. rewrite total_volume_nil. split; [done | lia].
  - case_decide; [done|]. intros Hi.
    destruct (IH _ _ Hi) as (v' & Hl & Hf). exists v'. split; [done|].
    rewrite total_volume_cons. rewrite Hf. f_equal. lia.
Qed.

(** The loop of the engine performs exactly the walk. *)
Lemma fill_loop_walk sd sym ts ps : ∀ q st d,
  order_depths st !! sym = Some d →
  NoDup ps →
  (∀ p, p ∈ ps → ∃ v, facing sd d !! p = Some v ∧ 0 ≤ resting sd v) →
  0 < sgn sd * q →
  let fills :=
    walk_levels ((λ p, (p, resting sd (default 0 (facing sd d !! p)))) <$> ps)
                (sgn sd * q) in
  ∃ st', fill_loop (fill_of sd sym ts) ps q st
           = Ok (st', q - sgn sd * total_volume fills)
         ∧ fills_applied sd sym ts fills st st'.
Proof.
  induction ps as [|p ps IH]; intros q st d Hd Hnd Hlv Hq; csimpl.
  - exists st. rewrite total_volume_nil. split; [f_equal; f_equal; lia|].
    by eapply fills_applied_nil.
  - apply NoDup_cons in Hnd as [Hp Hnd].
    destruct (Hlv p) as (v & Hv & Hres); [left|].
    destruct (fill_step sd sym ts p q st d v Hd Hv Hres Hq) as (st1 & Hfill & Hfa).
    rewrite Hfill. csimpl. rewrite Hv. csimpl.
    set (f := Z.min (sgn sd * q) (resting sd v)) in *.
    assert (q - sgn sd * f = 0 ↔ sgn sd * q - f = 0) as Hiff
      by (destruct sd; simpl; lia).
    rewrite total_volume_cons.
    destruct (decide (q - sgn sd * f = 0)) as [Hz|Hnz].
    + rewrite decide_True by (by apply Hiff). rewrite total_volume_nil.
      exists st1. split; [f_equal; f_equal; lia | done].
    + rewrite decide_False by (by rewrite <- Hiff).
      destruct Hfa as [(d0 & d1 & Hd0 & Hd1 & Hb & Hf) Hp1 Hc1 Ht1 Hfr1].
      assert (d0 = d) as -> by congruence.
      assert (∀ p', p' ∈ ps → facing sd d1 !! p' = facing sd d !! p') as Hsame.
      { intros p' Hp'. rewrite Hf. simpl.
        rewrite decide_False by (intros ->; done). done. }
      destruct (IH (q - sgn sd * f) st1 d1) as (st' & Hloop & Hfa'); [done | done | | |].
      { intros p' Hp'. rewrite Hsame by done. apply Hlv. by right. }
      { assert (f ≤ sgn sd * q) by (subst f; lia).
        destruct sd; simpl in *; lia. }
      assert (((λ p0, (p0, resting sd (default 0 (facing sd d1 !! p0)))) <$> ps)
              = ((λ p0, (p0, resting sd (default 0 (facing sd d !! p0)))) <$> ps)) as Heq.
      { apply list_fmap_ext. intros i p' Hi.
        rewrite Hsame; [done|]. by eapply list_elem_of_lookup_2. }
      rewrite Heq in Hloop, Hfa'.
      assert (sgn sd * (q - sgn sd * f) = sgn sd * q - f) as Hrem
        by (destruct sd; simpl; lia).
      rewrite Hrem in Hloop, Hfa'.
      exists st'. split.
      * rewrite Hloop. f_equal. f_equal. destruct sd; simpl; lia.
      * eapply fills_applied_cons; [| exact Hfa' |].
        -- split; [by exists d, d1 | done..].
        -- intros Hin. apply Hp.
           pose proof (walk_levels_prices
             ((λ p0, (p0, resting sd (default 0 (facing sd d !! p0)))) <$> ps)
             (sgn sd * q - f)) as Hpre.
           apply (λ H, elem_of_prefix _ _ _ H Hpre) in Hin.
           rewrite <- list_fmap_compose in Hin.
           apply list_elem_of_fmap in Hin as (p'' & -> & Hin). done.
Qed.

(** ** One order *)

Lemma book_wf_facing sd d p v :
  book_wf d → facing sd d !! p = Some v → 0 ≤ resting sd v.
Proof.
  intros [Hb Ha] Hv. unfold resting. destruct sd; simpl in *.
  - specialize (Ha p v Hv). simpl in Ha. lia.
  - specialize (Hb p v Hv). simpl in Hb. lia.
Qed.

Lemma side_of_Some q sd :
  side_of q = Some sd ↔ (sd = Buy ∧ q > 0) ∨ (sd = Sell ∧ q < 0).
Proof.
  unfold side_of.
  destruct (decide (q > 0)) as [Hp|Hp]; [|destruct (decide (q < 0)) as [Hn|Hn]].
  - split; [intros [= <-]; by left | intros [[-> _]|[-> ?]]; [done | lia]].
  - split; [intros [= <-]; by right | intros [[-> ?]|[-> _]]; [lia | done]].
  - split; [done | intros [[_ ?]|[_ ?]]; lia].
Qed.

Lemma side_of_sgn q sd : side_of q = Some sd → 0 < sgn sd * q.
Proof. rewrite side_of_Some. intros [[-> ?]|[-> ?]]; simpl; lia. Qed.

Lemma levels_volumes sd d limit :
  book_wf d → Forall (λ pv, 0 ≤ pv.2) (levels sd d limit).
Proof.
  intros Hwf. unfold levels. rewrite Forall_fmap. apply Forall_forall.
  intros p Hp. simpl. apply elem_of_matches in Hp as [[v Hv] _].
  rewrite Hv. simpl. by eapply book_wf_facing.
Qed.

(** An order with a non-zero quantity performs the walk over its matchable
    levels; the loop never raises. *)
Lemma match_order_walk ts o st d sd :
  order_depths st !! o_symbol o = Some d →
  book_wf d →
  side_of (o_quantity o) = Some sd →
  let fills := walk_levels (levels sd d (o_price o)) (sgn sd * o_quantity o) in
  ∃ st', match_order ts o st
           = Ok (st', mkOrder (o_symbol o) (o_price o)
                              (o_quantity o - sgn sd * total_volume fills))
         ∧ fills_applied sd (o_symbol o) ts fills st st'.
Proof.
  intros Hd Hwf Hsd. pose proof (side_of_sgn _ _ Hsd) as Hq.
  destruct (fill_loop_walk sd (o_symbol o) ts (matches sd d (o_price o))
              (o_quantity o) st d Hd) as (st' & Hloop & Hfa).
  { apply matches_NoDup. }
  { intros p Hp. apply elem_of_matches in Hp as [[v Hv] _].
    exists v. split; [done|]. by eapply book_wf_facing. }
  { done. }
  exists st'. split; [|exact Hfa].
  unfold match_order. rewrite Hd. simpl.
  apply side_of_Some in Hsd as [[-> Hpos]|[-> Hneg]]; simpl in *.
  - rewrite decide_True by done. rewrite Hloop. done.
  - rewrite decide_False by lia. rewrite decide_True by done. rewrite Hloop. done.
Qed.

Lemma match_order_zero ts o st d :
  order_depths st !! o_symbol o = Some d →
  o_quantity o = 0 →
  match_order ts o st = Ok (st, o).
Proof.
  intros Hd Hq. unfold match_order. rewrite Hd. simpl.
  rewrite !decide_False by lia. done.
Qed.

(** The levels in visiting order carry the price and the resting volume of
    exactly the acceptable levels of the facing half of the book. *)
Lemma elem_of_levels sd d limit p v :
  (p, v) ∈ levels sd d limit ↔
  (∃ stored, facing sd d !! p = Some stored ∧ v = resting sd stored)
  ∧ within_limit sd limit p.
Proof.
  unfold levels. rewrite list_elem_of_fmap. split.
  - intros (p' & [= -> ->] & Hp). apply elem_of_matches in Hp as [[s Hs] Hl].
    split; [|done]. exists s. by rewrite Hs.
  - intros [(s & Hs & ->) Hl]. exists p. rewrite Hs. split; [done|].
    apply elem_of_matches. split; [by exists s | done].
Qed.

Lemma levels_prices sd d limit : (levels sd d limit).*1 = matches sd d limit.
Proof.
  unfold levels. rewrite <- list_fmap_compose. simpl.
  rewrite <- (list_fmap_id (matches sd d limit)) at 2. done.
Qed.

(** ** The net effect of an order on the position *)

Lemma book_wf_alt d :
  book_wf d ↔ ∀ sd p v, facing sd d !! p = Some v → 0 ≤ resting sd v.
Proof.
  split.
  - intros Hwf sd p v. by apply book_wf_facing.
  - intros H. split; intros p v Hv; simpl.
    + specialize (H Sell p v Hv). unfold resting in H. simpl in H. lia.
    + specialize (H Buy p v Hv). unfold resting in H. simpl in H. lia.
Qed.

Lemma fill_at_Some fills p f : fill_at fills p = Some f → (p, f) ∈ fills.
Proof.
  induction fills as [|[p' f'] fills IH]; simpl; [done|].
  case_decide as Hp.
  - intros [= ->]. subst. left.
  - intros H. right. by apply IH.
Qed.

Lemma walk_levels_fill_le lvls r p f :
  0 < r → Forall (λ pv, 0 ≤ pv.2) lvls →
  (p, f) ∈ walk_levels lvls r → ∃ v, (p, v) ∈ lvls ∧ 0 ≤ f ≤ v.
Proof.
  intros Hr Hall Hin.
  destruct (walk_levels_bounds lvls r Hr Hall) as [Hnn _].
  rewrite Forall_forall in Hnn. specialize (Hnn _ Hin). simpl in Hnn.
  apply list_elem_of_lookup in Hin as [i Hi].
  destruct (walk_levels_fill _ _ _ _ _ Hi) as (v & Hv & ->).
  exists v. split; [by eapply list_elem_of_lookup_2 | lia].
Qed.

Lemma fills_applied_wf sd sym ts d limit q st st' d' :
  book_wf d → 0 < q →
  order_depths st !! sym = Some d →
  order_depths st' !! sym = Some d' →
  fills_applied sd sym ts (walk_levels (levels sd d limit) q) st st' →
  book_wf d'.
Proof.
  intros Hwf Hq Hd Hd' [(d0 & d1 & Hd0 & Hd1 & Hb & Hf) _ _ _ _].
  assert (d0 = d) as -> by congruence. assert (d1 = d') as -> by congruence.
  rewrite book_wf_alt in Hwf |- *. intros sd' p v' Hv'.
  destruct (decide (sd' = sd)) as [->|Hne].
  - rewrite Hf in Hv'. unfold level_after in Hv'.
    destruct (fill_at _ p) as [f|] eqn:Hfill; [|by eapply Hwf].
    destruct (facing sd d !! p) as [v|] eqn:Hv; [|done].
    case_decide; [done|]. injection Hv' as <-.
    apply fill_at_Some in Hfill.
    apply walk_levels_fill_le in Hfill as (v0 & Hin & Hle);
      [| done | by apply levels_volumes, book_wf_alt].
    apply elem_of_levels in Hin as [(s & Hs & ->) _].
    assert (s = v) as -> by congruence.
    unfold resting in *. destruct sd; simpl in *; lia.
  - apply (Hwf sd' p v'). rewrite <- Hv'.
    destruct sd, sd'; simpl in *; try done; by rewrite Hb.
Qed.

Lemma signed_quantity_own_trade sd sym ts pf :
  signed_quantity (own_trade sd sym ts pf) = sgn sd * pf.2.
Proof. destruct sd; unfold signed_quantity; simpl; lia. Qed.

Lemma net_own_trades sd sym ts fills :
  net (own_trade sd sym ts <$> fills) = sgn sd * total_volume fills.
Proof.
  unfold net. induction fills as [|[p f] fills IH]; csimpl.
  - rewrite total_volume_nil. lia.
  - rewrite total_volume_cons, IH, signed_quantity_own_trade. simpl.
    destruct sd; simpl; lia.
Qed.

Lemma net_app l1 l2 : net (l1 ++ l2) = net l1 + net l2.
Proof.
  unfold net. induction l1 as [|t l1 IH]; csimpl; [done|]. rewrite IH. lia.
Qed.

Lemma total_volume_take fills k :
  Forall (λ pf, 0 ≤ pf.2) fills →
  0 ≤ total_volume (take k fills) ≤ total_volume fills.
Proof.
  intros Hall. revert k. induction Hall as [|[p f] fills Hf Hall IH]; intros k.
  - rewrite take_nil, total_volume_nil. lia.
  - destruct k as [|k]; simpl in *.
    + rewrite total_volume_nil, total_volume_cons.
      specialize (IH 0%nat). rewrite take_0, total_volume_nil in IH. lia.
    + rewrite !total_volume_cons. specialize (IH k). lia.
Qed.

(** The positive and the negative part of a quantity: what the limit guard
    counts as intended buy and intended sell volume of an order. *)
Lemma total_long_cons objs r refs :
  total_long objs (r :: refs) = Z.max 0 (o_quantity (objs r)) + total_long objs refs.
Proof.
  unfold total_long. rewrite filter_cons. case_decide; csimpl; lia.
Qed.

Lemma total_short_cons objs r refs :
  total_short objs (r :: refs)
  = Z.max 0 (- o_quantity (objs r)) + total_short objs refs.
Proof.
  unfold total_short. rewrite filter_cons. case_decide; csimpl; lia.
Qed.

Lemma total_long_nonneg objs refs : 0 ≤ total_long objs refs.
Proof.
  induction refs as [|r refs IH]; [done|]. rewrite total_long_cons. lia.
Qed.

Lemma total_short_nonneg objs refs : 0 ≤ total_short objs refs.
Proof.
  induction refs as [|r refs IH]; [done|]. rewrite total_short_cons. lia.
Qed.

Lemma total_long_mono (objs objs' : store) refs :
  (∀ r, Z.max 0 (o_quantity (objs' r)) ≤ Z.max 0 (o_quantity (objs r))) →
  total_long objs' refs ≤ total_long objs refs.
Proof.
  intros H. induction refs as [|r refs IH]; [done|].
  rewrite !total_long_cons. specialize (H r). lia.
Qed.

Lemma total_short_mono (objs objs' : store) refs :
  (∀ r, Z.max 0 (- o_quantity (objs' r)) ≤ Z.max 0 (- o_quantity (objs r))) →
  total_short objs' refs ≤ total_short objs refs.
Proof.
  intros H. induction refs as [|r refs IH]; [done|].
  rewrite !total_short_cons. specialize (H r). lia.
Qed.

(** What one order does to the ledger of its symbol: it appends fills whose
    running net stays between minus the sell intent and the buy intent of
    the order, and leaves the order with no more intent than it had. *)
Lemma match_order_effect ts o st d :
  order_depths st !! o_symbol o = Some d →
  book_wf d →
  ∃ st' o' d' new,
    match_order ts o st = Ok (st', o') ∧
    o_symbol o' = o_symbol o ∧
    order_depths st' !! o_symbol o = Some d' ∧ book_wf d' ∧
    trades_of (own_trades st') (o_symbol o)
      = trades_of (own_trades st) (o_symbol o) ++ new ∧
    position_of (own_positions st') (o_symbol o)
      = position_of (own_positions st) (o_symbol o) + net new ∧
    (∀ k, - Z.max 0 (- o_quantity o) ≤ net (take k new) ≤ Z.max 0 (o_quantity o)) ∧
    Z.max 0 (o_quantity o') ≤ Z.max 0 (o_quantity o) ∧
    Z.max 0 (- o_quantity o') ≤ Z.max 0 (- o_quantity o) ∧
    (∀ s, s ≠ o_symbol o →
       order_depths st' !! s = order_depths st !! s ∧
       own_positions st' !! s = own_positions st !! s ∧
       seashells_by_product st' !! s = seashells_by_product st !! s ∧
       own_trades st' !! s = own_trades st !! s).
Proof.
  intros Hd Hwf. destruct (side_of (o_quantity o)) as [sd|] eqn:Hsd.
  - pose proof (side_of_sgn _ _ Hsd) as Hq.
    destruct (match_order_walk ts o st d sd Hd Hwf Hsd) as (st' & Hm & Hfa).
    set (fills := walk_levels (levels sd d (o_price o)) (sgn sd * o_quantity o)) in *.
    pose proof (levels_volumes sd d (o_price o) Hwf) as Hvol.
    destruct (walk_levels_bounds _ _ Hq Hvol) as [Hnn Htot]. fold fills in Hnn, Htot.
    pose proof Hfa as [(d0 & d' & Hd0 & Hd' & _ & _) Hp _ Ht Hfr].
    eexists st', _, d', (own_trade sd (o_symbol o) ts <$> fills).
    split_and!; [exact Hm | done | done | | done | | | | | done].
    + by eapply fills_applied_wf.
    + by rewrite net_own_trades.
    + intros k. rewrite <- fmap_take, net_own_trades.
      pose proof (total_volume_take fills k Hnn).
      destruct sd; simpl in *; lia.
    + simpl. destruct sd; simpl in *; lia.
    + simpl. destruct sd; simpl in *; lia.
  - assert (o_quantity o = 0) as Hz.
    { unfold side_of in Hsd. repeat case_decide; try done. lia. }
    exists st, o, d, []. rewrite app_nil_r.
    split_and!; try done.
    + by apply (match_order_zero ts o st d).
    + unfold net. simpl. lia.
    + intros k. rewrite take_nil. unfold net. simpl. lia.
Qed.

Lemma match_batch_cons ts r refs st (objs : store) :
  match_batch ts (r :: refs) (st, objs)
  = match_order ts (objs r) st
      ≫= λ so, match_batch ts refs (so.1, <[r := so.2]> objs).
Proof.
  unfold match_batch. cbn [for_each]. unfold match_ref. cbn [fst snd].
  by destruct (match_order ts (objs r) st) as [[st' o']|e].
Qed.

(** A batch whose orders all name the product [p], replayed on a
    well-formed book: the running net of its fills stays between minus the
    batch's sell intent and its buy intent, as the guard computed them. *)
Lemma match_batch_bounded ts p : ∀ refs st (objs : store) d,
  order_depths st !! p = Some d →
  book_wf d →
  (∀ r, r ∈ refs → o_symbol (objs r) = p) →
  ∃ st' (objs' : store) d' new,
    match_batch ts refs (st, objs) = Ok (st', objs') ∧
    order_depths st' !! p = Some d' ∧ book_wf d' ∧
    trades_of (own_trades st') p = trades_of (own_trades st) p ++ new ∧
    position_of (own_positions st') p = position_of (own_positions st) p + net new ∧
    (∀ k, - total_short objs refs ≤ net (take k new) ≤ total_long objs refs) ∧
    (∀ s, s ≠ p →
       order_depths st' !! s = order_depths st !! s ∧
       own_positions st' !! s = own_positions st !! s ∧
       seashells_by_product st' !! s = seashells_by_product st !! s ∧
       own_trades st' !! s = own_trades st !! s) ∧
    (∀ r, o_symbol (objs' r) = o_symbol (objs r)) ∧
    (∀ r, r ∉ refs → objs' r = objs r).
Proof.
  induction refs as [|r refs IH]; intros st objs d Hd Hwf Hsym.
  - exists st, objs, d, []. rewrite app_nil_r. split_and!; try done.
    + unfold net; simpl; lia.
    + intros k. rewrite take_nil. unfold net, total_short, total_long. simpl. lia.
  - assert (o_symbol (objs r) = p) as Hr by (apply Hsym; left).
    destruct (match_order_effect ts (objs r) st d) as
      (st1 & o' & d1 & new1 & Hm & Ho' & Hd1 & Hwf1 & Ht1 & Hp1 & Hk1 & Hl1 & Hs1 & Hfr1);
      [by rewrite Hr | done |].
    rewrite Hr in Hd1, Ht1, Hp1, Hfr1.
    set (objs1 := <[r := o']> objs : store).
    assert (∀ r', o_symbol (objs1 r') = o_symbol (objs r')) as Hsym1.
    { intros r'. unfold objs1. destruct (decide (r = r')) as [<-|Hne].
      - by rewrite fn_lookup_insert.
      - by rewrite fn_lookup_insert_ne. }
    destruct (IH st1 objs1 d1 Hd1 Hwf1) as
      (st' & objs' & d' & new2 & Hb & Hd' & Hwf' & Ht2 & Hp2 & Hk2 & Hfr2 & Hsy2 & Hout2).
    { intros r' Hr'. rewrite Hsym1. apply Hsym. by right. }
    exists st', objs', d', (new1 ++ new2).
    assert (total_long objs1 refs ≤ total_long objs refs) as HL.
    { apply total_long_mono. intros r'. unfold objs1.
      destruct (decide (r = r')) as [<-|Hne];
        [by rewrite fn_lookup_insert | by rewrite fn_lookup_insert_ne]. }
    assert (total_short objs1 refs ≤ total_short objs refs) as HS.
    { apply total_short_mono. intros r'. unfold objs1.
      destruct (decide (r = r')) as [<-|Hne];
        [by rewrite fn_lookup_insert | by rewrite fn_lookup_insert_ne]. }
    split_and!.
    + rewrite match_batch_cons, Hm. exact Hb.
    + done.
    + done.
    + rewrite Ht2, Ht1. by rewrite app_assoc.
    + rewrite Hp2, Hp1, net_app. lia.
    + intros k. rewrite take_app, net_app, total_long_cons, total_short_cons.
      specialize (Hk1 k). specialize (Hk2 (k - length new1)%nat). lia.
    + intros s Hs. destruct (Hfr1 s Hs) as (?&?&?&?), (Hfr2 s Hs) as (?&?&?&?).
      split_and!; congruence.
    + intros r'. by rewrite Hsy2, Hsym1.
    + intros r' Hr'. apply not_elem_of_cons in Hr' as [Hne Hr'].
      rewrite Hout2 by done. unfold objs1. by rewrite fn_lookup_insert_ne.
Qed.

Lemma guard_product_accepts ts positions objs orders logs p :
  guard_product ts positions objs (orders, logs) p = Ok (orders, logs) ↔
  ∃ limit, LIMITS !! p = Some limit ∧
    exceeds (position_of positions p) limit
            (total_long objs (default [] (orders !! p)))
            (total_short objs (default [] (orders !! p))) = false.
Proof.
  unfold guard_product. simpl. destruct (LIMITS !! p) as [limit|]; simpl.
  - destruct (exceeds _ _ _ _) eqn:E.
    + split.
      * destruct (orders !! p); simpl; [|done].
        intros [= _ Hlogs]. apply (f_equal length) in Hlogs.
        rewrite length_app in Hlogs. simpl in Hlogs. lia.
      * intros (l & [= <-] & Hex). congruence.
    + split; [intros _; by exists limit | done].
  - split; [done | by intros (? & ? & _)].
Qed.

(** ** The matching loop over all products *)

Lemma same_at_refl s st : same_at s st st.
Proof. by repeat split. Qed.

Lemma same_at_trans s st1 st2 st3 :
  same_at s st1 st2 → same_at s st2 st3 → same_at s st1 st3.
Proof. intros (?&?&?&?) (?&?&?&?). repeat split; congruence. Qed.

Lemma same_at_position s st st' :
  same_at s st st' →
  position_of (own_positions st') s = position_of (own_positions st) s ∧
  position_of (seashells_by_product st') s = position_of (seashells_by_product st) s ∧
  trades_of (own_trades st') s = trades_of (own_trades st) s.
Proof. intros (_ & Hp & Hc & Ht). unfold position_of, trades_of. by rewrite Hp, Hc, Ht. Qed.

Lemma total_long_ext (objs objs' : store) refs :
  (∀ r, r ∈ refs → objs' r = objs r) → total_long objs' refs = total_long objs refs.
Proof.
  induction refs as [|r refs IH]; intros H; [done|].
  rewrite !total_long_cons, IH, H; [done | left | intros; apply H; by right].
Qed.

Lemma total_short_ext (objs objs' : store) refs :
  (∀ r, r ∈ refs → objs' r = objs r) → total_short objs' refs = total_short objs refs.
Proof.
  induction refs as [|r refs IH]; intros H; [done|].
  rewrite !total_short_cons, IH, H; [done | left | intros; apply H; by right].
Qed.

Lemma match_all_cons ts accepted p ps acc :
  match_all ts accepted (p :: ps) acc
  = match_batch ts (default [] (accepted !! p)) acc ≫= match_all ts accepted ps.
Proof. reflexivity. Qed.

(** With every order filed under its own symbol, the batch of a product is
    replayed inside the loop over all products exactly as on its own: the
    other batches touch neither its ledger nor its orders. *)
Lemma match_all_local ts accepted : ∀ ps st (objs : store),
  NoDup ps →
  keyed accepted objs →
  (∀ p, p ∈ ps → ∃ d, order_depths st !! p = Some d ∧ book_wf d) →
  ∃ st' (objs' : store),
    match_all ts accepted ps (st, objs) = Ok (st', objs') ∧
    (∀ s, s ∉ ps → same_at s st st') ∧
    (∀ r, o_symbol (objs' r) = o_symbol (objs r)) ∧
    (∀ r, o_symbol (objs r) ∉ ps → objs' r = objs r) ∧
    (∀ p, p ∈ ps →
       ∃ sta (objsa : store) stb (objsb : store),
         same_at p st sta ∧
         (∀ r, o_symbol (objs r) = p → objsa r = objs r) ∧
         match_batch ts (default [] (accepted !! p)) (sta, objsa) = Ok (stb, objsb) ∧
         same_at p stb st').
Proof.
  induction ps as [|p ps IH]; intros st objs Hnd Hkey Hbooks.
  - exists st, objs. refine (conj _ (conj _ (conj _ (conj _ _)))); try done.
    intros p Hp. by apply elem_of_nil in Hp.
  - apply NoDup_cons in Hnd as [Hp Hnd].
    destruct (Hbooks p) as (d & Hd & Hwf); [left|].
    set (refs := default [] (accepted !! p)).
    assert (∀ r, r ∈ refs → o_symbol (objs r) = p) as Hrefs.
    { intros r Hr. unfold refs in Hr. destruct (accepted !! p) as [l|] eqn:E.
      - by apply (Hkey p l r).
      - by apply elem_of_nil in Hr. }
    destruct (match_batch_bounded ts p refs st objs d Hd Hwf Hrefs) as
      (st1 & objs1 & d1 & new & Hb & Hd1 & Hwf1 & _ & _ & _ & Hfr1 & Hsy1 & Hout1).
    destruct (IH st1 objs1 Hnd) as (st' & objs' & Hall & Hfr & Hsy & Hout & Hloc).
    { intros q l r Hq Hr. rewrite Hsy1. by apply (Hkey q l r). }
    { intros q Hq. assert (q ≠ p) as Hne by (intros ->; done).
      destruct (Hfr1 q Hne) as (Hdq & _). rewrite Hdq. apply Hbooks. by right. }
    exists st', objs'. split_and!.
    + rewrite match_all_cons. fold refs. rewrite Hb. exact Hall.
    + intros s Hs. apply not_elem_of_cons in Hs as [Hne Hs].
      eapply same_at_trans; [|by apply Hfr]. by apply Hfr1.
    + intros r. by rewrite Hsy, Hsy1.
    + intros r Hr. apply not_elem_of_cons in Hr as [Hne Hr].
      rewrite Hout by (by rewrite Hsy1). apply Hout1.
      intros Hin. by apply Hne, Hrefs.
    + intros q Hq. apply elem_of_cons in Hq as [->|Hq].
      * exists st, objs, st1, objs1. split_and!; [apply same_at_refl | done | done |].
        by apply Hfr.
      * assert (q ≠ p) as Hne by (intros ->; done).
        destruct (Hloc q Hq) as (sta & objsa & stb & objsb & Ha & Hoa & Hm & Hb').
        exists sta, objsa, stb, objsb. split_and!; [| | done | done].
        -- eapply same_at_trans; [|exact Ha]. by apply Hfr1.
        -- intros r Hr. rewrite Hoa by (by rewrite Hsy1). apply Hout1.
           intros Hin. apply Hne. rewrite <- Hr. by apply Hrefs.
Qed.

(** ** The limit guard *)

Lemma guard_product_unfold ts positions objs orders logs p :
  guard_product ts positions objs (orders, logs) p =
  match LIMITS !! p with
  | None => Raise KeyError
  | Some limit =>
      if rejected positions objs orders p then
        match orders !! p with
        | None => Raise KeyError
        | Some _ => Ok (delete p orders, logs ++ [rejection_row ts p])
        end
      else Ok (orders, logs)
  end.
Proof.
  unfold guard_product, rejected, rejection_row. simpl.
  destruct (LIMITS !! p) as [limit|]; simpl; [|done].
  destruct (exceeds _ _ _ _); [|done]. by destruct (orders !! p).
Qed.

Lemma rejected_delete_ne positions objs orders p q :
  q ≠ p →
  rejected positions objs (delete p orders) q = rejected positions objs orders q.
Proof. intros Hne. unfold rejected. by rewrite lookup_delete_ne. Qed.

Lemma filter_ext_elem {A} (P1 P2 : A → Prop)
    `{!∀ x, Decision (P1 x), !∀ x, Decision (P2 x)} (l : list A) :
  (∀ x, x ∈ l → P1 x ↔ P2 x) → filter P1 l = filter P2 l.
Proof.
  induction l as [|x l IH]; intros Hext; [done|].
  rewrite !filter_cons. rewrite IH by (intros y Hy; apply Hext; by right).
  destruct (decide (P1 x)) as [H1|H1], (decide (P2 x)) as [H2|H2]; try done.
  - destruct H2. apply Hext; [left | done].
  - destruct H1. apply Hext; [left | done].
Qed.

(** The guard as a whole: a product's batch is dropped exactly when the
    guard rejects it, every other entry is left as the algorithm returned
    it, and one row is logged per rejected product, in product order. *)
Lemma limit_guard_spec ts positions objs : ∀ products orders logs accepted logs',
  NoDup products →
  limit_guard ts positions objs products (orders, logs) = Ok (accepted, logs') →
  (∀ p, p ∈ products → is_Some (LIMITS !! p)) ∧
  (∀ p, accepted !! p =
        if decide (p ∈ products ∧ rejected positions objs orders p = true)
        then None else orders !! p) ∧
  logs' = logs ++ (rejection_row ts
                     <$> filter (λ p, rejected positions objs orders p = true) products).
Proof.
  induction products as [|p ps IH]; intros orders logs accepted logs' Hnd Hg.
  - injection Hg as <- <-. split_and!.
    + intros p Hp. by apply elem_of_nil in Hp.
    + intros p. rewrite decide_False; [done|]. intros [Hp _]. by apply elem_of_nil in Hp.
    + by rewrite app_nil_r.
  - apply NoDup_cons in Hnd as [Hp Hnd].
    unfold limit_guard in Hg. cbn [for_each] in Hg.
    rewrite guard_product_unfold in Hg.
    destruct (LIMITS !! p) as [limit|] eqn:Hl; [|done].
    destruct (rejected positions objs orders p) eqn:Hr.
    + destruct (orders !! p) as [refs|] eqn:Ho; [|done]. simpl in Hg.
      destruct (IH _ _ _ _ Hnd Hg) as (Hlim & Hacc & Hlogs).
      split_and!.
      * intros q Hq. apply elem_of_cons in Hq as [->|Hq]; [by rewrite Hl | by apply Hlim].
      * intros q. rewrite Hacc. destruct (decide (q = p)) as [->|Hne].
        -- rewrite decide_False by (intros [? _]; done).
           rewrite lookup_delete_eq. rewrite decide_True; [done|].
           split; [left | done].
        -- rewrite rejected_delete_ne by done. rewrite lookup_delete_ne by done.
           apply decide_ext. rewrite elem_of_cons.
           split; [intros [? ?]; split; [by right | done]
                  | intros [[?|?] ?]; [done | by split]].
      * rewrite Hlogs, filter_cons_True by done. rewrite fmap_cons, <- app_assoc.
        simpl. do 3 f_equal. apply filter_ext_elem.
        intros q Hq. rewrite rejected_delete_ne; [done|]. intros ->. done.
    + simpl in Hg. destruct (IH _ _ _ _ Hnd Hg) as (Hlim & Hacc & Hlogs).
      split_and!.
      * intros q Hq. apply elem_of_cons in Hq as [->|Hq]; [by rewrite Hl | by apply Hlim].
      * intros q. rewrite Hacc. apply decide_ext. rewrite elem_of_cons.
        split; [intros [? ?]; split; [by right | done]|].
        intros [[->|Hq] Hrq]; [congruence | done].
      * rewrite Hlogs. f_equal. f_equal. rewrite filter_cons_False; [done|].
        congruence.
Qed.

Lemma rejected_iff positions objs orders p limit :
  LIMITS !! p = Some limit →
  rejected positions objs orders p = true ↔
  position_of positions p + total_long objs (default [] (orders !! p)) > limit
  ∨ position_of positions p - total_short objs (default [] (orders !! p)) < - limit.
Proof.
  intros Hl. unfold rejected, exceeds. rewrite Hl.
  rewrite orb_true_iff, !bool_decide_eq_true. done.
Qed.

Lemma keyed_accepted ts positions objs products orders logs accepted logs' :
  NoDup products →
  limit_guard ts positions objs products (orders, logs) = Ok (accepted, logs') →
  keyed orders objs → keyed accepted objs.
Proof.
  intros Hnd Hg Hkey q refs r Hq Hr.
  destruct (limit_guard_spec _ _ _ _ _ _ _ _ Hnd Hg) as (_ & Hacc & _).
  rewrite Hacc in Hq. case_decide; [done|]. by apply (Hkey q refs r).
Qed.

(** Guard and matching of one timestamp, seen from one product: its
    accepted batch is replayed on its own ledger, and the running net of the
    fills stays within the intents the guard added up. *)
Lemma guarded_product_outcome ts products orders logs accepted logs' st (objs : store) p :
  NoDup products →
  p ∈ products →
  keyed orders objs →
  (∀ q, q ∈ products → ∃ d, order_depths st !! q = Some d ∧ book_wf d) →
  limit_guard ts (own_positions st) objs products (orders, logs) = Ok (accepted, logs') →
  ∃ st' (objs' : store),
    match_all ts accepted products (st, objs) = Ok (st', objs') ∧
    ∃ sta (objsa : store) stb (objsb : store) new,
      same_at p st sta ∧
      (∀ r, o_symbol (objs r) = p → objsa r = objs r) ∧
      match_batch ts (default [] (accepted !! p)) (sta, objsa) = Ok (stb, objsb) ∧
      same_at p stb st' ∧
      trades_of (own_trades st') p = trades_of (own_trades st) p ++ new ∧
      position_of (own_positions st') p = position_of (own_positions st) p + net new ∧
      (∀ k, - total_short objs (default [] (accepted !! p))
            ≤ net (take k new)
            ≤ total_long objs (default [] (accepted !! p))).
Proof.
  intros Hnd Hp Hkey Hbooks Hg.
  pose proof (keyed_accepted _ _ _ _ _ _ _ _ Hnd Hg Hkey) as Hkey'.
  destruct (match_all_local ts accepted products st objs Hnd Hkey' Hbooks)
    as (st' & objs' & Hall & _ & _ & _ & Hloc).
  exists st', objs'. split; [done|].
  destruct (Hloc p Hp) as (sta & objsa & stb & objsb & Ha & Hoa & Hm & Hb).
  destruct (Hbooks p Hp) as (d & Hd & Hwf).
  set (refs := default [] (accepted !! p)) in *.
  assert (∀ r, r ∈ refs → o_symbol (objs r) = p) as Hrefs.
  { intros r Hr. unfold refs in Hr. destruct (accepted !! p) as [l|] eqn:E.
    - by apply (Hkey' p l r).
    - by apply elem_of_nil in Hr. }
  destruct (match_batch_bounded ts p refs sta objsa d) as
    (stb' & objsb' & d' & new & Hm' & _ & _ & Ht & Hpos & Hk & _).
  { destruct Ha as (Hda & _). by rewrite Hda. }
  { done. }
  { intros r Hr. rewrite Hoa; by apply Hrefs. }
  rewrite Hm in Hm'. injection Hm' as <- <-.
  exists sta, objsa, stb, objsb, new.
  destruct (same_at_position _ _ _ Ha) as (Hpa & _ & Hta).
  destruct (same_at_position _ _ _ Hb) as (Hpb & _ & Htb).
  split_and!; try done.
  - by rewrite Htb, Ht, Hta.
  - by rewrite Hpb, Hpos, Hpa.
  - intros k. specialize (Hk k).
    rewrite (total_long_ext objs objsa), (total_short_ext objs objsa) in Hk; [done|..];
      intros r Hr; apply Hoa; by apply Hrefs.
Qed.

(** ** One timestamp of the replay loop *)

Lemma append_rows_spec {X} (mk : X → result ActivityLogRow) (xs : list X) :
  ∀ logs logs',
    append_rows mk xs logs = Ok logs' ↔
    ∃ rows, logs' = logs ++ rows ∧ Forall2 (λ x row, mk x = Ok row) xs rows.
Proof.
  unfold append_rows. induction xs as [|x xs IH]; intros logs logs'; simpl.
  - split.
    + intros [= <-]. exists []. by rewrite app_nil_r.
    + intros (rows & -> & H). apply Forall2_nil_inv_l in H as ->. by rewrite app_nil_r.
  - destruct (mk x) as [row|e] eqn:E; simpl.
    + rewrite IH. split.
      * intros (rows & -> & H). exists (row :: rows). rewrite <- app_assoc.
        split; [done|]. by constructor.
      * intros (rows & -> & H). apply Forall2_cons_inv_l in H as (row' & rows' & Hr & H & ->).
        rewrite E in Hr. injection Hr as <-.
        exists rows'. by rewrite <- app_assoc.
    + split; [done|]. intros (rows & _ & H).
      apply Forall2_cons_inv_l in H as (row' & rows' & Hr & _). congruence.
Qed.

Section ReplayFacts.
Context {Mem : Type}.
Variable trader_run : Trader Mem.
Variable data : DayData.

(** The phases of one iteration of the loop, made explicit. *)
Lemma step_Ok (lp lp' : Loop Mem) (ts : Z) :
  step trader_run data lp ts = Ok lp' ↔
  ∃ state mem' stdout (objs objs' : store) orders accepted submission eng act1 act2,
    build_state data ts (lp_positions lp) (lp_own_trades lp) = Ok state ∧
    trader_run (lp_mem lp) state = Ok (mem', stdout, objs, orders) ∧
    limit_guard ts (lp_positions lp) objs (elements (tradable_products data))
                (orders, submission_logs (lp_result lp)) = Ok (accepted, submission) ∧
    match_all ts accepted (elements (tradable_products data))
              (mkEngine (ts_order_depths state) (lp_positions lp)
                        (lp_seashells lp) ∅, objs) = Ok (eng, objs') ∧
    append_rows (tradable_row ts (default ∅ (prices_by_timestamp data !! ts)) eng)
                (elements (tradable_products data))
                (activity_logs (lp_result lp)) = Ok act1 ∧
    append_rows (non_tradable_row ts (default ∅ (prices_by_timestamp data !! ts)))
                (elements (non_tradable_products data)) act1 = Ok act2 ∧
    lp' = mkLoop mem' (own_positions eng) (seashells_by_product eng) (own_trades eng)
            (mkDayResult (dr_round (lp_result lp)) (dr_day (lp_result lp))
               (sandbox_logs (lp_result lp) ++ [mkSandboxLogRow ts stdout])
               submission act2).
Proof.
  unfold step. split.
  - intros H.
    apply bind_Ok in H as (state & Hs & H).
    apply bind_Ok in H as ([[[mem' stdout] objs] orders] & Ht & H).
    apply bind_Ok in H as ([accepted submission] & Hg & H).
    apply bind_Ok in H as ([eng objs'] & Hm & H).
    apply bind_Ok in H as (act1 & Ha1 & H).
    apply bind_Ok in H as (act2 & Ha2 & H).
    injection H as <-.
    by exists state, mem', stdout, objs, objs', orders, accepted, submission, eng, act1, act2.
  - intros (state & mem' & stdout & objs & objs' & orders & accepted & submission
            & eng & act1 & act2 & Hs & Ht & Hg & Hm & Ha1 & Ha2 & ->).
    rewrite Hs. simpl. rewrite Ht. simpl. rewrite Hg. simpl. rewrite Hm. simpl.
    rewrite Ha1. simpl. rewrite Ha2. done.
Qed.

End ReplayFacts.

(** ** Own trades carry the timestamp of the matching that produced them *)

Lemma for_each_invariant {S X} (body : S → X → result S) (I : S → Prop) :
  (∀ st x st', body st x = Ok st' → I st → I st') →
  ∀ xs st st', for_each body xs st = Ok st' → I st → I st'.
Proof.
  intros Hbody. induction xs as [|x xs IH]; intros st st' H HI; simpl in H.
  - by injection H as <-.
  - apply bind_Ok in H as (st1 & H1 & H). eauto.
Qed.

Lemma all_trades_empty P : all_trades P ∅.
Proof. intros s l t H. by rewrite lookup_empty in H. Qed.

Lemma all_trades_append P m s t :
  all_trades P m → P t → all_trades P (<[s := trades_of m s ++ [t]]> m).
Proof.
  intros Hm Ht s' l t' Hl Hin. destruct (decide (s = s')) as [<-|Hne].
  - rewrite lookup_insert_eq in Hl. injection Hl as <-.
    apply elem_of_app in Hin as [Hin|Hin].
    + unfold trades_of in Hin. destruct (m !! s) as [l'|] eqn:E; simpl in Hin.
      * by apply (Hm s l' t').
      * by apply elem_of_nil in Hin.
    + by apply list_elem_of_singleton in Hin as ->.
  - rewrite lookup_insert_ne in Hl by done. by apply (Hm s' l t').
Qed.

Lemma fill_stamped sd sym ts price q st st' q' :
  fill_of sd sym ts price q st = Ok (st', q') →
  all_trades (λ t, t_timestamp t = ts) (own_trades st) →
  all_trades (λ t, t_timestamp t = ts) (own_trades st').
Proof.
  intros H Hst. destruct sd; simpl in H; unfold buy_fill, sell_fill in H;
    apply bind_Ok in H as (d & _ & H); apply bind_Ok in H as (v & _ & H);
    injection H as <- _; simpl; by apply all_trades_append.
Qed.

Lemma fill_loop_stamped sd sym ts ps : ∀ q st st' q',
  fill_loop (fill_of sd sym ts) ps q st = Ok (st', q') →
  all_trades (λ t, t_timestamp t = ts) (own_trades st) →
  all_trades (λ t, t_timestamp t = ts) (own_trades st').
Proof.
  induction ps as [|p ps IH]; intros q st st' q' H Hst; simpl in H.
  - by injection H as <- _.
  - apply bind_Ok in H as ([st1 q1] & H1 & H).
    pose proof (fill_stamped _ _ _ _ _ _ _ _ H1 Hst) as Hst1.
    case_decide; [by injection H as <- _ | by eapply IH].
Qed.

Lemma match_order_stamped ts o st st' o' :
  match_order ts o st = Ok (st', o') →
  all_trades (λ t, t_timestamp t = ts) (own_trades st) →
  all_trades (λ t, t_timestamp t = ts) (own_trades st').
Proof.
  unfold match_order. intros H Hst. apply bind_Ok in H as (d & _ & H).
  destruct (decide (o_quantity o > 0)); [|destruct (decide (o_quantity o < 0))].
  - apply bind_Ok in H as ([st1 q1] & Hloop & H). injection H as <- _.
    by apply (fill_loop_stamped Buy) in Hloop.
  - apply bind_Ok in H as ([st1 q1] & Hloop & H). injection H as <- _.
    by apply (fill_loop_stamped Sell) in Hloop.
  - by injection H as <- _.
Qed.

Lemma match_all_stamped ts accepted products st (objs : store) st' (objs' : store) :
  match_all ts accepted products (st, objs) = Ok (st', objs') →
  all_trades (λ t, t_timestamp t = ts) (own_trades st) →
  all_trades (λ t, t_timestamp t = ts) (own_trades st').
Proof.
  intros H.
  apply (for_each_invariant (match_product ts accepted)
           (λ acc, all_trades (λ t, t_timestamp t = ts) (own_trades acc.1))
           ) with (xs := products) (st := (st, objs)) (st' := (st', objs')); [|done].
  intros acc p acc' Hp. unfold match_product, match_batch in Hp.
  apply (for_each_invariant (match_ref ts)
           (λ acc, all_trades (λ t, t_timestamp t = ts) (own_trades acc.1)))
    with (xs := default [] (accepted !! p)); [|done].
  intros [st1 objs1] r [st2 objs2] Hr. unfold match_ref in Hr. simpl in Hr.
  apply bind_Ok in Hr as ([st3 o3] & Hm & Hr). injection Hr as <- _.
  simpl. by apply (match_order_stamped _ _ _ _ _ Hm).
Qed.

Lemma sorted_keys {V} (m : gmap Z V) : StronglySorted Z.lt (merge_sort Z.le (keys m)).
Proof.
  apply StronglySorted_le_lt.
  - apply StronglySorted_merge_sort; apply _.
  - rewrite merge_sort_Permutation. apply NoDup_keys.
Qed.

Lemma build_state_own_trades data ts own own_tr state :
  build_state data ts own own_tr = Ok state →
  ts_own_trades state = own_tr ∧ ts_timestamp state = ts.
Proof.
  unfold build_state. intros H. apply bind_Ok in H as (d & _ & H).
  apply bind_Ok in H as (o & _ & H). by injection H as <-.
Qed.

Section OwnTrades.
Context {Mem : Type}.
Variable trader_run : Trader Mem.
Variable data : DayData.

Lemma step_stamped (lp lp' : Loop Mem) (ts : Z) :
  step trader_run data lp ts = Ok lp' →
  all_trades (λ t, t_timestamp t = ts) (lp_own_trades lp').
Proof.
  intros H. apply step_Ok in H as (state & mem' & stdout & objs & objs' & orders
    & accepted & submission & eng & act1 & act2 & _ & _ & _ & Hm & _ & _ & ->).
  simpl. apply match_all_stamped in Hm; [done|]. apply all_trades_empty.
Qed.

(** After replaying a prefix of the timestamps from a state without own
    trades, the own trades carried to the next iteration are stamped with a
    timestamp of that prefix. *)
Lemma run_prefix_stamped (pre : list Z) (lp0 lp : Loop Mem) :
  lp_own_trades lp0 = ∅ →
  for_each (step trader_run data) pre lp0 = Ok lp →
  all_trades (λ t, t_timestamp t ∈ pre) (lp_own_trades lp).
Proof.
  intros H0 Hrun. destruct pre as [|x pre _] using rev_ind.
  - injection Hrun as <-. rewrite H0. apply all_trades_empty.
  - rewrite for_each_app in Hrun. apply bind_Ok in Hrun as (lp1 & _ & Hstep).
    simpl in Hstep. apply bind_Ok in Hstep as (lp2 & Hstep & Heq).
    injection Heq as <-. apply step_stamped in Hstep.
    intros s l t Hl Hin. rewrite elem_of_app, list_elem_of_singleton. right.
    by apply (Hstep s l t).
Qed.

End OwnTrades.

(** ** Rebasing activity rows *)

Lemma add_at_Ok i d xs xs' :
  add_at i d xs = Ok xs' ↔
  ∃ x x', xs !! i = Some x ∧ vadd x d = Ok x' ∧ xs' = <[i := x']> xs.
Proof.
  unfold add_at. split.
  - intros H. apply bind_Ok in H as (x & Hx & H). apply from_option_Ok in Hx.
    apply bind_Ok in H as (x' & Hx' & H). injection H as <-. by exists x, x'.
  - intros (x & x' & Hx & Hx' & ->). rewrite Hx. simpl. by rewrite Hx'.
Qed.

(** [with_offset] touches the column at index 1 and the last column only. *)
Lemma activity_with_offset_frame row off d row' :
  activity_with_offset row off d = Ok row' →
  length (columns row') = length (columns row) ∧
  ∀ j, j ≠ 1%nat → j ≠ (length (columns row) - 1)%nat →
       columns row' !! j = columns row !! j.
Proof.
  unfold activity_with_offset. intros H.
  apply bind_Ok in H as (c1 & H1 & H). apply bind_Ok in H as (c2 & H2 & H).
  injection H as <-. simpl.
  apply add_at_Ok in H1 as (x & x' & _ & _ & ->).
  apply add_at_Ok in H2 as (y & y' & _ & _ & ->).
  rewrite !length_insert. split; [done|]. intros j Hj1 Hj2.
  by rewrite !list_lookup_insert_ne.
Qed.

Lemma vadd_number x d :
  is_number x → is_number d → ∃ x', vadd x d = Ok x' ∧ is_number x'.
Proof. destruct x, d; simpl; try done; intros _ _; by eexists. Qed.

(** On a row of the shape the replay loop writes, [with_offset] succeeds:
    it adds the offset to the timestamp and the P&L offset to the P&L. *)
Lemma activity_with_offset_wf row off d :
  activity_row_wf row → is_number d →
  ∃ row' ts pnl pnl',
    activity_with_offset row off d = Ok row' ∧
    columns row !! 1%nat = Some (VInt ts) ∧
    columns row !! 16%nat = Some (VFloat pnl) ∧
    vadd (VFloat pnl) d = Ok pnl' ∧
    columns row' !! 1%nat = Some (VInt (ts + off)) ∧
    columns row' !! 16%nat = Some pnl' ∧
    last (columns row') = Some pnl'.
Proof.
  intros [Hlen (ts & Hts) _ (pnl & Hpnl)] Hd.
  destruct (vadd_number (VFloat pnl) d I Hd) as (pnl' & Hadd & _).
  exists (mkActivityLogRow (<[16%nat := pnl']> (<[1%nat := VInt (ts + off)]> (columns row)))),
    ts, pnl, pnl'.
  split_and!; try done.
  - unfold activity_with_offset, add_at. rewrite Hts. simpl.
    rewrite length_insert, Hlen. simpl.
    rewrite list_lookup_insert_ne by done. rewrite Hpnl.
    simpl in Hadd |- *. by rewrite Hadd.
  - simpl. rewrite list_lookup_insert_ne by done.
    apply list_lookup_insert_eq. rewrite Hlen. lia.
  - simpl. apply list_lookup_insert_eq. rewrite length_insert, Hlen. lia.
  - simpl. rewrite last_lookup, !length_insert, Hlen. simpl.
    apply list_lookup_insert_eq. rewrite length_insert, Hlen. lia.
Qed.

Lemma rebase_fold off offsets rows : ∀ acc out,
  for_each (rebase_activity off offsets) rows acc = Ok out ↔
  ∃ rebased, out = acc ++ rebased ∧
             Forall2 (λ row row', rebase_row off offsets row = Ok row') rows rebased.
Proof.
  induction rows as [|row rows IH]; intros acc out; simpl.
  - split.
    + intros [= <-]. exists []. by rewrite app_nil_r.
    + intros (rebased & -> & H). apply Forall2_nil_inv_l in H as ->.
      by rewrite app_nil_r.
  - assert (rebase_activity off offsets acc row
            = rebase_row off offsets row ≫= λ row', Ok (acc ++ [row'])) as ->.
    { unfold rebase_activity, rebase_row.
      destruct (from_option IndexError (columns row !! 2%nat)); simpl; [|done].
      by destruct (activity_with_offset _ _ _). }
    destruct (rebase_row off offsets row) as [row'|e] eqn:E; simpl.
    + rewrite IH. split.
      * intros (rebased & -> & H). exists (row' :: rebased).
        rewrite <- app_assoc. split; [done|]. by constructor.
      * intros (rebased & -> & H).
        apply Forall2_cons_inv_l in H as (r' & rebased' & Hr & H & ->).
        rewrite E in Hr. injection Hr as <-.
        exists rebased'. by rewrite <- app_assoc.
    + split; [done|]. intros (rebased & _ & H).
      apply Forall2_cons_inv_l in H as (r' & rebased' & Hr & _). congruence.
Qed.

(** The result of a merge, phase by phase. *)
Lemma merge_results_Ok a b flag m :
  merge_results a b flag = Ok m ↔
  ∃ T offsets rebased,
    final_timestamp a = Some T ∧
    collect_offsets T flag (reverse (activity_logs a)) [] = Ok offsets ∧
    Forall2 (λ row row', rebase_row (T + 100) offsets row = Ok row')
            (activity_logs b) rebased ∧
    m = mkDayResult (dr_round a) (dr_day a)
          (sandbox_logs a
             ++ ((λ row, sandbox_with_offset row (T + 100)) <$> sandbox_logs b))
          (submission_logs a
             ++ ((λ row, submission_with_offset row (T + 100)) <$> submission_logs b))
          (activity_logs a ++ rebased).
Proof.
  unfold merge_results, final_timestamp. split.
  - intros H. apply bind_Ok in H as (last_row & Hlast & H).
    apply from_option_Ok in Hlast.
    apply bind_Ok in H as (offsets & Hoff & H).
    apply bind_Ok in H as (out & Hout & H). injection H as <-.
    apply rebase_fold in Hout as (rebased & -> & Hreb).
    exists (sb_timestamp last_row), offsets, rebased. rewrite Hlast. by split_and!.
  - intros (T & offsets & rebased & HT & Hoff & Hreb & ->).
    destruct (last (sandbox_logs a)) as [last_row|]; [|done].
    injection HT as <-. simpl. rewrite Hoff. simpl.
    assert (for_each (rebase_activity (sb_timestamp last_row + 100) offsets)
              (activity_logs b) [] = Ok rebased) as ->; [|done].
    apply rebase_fold. by exists rebased.
Qed.

(** ** The P&L offsets taken from the earlier session *)

Lemma wf_last row :
  activity_row_wf row → last (columns row) = columns row !! 16%nat.
Proof. intros [Hlen _ _ _]. by rewrite last_lookup, Hlen. Qed.

Lemma collect_offsets_block T flag final : ∀ rest offs,
  Forall (λ row, activity_row_wf row ∧ columns row !! 1%nat = Some (VInt T)) final →
  collect_offsets T flag (reverse final ++ rest) offs
  = collect_offsets T flag rest ((offset_binding flag <$> final) ++ offs).
Proof.
  induction final as [|f final IH] using rev_ind; intros rest offs Hall; [done|].
  apply Forall_app in Hall as [Hall Hf].
  apply Forall_singleton in Hf as [Hwf Hts].
  rewrite reverse_app, reverse_singleton. cbn [app collect_offsets].
  unfold row_timestamp. rewrite Hts. cbn [from_option mbind result_bind py_eqb].
  rewrite bool_decide_eq_true_2 by done. cbn [negb].
  destruct Hwf as [Hlen _ (p & Hp) (pnl & Hpnl)].
  rewrite Hp. cbn [from_option mbind result_bind].
  assert (last (columns f) = Some (VFloat pnl)) as Hlast
    by (by rewrite last_lookup, Hlen).
  assert ((if flag then from_option IndexError (last (columns f)) else Ok (VInt 0))
          = Ok (offset_binding flag f).2) as ->.
  { unfold offset_binding. rewrite Hlast. by destruct flag. }
  cbn [mbind result_bind]. rewrite IH by done.
  rewrite fmap_app, <- app_assoc. do 2 f_equal. simpl. f_equal.
  unfold offset_binding. by rewrite Hp.
Qed.

Lemma collect_offsets_stop T flag rows offs :
  Forall (λ row, ∃ ts, columns row !! 1%nat = Some (VInt ts) ∧ ts ≠ T) rows →
  collect_offsets T flag (reverse rows) offs = Ok offs.
Proof.
  destruct rows as [|r rows _] using rev_ind; [done|]. intros Hall.
  apply Forall_app in Hall as [_ Hr]. apply Forall_singleton in Hr as (ts & Hts & Hne).
  rewrite reverse_app, reverse_singleton. cbn [app collect_offsets].
  unfold row_timestamp. rewrite Hts. cbn [from_option mbind result_bind py_eqb].
  by rewrite bool_decide_eq_false_2.
Qed.

Lemma offset_of_bindings flag final p :
  Forall activity_row_wf final →
  offset_of (offset_binding flag <$> final) (VStr p)
  = match final_row final p with
    | Some ra => if flag then default (VFloat 0) (last (columns ra)) else VInt 0
    | None => VFloat 0
    end.
Proof.
  unfold final_row. induction 1 as [|row final Hwf Hall IH]; [done|].
  destruct Hwf as [_ _ (q & Hq) _].
  assert (names_product p row = bool_decide (q = p)) as Hnp
    by (unfold names_product; by rewrite Hq).
  rewrite fmap_cons, filter_cons. cbn [offset_of].
  unfold offset_binding at 1. rewrite Hq.
  change (py_eqb (default (VStr EmptyString) (Some (VStr q))) (VStr p))
    with (bool_decide (q = p)).
  destruct (decide (names_product p row = true)) as [Hp|Hp]; rewrite Hnp in Hp.
  - by rewrite Hp.
  - apply not_true_is_false in Hp. rewrite Hp. exact IH.
Qed.

Lemma offsets_numbers flag final key :
  Forall activity_row_wf final →
  is_number (offset_of (offset_binding flag <$> final) key).
Proof.
  induction 1 as [|row final Hwf Hall IH]; [done|].
  rewrite fmap_cons. cbn [offset_of].
  destruct (offset_binding flag row) as [k v] eqn:E.
  destruct (py_eqb k key); [|done].
  unfold offset_binding in E. injection E as _ <-. destruct flag; [|done].
  rewrite (wf_last _ Hwf). destruct Hwf as [_ _ _ (pnl & ->)]. done.
Qed.

(** ** Matching one order (claims C3 and C4) *)

Lemma order_matching sd ts o st d :
  order_depths st !! o_symbol o = Some d →
  book_wf d →
  side_of (o_quantity o) = Some sd →
  order_matching_spec sd ts o st d.
Proof.
  intros Hd Hwf Hsd. pose proof (side_of_sgn _ _ Hsd) as Hq.
  pose proof (levels_volumes sd d (o_price o) Hwf) as Hvol.
  unfold order_matching_spec. split_and!.
  - rewrite levels_prices. apply matches_sorted.
  - intros p v. rewrite elem_of_levels. split.
    + intros [(s & Hs & ->) Hl]. split; [|done]. rewrite Hs. f_equal.
      unfold resting. destruct sd; simpl; lia.
    + intros [Hs Hl]. split; [|done]. eexists. split; [exact Hs|].
      unfold resting. destruct sd; simpl; lia.
  - apply walk_levels_prices.
  - intros i p f. apply walk_levels_fill.
  - by apply walk_levels_stops.
  - destruct (match_order_walk ts o st d sd Hd Hwf Hsd) as (st' & Hm & Hfa).
    destruct Hfa as [(d0 & d' & Hd0 & Hd' & Hb & Hf) Hp Hc Ht _].
    assert (d0 = d) as -> by congruence.
    exists st', d'. by split_and!.
  - intros Hnone.
    assert (matches sd d (o_price o) = []) as Hnil.
    { destruct (matches sd d (o_price o)) as [|p ps] eqn:E; [done|].
      assert (p ∈ matches sd d (o_price o)) as Hp by (rewrite E; left).
      apply elem_of_matches in Hp as [Hs Hl]. by destruct (Hnone p Hs). }
    unfold match_order. rewrite Hd. simpl.
    apply side_of_Some in Hsd as [[-> Hpos]|[-> Hneg]]; simpl in *.
    + rewrite decide_True by done. rewrite Hnil. simpl. by destruct o.
    + rewrite decide_False by lia. rewrite decide_True by done.
      rewrite Hnil. simpl. by destruct o.
Qed.

(** C3.  A buy order (positive quantity) on a well-formed book visits only
    the ask levels priced at most its limit price, in ascending price order;
    each fill is the minimum of the remaining quantity and the level's
    resting volume; position grows by the fills and cash shrinks by price
    times fill; a filled level shrinks by the fill and disappears exactly
    when nothing is left; matching stops when the quantity is exhausted or
    the levels are; the bid half of the book is untouched, so no remainder
    rests in it.  With every ask above the limit price nothing changes. *)
Theorem buy_order_matching (ts : Z) (o : Order) (st : Engine) (d : OrderDepth) :
  order_depths st !! o_symbol o = Some d →
  book_wf d →
  o_quantity o > 0 →
  let sym := o_symbol o in
  let lvls := levels Buy d (o_price o) in
  let fills := walk_levels lvls (o_quantity o) in
  StronglySorted Z.lt (lvls.*1) ∧
  (∀ p v, (p, v) ∈ lvls ↔ sell_orders d !! p = Some (- v) ∧ p ≤ o_price o) ∧
  fills.*1 `prefix_of` lvls.*1 ∧
  (∀ i p f, fills !! i = Some (p, f) →
     ∃ v, lvls !! i = Some (p, v) ∧
          f = Z.min (o_quantity o - total_volume (take i fills)) v) ∧
  (total_volume fills = o_quantity o ∨ fills.*1 = lvls.*1) ∧
  (∃ st' d',
     match_order ts o st
       = Ok (st', mkOrder sym (o_price o) (o_quantity o - total_volume fills)) ∧
     order_depths st' !! sym = Some d' ∧
     position_of (own_positions st') sym
       = position_of (own_positions st) sym + total_volume fills ∧
     position_of (seashells_by_product st') sym
       = position_of (seashells_by_product st) sym - total_value fills ∧
     trades_of (own_trades st') sym
       = trades_of (own_trades st) sym
           ++ ((λ pf, mkTrade sym (VInt pf.1) pf.2 SUBMISSION EmptyString ts) <$> fills) ∧
     buy_orders d' = buy_orders d ∧
     (∀ p, sell_orders d' !! p =
           match fill_at fills p, sell_orders d !! p with
           | Some f, Some v => if decide (- v - f = 0) then None else Some (v + f)
           | Some f, None => None
           | None, stored => stored
           end)) ∧
  ((∀ p, is_Some (sell_orders d !! p) → o_price o < p) →
     match_order ts o st = Ok (st, o)).
Proof.
  intros Hd Hwf Hq sym lvls fills.
  assert (side_of (o_quantity o) = Some Buy) as Hsd by (apply side_of_Some; by left).
  pose proof (order_matching Buy ts o st d Hd Hwf Hsd) as H.
  unfold order_matching_spec in H. cbn [sgn visit_order within_limit facing behind] in H.
  rewrite !Z.mul_1_l in H. fold sym lvls fills in H.
  destruct H as (H1 & H2 & H3 & H4 & H5 & (st' & d' & H6 & H7 & H8 & H9 & H10 & H11 & H12) & H13).
  refine (conj H1 (conj _ (conj H3 (conj H4 (conj H5 (conj _ _)))))).
  - intros p v. rewrite H2. by replace (- (1) * v) with (- v) by lia.
  - exists st', d'.
    refine (conj H6 (conj H7 (conj _ (conj _ (conj H10 (conj H11 _)))))).
    + rewrite H8. lia.
    + rewrite H9. lia.
    + intros p. rewrite H12. unfold level_after, resting. simpl.
      destruct (fill_at fills p) as [f|]; [|done].
      destruct (sell_orders d !! p) as [v|]; [|done].
      repeat case_decide; try lia; try done. f_equal. lia.
  - intros Hnone. apply H13. intros p Hp. specialize (Hnone p Hp). lia.
Qed.

(** C4.  A sell order (negative quantity) on a well-formed book visits only
    the bid levels priced at least its limit price, in descending price
    order, the highest first and none skipped while quantity remains; each
    fill raises cash by price times fill and lowers the position by the
    fill. *)
Theorem sell_order_matching (ts : Z) (o : Order) (st : Engine) (d : OrderDepth) :
  order_depths st !! o_symbol o = Some d →
  book_wf d →
  o_quantity o < 0 →
  let sym := o_symbol o in
  let lvls := levels Sell d (o_price o) in
  let fills := walk_levels lvls (- o_quantity o) in
  StronglySorted (flip Z.lt) (lvls.*1) ∧
  (∀ p v, (p, v) ∈ lvls ↔ buy_orders d !! p = Some v ∧ o_price o ≤ p) ∧
  fills.*1 `prefix_of` lvls.*1 ∧
  (∀ i p f, fills !! i = Some (p, f) →
     ∃ v, lvls !! i = Some (p, v) ∧
          f = Z.min (- o_quantity o - total_volume (take i fills)) v) ∧
  (total_volume fills = - o_quantity o ∨ fills.*1 = lvls.*1) ∧
  (∃ st' d',
     match_order ts o st
       = Ok (st', mkOrder sym (o_price o) (o_quantity o + total_volume fills)) ∧
     order_depths st' !! sym = Some d' ∧
     position_of (own_positions st') sym
       = position_of (own_positions st) sym - total_volume fills ∧
     position_of (seashells_by_product st') sym
       = position_of (seashells_by_product st) sym + total_value fills ∧
     trades_of (own_trades st') sym
       = trades_of (own_trades st) sym
           ++ ((λ pf, mkTrade sym (VInt pf.1) pf.2 EmptyString SUBMISSION ts) <$> fills) ∧
     sell_orders d' = sell_orders d ∧
     (∀ p, buy_orders d' !! p =
           match fill_at fills p, buy_orders d !! p with
           | Some f, Some v => if decide (v - f = 0) then None else Some (v - f)
           | Some f, None => None
           | None, stored => stored
           end)).
Proof.
  intros Hd Hwf Hq sym lvls fills.
  assert (side_of (o_quantity o) = Some Sell) as Hsd by (apply side_of_Some; by right).
  pose proof (order_matching Sell ts o st d Hd Hwf Hsd) as H.
  unfold order_matching_spec in H. cbn [sgn visit_order within_limit facing behind] in H.
  replace (-1 * o_quantity o) with (- o_quantity o) in H by lia.
  fold sym lvls fills in H.
  destruct H as (H1 & H2 & H3 & H4 & H5 & (st' & d' & H6 & H7 & H8 & H9 & H10 & H11 & H12) & _).
  refine (conj H1 (conj _ (conj H3 (conj H4 (conj H5 _))))).
  - intros p v. rewrite H2. by replace (- (-1) * v) with v by lia.
  - exists st', d'.
    refine (conj _ (conj H7 (conj _ (conj _ (conj H10 (conj H11 _)))))).
    + rewrite H6. do 3 f_equal. lia.
    + rewrite H8. lia.
    + rewrite H9. lia.
    + intros p. rewrite H12. unfold level_after, resting. simpl.
      destruct (fill_at fills p) as [f|]; [|done].
      destruct (buy_orders d !! p) as [v|]; [|done].
      repeat case_decide; try lia; try done. f_equal. lia.
Qed.

Lemma sample_book_wf : book_wf sample_book.
Proof. split; apply (bool_decide_unpack _); vm_compute; exact I. Qed.

Lemma buy_order_matching_witness :
  ∃ st', match_order 0 (mkOrder PEARLS 13 8) sample_engine
         = Ok (st', mkOrder PEARLS 13 0)
         ∧ position_of (own_positions st') PEARLS = 8
         ∧ position_of (seashells_by_product st') PEARLS = -99.
Proof.
  destruct (buy_order_matching 0 (mkOrder PEARLS 13 8) sample_engine sample_book)
    as (_ & _ & _ & _ & _ & (st' & d' & Hm & _ & Hp & Hc & _) & _).
  - reflexivity.
  - exact sample_book_wf.
  - simpl. lia.
  - exists st'. split; [exact Hm | split; [exact Hp | exact Hc]].
Defined.

Lemma sell_order_matching_witness :
  ∃ st', match_order 0 (mkOrder PEARLS 9 (-7)) sample_engine
         = Ok (st', mkOrder PEARLS 9 0)
         ∧ position_of (own_positions st') PEARLS = -7
         ∧ position_of (seashells_by_product st') PEARLS = 68.
Proof.
  destruct (sell_order_matching 0 (mkOrder PEARLS 9 (-7)) sample_engine sample_book)
    as (_ & _ & _ & _ & _ & (st' & d' & Hm & _ & Hp & Hc & _)).
  - reflexivity.
  - exact sample_book_wf.
  - simpl. lia.
  - exists st'. split; [exact Hm | split; [exact Hp | exact Hc]].
Defined.

(** ** The limit guard and the position invariant (claims C1 and C2) *)













(** ** Mark-to-market accounting (claim C5) *)

Lemma mark_to_market_unrealized cash position price pnl :
  mark_to_market cash position price = Ok pnl ↔
  ∃ value, unrealized position price = Some value ∧ pnl = cash + value.
Proof.
  unfold mark_to_market, unrealized, best_ask, best_bid.
  repeat case_decide.
  - destruct (ask_prices price !! 0%nat) as [ask|]; simpl.
    + split; [intros [= <-]; by eexists | intros (v & [= <-] & ->); done].
    + split; [done | by intros (v & ? & _)].
  - destruct (bid_prices price !! 0%nat) as [bid|]; simpl.
    + split; [intros [= <-]; by eexists | intros (v & [= <-] & ->); done].
    + split; [done | by intros (v & ? & _)].
  - split; [intros [= <-]; exists 0; split; [done | lia]
           | intros (v & [= <-] & ->); f_equal; lia].
Qed.

Section Accounting.
Context {Mem : Type}.
Variable trader_run : Trader Mem.
Variable data : DayData.

(** C5.  At a timestamp the loop completes, the activity row written for
    the i-th tradable product carries the timestamp and the product, and
    its last column, the P&L, is the product's cumulative cash after the
    matching of this timestamp plus the conservative unrealized value of
    its position: position times the first ask of the price row when short,
    position times the first bid when long, zero when flat. *)
Theorem activity_row_profit_and_loss (lp lp' : Loop Mem) (ts : Z) (i : nat) (p : string) :
  step trader_run data lp ts = Ok lp' →
  elements (tradable_products data) !! i = Some p →
  ∃ row price value,
    activity_logs (lp_result lp') !! (length (activity_logs (lp_result lp)) + i)%nat
      = Some row ∧
    default ∅ (prices_by_timestamp data !! ts) !! p = Some price ∧
    columns row !! 1%nat = Some (VInt ts) ∧
    columns row !! 2%nat = Some (VStr p) ∧
    unrealized (position_of (lp_positions lp') p) price = Some value ∧
    last (columns row)
      = Some (VFloat (inject_Z (position_of (lp_seashells lp') p + value))).
Proof.
  intros Hstep Hi.
  apply step_Ok in Hstep as (state & mem' & stdout & objs & objs' & orders & accepted
    & submission & eng & act1 & act2 & _ & _ & _ & _ & Ha1 & Ha2 & ->).
  apply append_rows_spec in Ha1 as (rows1 & -> & Hrows1).
  apply append_rows_spec in Ha2 as (rows2 & -> & _).
  destruct (Forall2_lookup_l _ _ _ _ _ Hrows1 Hi) as (row & Hrow & Hmk).
  unfold tradable_row in Hmk.
  apply bind_Ok in Hmk as (price & Hprice & Hmk).
  apply from_option_Ok in Hprice.
  apply bind_Ok in Hmk as (pnl & Hpnl & Hmk).
  apply mark_to_market_unrealized in Hpnl as (value & Hval & ->).
  exists row, price, value. split.
  { simpl. apply lookup_lt_Some in Hrow as Hlt.
    rewrite lookup_app_l by (rewrite length_app; lia).
    rewrite lookup_app_r by lia. rewrite <- Hrow. f_equal. lia. }
  injection Hmk as <-. simpl. by split_and!.
Qed.

End Accounting.

(** The scenario of the specification: 5 units bought at 10 at the first
    timestamp, best bid 12 at the second; the P&L written at the second
    timestamp is -50 + 5 * 12 = 10. *)
Lemma activity_row_profit_and_loss_witness :
  ∃ lp' row,
    step sample_trader sample_data sample_after_buy 100 = Ok lp' ∧
    position_of (lp_seashells lp') PEARLS = -50 ∧
    position_of (lp_positions lp') PEARLS = 5 ∧
    activity_logs (lp_result lp') !! 1%nat = Some row ∧
    last (columns row) = Some (VFloat (inject_Z 10)).
Proof.
  destruct (step sample_trader sample_data sample_after_buy 100) as [lp'|e] eqn:Hstep;
    [|vm_compute in Hstep; discriminate].
  destruct (activity_row_profit_and_loss sample_trader sample_data
              sample_after_buy lp' 100 0 PEARLS Hstep)
    as (row & price & value & Hrow & Hprice & _ & _ & Hval & Hlast).
  - vm_compute. reflexivity.
  - exists lp', row. vm_compute in Hstep. injection Hstep as <-.
    vm_compute in Hprice. injection Hprice as <-.
    vm_compute in Hval. injection Hval as <-.
    split_and!; [reflexivity | reflexivity | reflexivity | exact Hrow | exact Hlast].
Defined.

Example two_trade_scenario :
  (λ r, last (columns r)) <$> last (activity_logs (lp_result sample_after_buy))
    = Some (Some (VFloat (inject_Z (-50 + 5 * 9)))) ∧
  (r ← from_option IndexError
         (match run_backtest sample_trader sample_data 1 0 tt with
          | Ok res => last (activity_logs res)
          | Raise _ => None
          end);
   from_option IndexError (last (columns r)))
    = Ok (VFloat (inject_Z (-50 + 5 * 12))).
Proof. split; vm_compute; reflexivity. Qed.

(** ** Own trades become visible one timestamp later (claim C9) *)

Section Visibility.
Context {Mem : Type}.
Variable trader_run : Trader Mem.
Variable data : DayData.

(** The state handed to the algorithm at a timestamp of the run only holds
    own trades stamped with a strictly earlier timestamp. *)
Lemma state_holds_older_trades (pre post : list Z) (T : Z) (lp0 lp : Loop Mem)
    (state : TradingState) :
  timestamps data = pre ++ T :: post →
  lp_own_trades lp0 = ∅ →
  for_each (step trader_run data) pre lp0 = Ok lp →
  build_state data T (lp_positions lp) (lp_own_trades lp) = Ok state →
  all_trades (λ t, t_timestamp t < T) (ts_own_trades state).
Proof.
  intros Hts H0 Hrun Hstate.
  apply build_state_own_trades in Hstate as [-> _].
  pose proof (run_prefix_stamped trader_run data pre lp0 lp H0 Hrun) as Hpre.
  pose proof (sorted_keys (prices_by_timestamp data)) as Hsorted.
  fold (timestamps data) in Hsorted. rewrite Hts in Hsorted.
  intros s l t Hl Hin. specialize (Hpre s l t Hl Hin). simpl in Hpre.
  eapply (StronglySorted_app_1_elem_of Z.lt); [exact Hsorted | exact Hpre | left].
Qed.

(** C9.  In a run over the ascending timestamps, let T and T' be
    consecutive.  The own trades in the state handed to the algorithm at T'
    are exactly the own trades the matching loop produced at T (the trade
    map of the engine after matching, started empty), all stamped T; the
    state handed over at T, and at any earlier timestamp T0, only holds
    trades stamped before T (before T0), so none of those produced at T. *)
Theorem own_trades_visible_next_timestamp (round day : Z) (mem : Mem)
    (pre post : list Z) (T T' : Z) (lp lp' : Loop Mem) (state state' : TradingState) :
  timestamps data = pre ++ T :: T' :: post →
  for_each (step trader_run data) pre
           (mkLoop mem ∅ ∅ ∅ (mkDayResult round day [] [] [])) = Ok lp →
  build_state data T (lp_positions lp) (lp_own_trades lp) = Ok state →
  step trader_run data lp T = Ok lp' →
  build_state data T' (lp_positions lp') (lp_own_trades lp') = Ok state' →
  (∃ mem' stdout (objs objs' : store) orders accepted submission eng,
     trader_run (lp_mem lp) state = Ok (mem', stdout, objs, orders) ∧
     limit_guard T (lp_positions lp) objs (elements (tradable_products data))
                 (orders, submission_logs (lp_result lp)) = Ok (accepted, submission) ∧
     match_all T accepted (elements (tradable_products data))
               (mkEngine (ts_order_depths state) (lp_positions lp)
                         (lp_seashells lp) ∅, objs) = Ok (eng, objs') ∧
     ts_own_trades state' = own_trades eng) ∧
  all_trades (λ t, t_timestamp t = T) (ts_own_trades state') ∧
  all_trades (λ t, t_timestamp t < T) (ts_own_trades state) ∧
  (∀ pre1 pre2 T0 lp0 state0,
     pre = pre1 ++ T0 :: pre2 →
     for_each (step trader_run data) pre1
              (mkLoop mem ∅ ∅ ∅ (mkDayResult round day [] [] [])) = Ok lp0 →
     build_state data T0 (lp_positions lp0) (lp_own_trades lp0) = Ok state0 →
     T0 < T ∧ all_trades (λ t, t_timestamp t < T0) (ts_own_trades state0)).
Proof.
  intros Hts Hrun Hstate Hstep Hstate'.
  pose proof (step_stamped _ _ _ _ _ Hstep) as Hstamped.
  apply build_state_own_trades in Hstate' as [Hown' _].
  split_and!.
  - apply step_Ok in Hstep as (state1 & mem' & stdout & objs & objs' & orders
      & accepted & submission & eng & act1 & act2 & Hs & Ht & Hg & Hm & _ & _ & ->).
    rewrite Hstate in Hs. injection Hs as <-.
    exists mem', stdout, objs, objs', orders, accepted, submission, eng.
    by split_and!.
  - by rewrite Hown'.
  - exact (state_holds_older_trades pre (T' :: post) T
             (mkLoop mem ∅ ∅ ∅ (mkDayResult round day [] [] [])) lp state
             Hts eq_refl Hrun Hstate).
  - intros pre1 pre2 T0 lp0 state0 -> Hrun0 Hstate0.
    rewrite <- app_assoc in Hts. simpl in Hts. split.
    + pose proof (sorted_keys (prices_by_timestamp data)) as Hsorted.
      fold (timestamps data) in Hsorted. rewrite Hts in Hsorted.
      apply StronglySorted_app_1_r, StronglySorted_cons in Hsorted as [Hall _].
      rewrite Forall_forall in Hall. apply Hall.
      rewrite elem_of_app. right. left.
    + exact (state_holds_older_trades pre1 (pre2 ++ T :: T' :: post) T0
               (mkLoop mem ∅ ∅ ∅ (mkDayResult round day [] [] [])) lp0 state0
               Hts eq_refl Hrun0 Hstate0).
Qed.

End Visibility.

Lemma own_trades_visible_next_timestamp_witness :
  ∃ state',
    build_state sample_data 100 (lp_positions sample_after_buy)
                (lp_own_trades sample_after_buy) = Ok state' ∧
    all_trades (λ t, t_timestamp t = 0) (ts_own_trades state') ∧
    trades_of (ts_own_trades state') PEARLS
      = [mkTrade PEARLS (VInt 10) 5 SUBMISSION EmptyString 0].
Proof.
  destruct (build_state sample_data 0 (lp_positions sample_start)
              (lp_own_trades sample_start)) as [state|e] eqn:Hstate;
    [|vm_compute in Hstate; discriminate].
  destruct (build_state sample_data 100 (lp_positions sample_after_buy)
              (lp_own_trades sample_after_buy)) as [state'|e] eqn:Hstate';
    [|vm_compute in Hstate'; discriminate].
  destruct (own_trades_visible_next_timestamp sample_trader sample_data 1 0 tt
              [] [] 0 100 sample_start sample_after_buy state state')
    as (_ & Hstamped & _).
  - vm_compute. reflexivity.
  - reflexivity.
  - exact Hstate.
  - vm_compute. reflexivity.
  - exact Hstate'.
  - exists state'. split; [reflexivity|]. split; [exact Hstamped|].
    vm_compute in Hstate'. injection Hstate' as <-. vm_compute. reflexivity.
Defined.

(** ** Tradable and observation-only products (claim C8) *)

Lemma elem_of_tradable_products data p :
  p ∈ tradable_products data ↔
  ∃ row, row ∈ prices data ∧ product row = p ∧ bid_prices row ≠ [].
Proof.
  unfold tradable_products. rewrite elem_of_list_to_set, list_elem_of_fmap.
  split.
  - intros (row & -> & Hrow). apply list_elem_of_filter in Hrow as [Hlen Hrow].
    exists row. split_and!; [done | done |]. intros E. rewrite E in Hlen. simpl in Hlen. lia.
  - intros (row & Hrow & <- & Hne). exists row. split; [done|].
    apply list_elem_of_filter. split; [|done].
    destruct (bid_prices row); [done | simpl; lia].
Qed.

Lemma elem_of_non_tradable_products data p :
  p ∈ non_tradable_products data ↔
  ∃ row, row ∈ prices data ∧ product row = p ∧ bid_prices row = [].
Proof.
  unfold non_tradable_products. rewrite elem_of_list_to_set, list_elem_of_fmap.
  split.
  - intros (row & -> & Hrow). apply list_elem_of_filter in Hrow as [Hlen Hrow].
    exists row. split_and!; [done | done |]. by apply length_zero_iff_nil.
  - intros (row & Hrow & <- & Hnil). exists row. split; [done|].
    apply list_elem_of_filter. split; [|done]. by rewrite Hnil.
Qed.

Lemma observations_fold (rows : gmap string PriceRow) :
  ∀ (products : list string) (acc obs : gmap string Z),
    for_each (λ (obs : gmap string Z) (p : string),
                row ← from_option KeyError (rows !! p);
                Ok (<[p := int_of_float (mid_price row)]> obs)) products acc = Ok obs →
    ∀ p, obs !! p = if decide (p ∈ products)
                    then (λ row, int_of_float (mid_price row)) <$> rows !! p
                    else acc !! p.
Proof.
  induction products as [|q products IH]; intros acc obs H p.
  - injection H as <-. rewrite decide_False; [done|]. apply not_elem_of_nil.
  - simpl in H. apply bind_Ok in H as (acc1 & H1 & H).
    apply bind_Ok in H1 as (row & Hrow & H1). apply from_option_Ok in Hrow.
    injection H1 as <-. rewrite (IH _ _ H p).
    destruct (decide (p ∈ products)) as [Hin|Hnin].
    + rewrite decide_True; [done | by right].
    + destruct (decide (p = q)) as [->|Hne].
      * rewrite decide_True by left. by rewrite lookup_insert_eq, Hrow.
      * rewrite decide_False by (by apply not_elem_of_cons).
        by rewrite lookup_insert_ne.
Qed.

(** The observation handed to the algorithm for an observation-only product
    is the integer part of the mid price of its row at that timestamp. *)
Lemma build_state_observation data ts own own_tr state p :
  build_state data ts own own_tr = Ok state →
  p ∈ non_tradable_products data →
  ∃ row, default ∅ (prices_by_timestamp data !! ts) !! p = Some row ∧
         ts_observations state !! p = Some (int_of_float (mid_price row)).
Proof.
  unfold build_state, build_observations. intros H Hp.
  apply bind_Ok in H as (depths & _ & H). apply bind_Ok in H as (obs & Hobs & H).
  injection H as <-. simpl.
  pose proof (observations_fold _ _ _ _ Hobs p) as Hl.
  rewrite decide_True in Hl by (by apply elem_of_elements).
  destruct (default ∅ (prices_by_timestamp data !! ts) !! p) as [row|] eqn:E.
  - by exists row.
  - simpl in Hl. clear -Hobs Hp E. exfalso.
    apply elem_of_elements in Hp. revert Hobs Hp.
    generalize (elements (non_tradable_products data)) (∅ : gmap string Z).
    intros products. induction products as [|q products IH]; intros acc H Hin.
    + by apply elem_of_nil in Hin.
    + simpl in H. apply bind_Ok in H as (acc1 & H1 & H).
      apply bind_Ok in H1 as (row & Hrow & H1). apply from_option_Ok in Hrow.
      apply elem_of_cons in Hin as [->|Hin]; [congruence | by eapply IH].
Qed.

(** The claim as the specification words it fails on a product quoted on
    the ask side only: it has a quoted level, yet it is not tradable. *)
Lemma classification_counterexample : ¬ classified_by_any_level ask_only_data.
Proof.
  intros H. destruct (H PEARLS) as ((_ & Htr) & _).
  - vm_compute. left.
  - assert (PEARLS ∈ tradable_products ask_only_data) as Hin.
    { apply Htr. eexists. split; [left|].
      split; [reflexivity | unfold quoted_levels; simpl; lia]. }
    apply elem_of_tradable_products in Hin as (row & Hrow & _ & Hbid).
    apply list_elem_of_singleton in Hrow as ->. by apply Hbid.
Qed.

(** The two classes overlap on a product whose bid side is empty at one
    timestamp only. *)
Lemma classification_overlap :
  PEARLS ∈ tradable_products thin_bid_data ∧
  PEARLS ∈ non_tradable_products thin_bid_data.
Proof.
  split.
  - apply elem_of_tradable_products. eexists. split; [left|]. done.
  - apply elem_of_non_tradable_products. eexists.
    split; [right; left|]. done.
Qed.

(** C8, amended.  A product is classified by the bid side of its price
    rows alone: tradable exactly when some row of it has a bid level,
    observation-only exactly when some row of it has none.  Every product of
    the data falls in at least one class, and an observation-only product is
    handed to the algorithm as the integer part of its mid price. *)
Theorem product_classification (data : DayData) (p : string) :
  (p ∈ tradable_products data ↔
     ∃ row, row ∈ prices data ∧ product row = p ∧ bid_prices row ≠ []) ∧
  (p ∈ non_tradable_products data ↔
     ∃ row, row ∈ prices data ∧ product row = p ∧ bid_prices row = []) ∧
  (p ∈ product <$> prices data ↔
     p ∈ tradable_products data ∨ p ∈ non_tradable_products data) ∧
  (∀ ts own own_tr state,
     build_state data ts own own_tr = Ok state →
     p ∈ non_tradable_products data →
     ∃ row, default ∅ (prices_by_timestamp data !! ts) !! p = Some row ∧
            ts_observations state !! p = Some (int_of_float (mid_price row))).
Proof.
  split_and!.
  - apply elem_of_tradable_products.
  - apply elem_of_non_tradable_products.
  - rewrite elem_of_tradable_products, elem_of_non_tradable_products, list_elem_of_fmap.
    split.
    + intros (row & -> & Hrow). destruct (bid_prices row) as [|b bs] eqn:E.
      * right. by exists row.
      * left. exists row. split_and!; [done | done |]. by rewrite E.
    + intros [(row & Hrow & <- & _)|(row & Hrow & <- & _)]; by exists row.
  - intros ts own own_tr state. apply build_state_observation.
Qed.

Lemma product_classification_witness :
  ∃ state,
    build_state observed_data 0 ∅ ∅ = Ok state ∧
    DOLPHINS ∈ non_tradable_products observed_data ∧
    ts_observations state !! DOLPHINS = Some 3074.
Proof.
  destruct (product_classification observed_data DOLPHINS) as (_ & Hnt & _ & Hobs).
  assert (DOLPHINS ∈ non_tradable_products observed_data) as Hin.
  { apply Hnt. eexists. split; [right; left|]. split; reflexivity. }
  destruct (build_state observed_data 0 ∅ ∅) as [state|e] eqn:Hstate;
    [|vm_compute in Hstate; discriminate].
  destruct (Hobs 0 ∅ ∅ state Hstate Hin) as (row & Hrow & Hval).
  vm_compute in Hrow. injection Hrow as <-.
  exists state. split; [reflexivity|]. split; [exact Hin | exact Hval].
Defined.

(** ** Merging two session results (claims C6, C7 and C10) *)

Lemma rebase_all off offsets rows :
  Forall activity_row_wf rows →
  (∀ key, is_number (offset_of offsets key)) →
  ∃ rebased, Forall2 (λ row row', rebase_row off offsets row = Ok row') rows rebased.
Proof.
  intros Hall Hnum. induction Hall as [|row rows Hwf Hall (rebased & IH)].
  - exists []. constructor.
  - pose proof Hwf as [_ _ (p & Hp) _].
    destruct (activity_with_offset_wf row off (offset_of offsets (VStr p)) Hwf (Hnum _))
      as (row' & ts & pnl & pnl' & Hok & _).
    exists (row' :: rebased). constructor; [|done].
    unfold rebase_row. rewrite Hp. exact Hok.
Qed.

Lemma final_row_elem final p ra : final_row final p = Some ra → ra ∈ final.
Proof.
  unfold final_row. intros H. apply head_Some_elem_of in H.
  by apply list_elem_of_filter in H as [_ H].
Qed.

Lemma num_eq_add_zero pnl d pnl' :
  d = VInt 0 ∨ d = VFloat 0 →
  vadd (VFloat pnl) d = Ok pnl' → num_eq pnl' (VFloat pnl).
Proof.
  intros [->| ->]; simpl; intros [= <-]; simpl; rewrite Qred_correct.
  - apply Qplus_0_r.
  - apply Qplus_0_r.
Qed.

(** C7.  Let the earlier result A end at timestamp T, with its activity
    rows of timestamp T forming the tail [final] of its activity log, as a
    replayed session leaves them.  Merging A with a later result B returns a
    result in which every activity row of B has its timestamp shifted by
    T + 100 and, with the continuity flag set, its P&L increased (with the
    program's [+]) by the P&L of A's final row for the same product, or left
    numerically unchanged when A has no such row; with the flag cleared the
    P&L is numerically unchanged. *)
Theorem merge_profit_and_loss (a b : DayResult) (flag : bool) (T : Z)
    (older final : list ActivityLogRow) :
  final_timestamp a = Some T →
  activity_logs a = older ++ final →
  Forall (λ row, ∃ ts, columns row !! 1%nat = Some (VInt ts) ∧ ts ≠ T) older →
  Forall (λ row, activity_row_wf row ∧ columns row !! 1%nat = Some (VInt T)) final →
  Forall activity_row_wf (activity_logs b) →
  ∃ m, merge_results a b flag = Ok m ∧
    ∀ i row, activity_logs b !! i = Some row →
      ∃ row' ts p pnl pnl',
        activity_logs m !! (length (activity_logs a) + i)%nat = Some row' ∧
        columns row !! 1%nat = Some (VInt ts) ∧
        columns row' !! 1%nat = Some (VInt (ts + (T + 100))) ∧
        columns row !! 2%nat = Some (VStr p) ∧
        last (columns row) = Some (VFloat pnl) ∧
        last (columns row') = Some pnl' ∧
        if flag then
          match final_row final p with
          | Some ra => ∃ pnl_a, last (columns ra) = Some pnl_a ∧
                                vadd (VFloat pnl) pnl_a = Ok pnl'
          | None => num_eq pnl' (VFloat pnl)
          end
        else num_eq pnl' (VFloat pnl).
Proof.
  intros HT Ha Holder Hfinal Hb.
  assert (Forall activity_row_wf final) as Hwf
    by (eapply Forall_impl; [exact Hfinal | by intros ? [? _]]).
  set (offsets := offset_binding flag <$> final).
  assert (collect_offsets T flag (reverse (activity_logs a)) [] = Ok offsets) as Hoff.
  { rewrite Ha, reverse_app, collect_offsets_block by done.
    rewrite collect_offsets_stop by done. by rewrite app_nil_r. }
  destruct (rebase_all (T + 100) offsets (activity_logs b) Hb) as (rebased & Hreb).
  { intros key. by apply offsets_numbers. }
  eexists. split.
  { apply merge_results_Ok. exists T, offsets, rebased. by split_and!. }
  intros i row Hi. simpl.
  destruct (Forall2_lookup_l _ _ _ _ _ Hreb Hi) as (row' & Hrow' & Hrebase).
  rewrite Forall_forall in Hb. pose proof (Hb row) as Hrow.
  assert (activity_row_wf row) as Hroww
    by (apply Hrow; by eapply list_elem_of_lookup_2).
  pose proof Hroww as [_ _ (p & Hp) _].
  unfold rebase_row in Hrebase. rewrite Hp in Hrebase. simpl in Hrebase.
  destruct (activity_with_offset_wf row (T + 100) (offset_of offsets (VStr p)) Hroww)
    as (row2 & ts & pnl & pnl' & Hok & Hts & Hpnl & Hadd & Hts' & _ & Hlast').
  { by apply offsets_numbers. }
  rewrite Hok in Hrebase. injection Hrebase as <-.
  exists row2, ts, p, pnl, pnl'.
  split_and!; try done.
  - by rewrite lookup_app_r, Nat.add_comm, Nat.add_sub by lia.
  - by rewrite (wf_last _ Hroww).
  - unfold offsets in Hadd. rewrite offset_of_bindings in Hadd by done.
    destruct flag.
    + destruct (final_row final p) as [ra|] eqn:Hra.
      * apply final_row_elem in Hra. rewrite Forall_forall in Hwf.
        specialize (Hwf ra Hra). rewrite (wf_last _ Hwf) in Hadd |- *.
        destruct Hwf as [_ _ _ (pa & Hpa)]. rewrite Hpa in Hadd |- *.
        by exists (VFloat pa).
      * eapply num_eq_add_zero; [|exact Hadd]. by right.
    + destruct (final_row final p).
      * eapply num_eq_add_zero; [|exact Hadd]. by left.
      * eapply num_eq_add_zero; [|exact Hadd]. by right.
Qed.

(** C10.  Whatever the continuity flag, a merge that returns starts with
    the three row sequences of the earlier result, unchanged and in order;
    and each activity row of the later result is replaced by a row of the
    same length that differs from it at most in the column at index 1 (the
    timestamp) and in the last column (the P&L): in a 17-column row the day,
    the product, the twelve level columns and the mid price are kept. *)
Theorem merge_frame (a b m : DayResult) (flag : bool) :
  merge_results a b flag = Ok m →
  sandbox_logs a `prefix_of` sandbox_logs m ∧
  submission_logs a `prefix_of` submission_logs m ∧
  activity_logs a `prefix_of` activity_logs m ∧
  ∀ i row, activity_logs b !! i = Some row →
    ∃ row',
      activity_logs m !! (length (activity_logs a) + i)%nat = Some row' ∧
      length (columns row') = length (columns row) ∧
      ∀ j, j ≠ 1%nat → j ≠ (length (columns row) - 1)%nat →
           columns row' !! j = columns row !! j.
Proof.
  intros H. apply merge_results_Ok in H as (T & offsets & rebased & _ & _ & Hreb & ->).
  simpl. split_and!; try (by eexists).
  intros i row Hi.
  destruct (Forall2_lookup_l _ _ _ _ _ Hreb Hi) as (row' & Hrow' & Hrebase).
  exists row'. split.
  { by rewrite lookup_app_r, Nat.add_comm, Nat.add_sub by lia. }
  unfold rebase_row in Hrebase. apply bind_Ok in Hrebase as (key & _ & Hrebase).
  by apply activity_with_offset_frame in Hrebase.
Qed.

Lemma sample_activity_wf ts pnl : activity_row_wf (sample_activity ts pnl).
Proof. split; [reflexivity | by eexists..]. Qed.

Lemma merge_profit_and_loss_witness :
  ∃ m row',
    merge_results earlier_result later_result true = Ok m ∧
    activity_logs m !! 2%nat = Some row' ∧
    columns row' !! 1%nat = Some (VInt 500) ∧
    last (columns row') = Some (VFloat (inject_Z (3 + 10))).
Proof.
  destruct (merge_profit_and_loss earlier_result later_result true 100
              [sample_activity 0 2] [sample_activity 100 10])
    as (m & Hm & Hrows).
  - reflexivity.
  - reflexivity.
  - constructor; [|constructor]. exists 0. split; [reflexivity | lia].
  - constructor; [|constructor]. split; [apply sample_activity_wf | reflexivity].
  - constructor; [|constructor]. apply sample_activity_wf.
  - destruct (Hrows 0%nat (sample_activity 300 3) eq_refl)
      as (row' & ts & p & pnl & pnl' & Hrow' & Hts & Hts' & Hp & Hpnl & Hpnl' & Hadd).
    exists m, row'.
    injection Hts as <-. injection Hp as <-. injection Hpnl as <-.
    vm_compute in Hadd. destruct Hadd as (pnl_a & [= <-] & [= <-]).
    split; [exact Hm|]. split; [exact Hrow'|]. split; [exact Hts' | exact Hpnl'].
Defined.

Lemma merge_frame_witness :
  ∃ m, merge_results earlier_result later_result false = Ok m ∧
       activity_logs earlier_result `prefix_of` activity_logs m.
Proof.
  destruct (merge_results earlier_result later_result false) as [m|e] eqn:Hm;
    [|vm_compute in Hm; discriminate].
  exists m. split; [reflexivity|].
  destruct (merge_frame earlier_result later_result m false Hm) as (_ & _ & Hact & _).
  exact Hact.
Defined.

(** What the merge does with the rows of the later result, kind by kind:
    diagnostic rows get the offset added to their timestamp, rejection rows
    get the offset itself as their timestamp. *)
Lemma merge_log_rows a b flag m :
  merge_results a b flag = Ok m →
  ∃ T, final_timestamp a = Some T ∧
    sandbox_logs m
      = sandbox_logs a
          ++ ((λ row, mkSandboxLogRow (sb_timestamp row + (T + 100))
                        (sb_data (sandbox_with_offset row (T + 100))))
                <$> sandbox_logs b) ∧
    submission_logs m
      = submission_logs a
          ++ ((λ row, mkSubmissionLogRow (T + 100) (sm_data row)) <$> submission_logs b).
Proof.
  intros H. apply merge_results_Ok in H as (T & offsets & rebased & HT & _ & _ & ->).
  by exists T.
Qed.

(** C6, on the code.  Merging the two sample results: the earlier one ends
    at timestamp 100, so the offset is 200.  The diagnostic row and the
    activity row of the later result move from 300 to 500 and the marker in
    the diagnostic text is rewritten, but the rejection row of timestamp 300
    comes out with timestamp 200, the offset itself, and not 500. *)
Theorem submission_rows_get_the_offset_as_timestamp :
  ∃ m,
    merge_results earlier_result later_result false = Ok m ∧
    drop 2 (sandbox_logs m) = [mkSandboxLogRow 500 (timestamp_marker 500)] ∧
    (λ row, columns row !! 1%nat) <$> drop 2 (activity_logs m) = [Some (VInt 500)] ∧
    sm_timestamp <$> submission_logs later_result = [300] ∧
    sm_timestamp <$> submission_logs m = [100 + 100] ∧
    sm_timestamp <$> submission_logs m ≠ [300 + (100 + 100)].
Proof.
  eexists. split; [vm_compute; reflexivity|].
  split_and!; try (vm_compute; reflexivity). vm_compute. discriminate.
Qed.

(** * Further properties of the replay loop *)

(** ** Books built from price rows (run_backtest, lines 182-188) *)

Lemma fold_insert_lookup (f : Z → Z) (l : list (Z * Z)) : ∀ (acc : gmap Z Z) p v,
  foldl (λ m pv, <[pv.1 := f pv.2]> m) acc l !! p = Some v →
  (∃ w, (p, w) ∈ l ∧ v = f w) ∨ acc !! p = Some v.
Proof.
  induction l as [|[q w] l IH]; intros acc p v H; simpl in H; [by right|].
  apply IH in H as [(w' & Hin & ->)|H].
  - left. exists w'. split; [by right | done].
  - destruct (decide (q = p)) as [->|Hne].
    + rewrite lookup_insert_eq in H. injection H as <-.
      left. exists w. split; [left | done].
    + rewrite lookup_insert_ne in H by done. by right.
Qed.

Lemma fold_insert_lookup_NoDup (f : Z → Z) (l : list (Z * Z)) : ∀ (acc : gmap Z Z) p w,
  NoDup l.*1 → (p, w) ∈ l →
  foldl (λ m pv, <[pv.1 := f pv.2]> m) acc l !! p = Some (f w).
Proof.
  induction l as [|[q w'] l IH]; intros acc p w Hnd Hin; simpl.
  - by apply elem_of_nil in Hin.
  - rewrite fmap_cons in Hnd. apply NoDup_cons in Hnd as [Hq Hnd].
    apply elem_of_cons in Hin as [[= -> ->]|Hin]; [|by apply IH].
    assert (∀ acc' : gmap Z Z, acc' !! q = Some (f w') →
              foldl (λ m pv, <[pv.1 := f pv.2]> m) acc' l !! q = Some (f w')) as Hkeep.
    { clear IH Hnd. induction l as [|[r u] l IHl]; intros acc' Hacc; simpl; [done|].
      rewrite fmap_cons in Hq. apply not_elem_of_cons in Hq as [Hne Hq].
      apply IHl; [done|]. simpl. by rewrite lookup_insert_ne. }
    apply Hkeep. simpl. apply lookup_insert_eq.
Qed.

Lemma elem_of_zip_r {A B} (l : list A) (k : list B) x y : (x, y) ∈ zip l k → y ∈ k.
Proof.
  revert k. induction l as [|a l IH]; intros [|b k] H; simpl in H;
    try (by apply elem_of_nil in H).
  apply elem_of_cons in H as [[= -> ->]|H]; [left | right; by eapply IH].
Qed.

Lemma book_of_row_wf (row : PriceRow) :
  Forall (λ v, 0 ≤ v) (bid_volumes row) → Forall (λ v, 0 ≤ v) (ask_volumes row) →
  book_wf (book_of_row row).
Proof.
  intros Hb Ha. split; intros p v H; simpl.
  - apply (fold_insert_lookup (λ v, v)) in H as [(w & Hin & ->)|H];
      [|by rewrite lookup_empty in H].
    apply elem_of_zip_r in Hin. rewrite Forall_forall in Hb. by apply Hb.
  - apply (fold_insert_lookup Z.opp) in H as [(w & Hin & ->)|H];
      [|by rewrite lookup_empty in H].
    apply elem_of_zip_r in Hin. rewrite Forall_forall in Ha.
    specialize (Ha w Hin). simpl in Ha. lia.
Qed.

(** X1.  The book built from a price row holds only levels of the row: bid
    levels with their volume, ask levels with their volume negated, from
    the price and volume columns paired position by position.  When the
    prices of a side are distinct every pair is in the book, and when the
    volumes of the row are non-negative the book is well-formed. *)
Theorem book_of_row_levels (row : PriceRow) :
  (∀ p v, buy_orders (book_of_row row) !! p = Some v →
          (p, v) ∈ zip (bid_prices row) (bid_volumes row)) ∧
  (∀ p v, sell_orders (book_of_row row) !! p = Some v →
          (p, - v) ∈ zip (ask_prices row) (ask_volumes row)) ∧
  (NoDup (zip (bid_prices row) (bid_volumes row)).*1 →
     ∀ p v, (p, v) ∈ zip (bid_prices row) (bid_volumes row) →
            buy_orders (book_of_row row) !! p = Some v) ∧
  (NoDup (zip (ask_prices row) (ask_volumes row)).*1 →
     ∀ p v, (p, v) ∈ zip (ask_prices row) (ask_volumes row) →
            sell_orders (book_of_row row) !! p = Some (- v)) ∧
  (Forall (λ v, 0 ≤ v) (bid_volumes row) → Forall (λ v, 0 ≤ v) (ask_volumes row) →
     book_wf (book_of_row row)).
Proof.
  split_and!; [| | | | apply book_of_row_wf]; unfold book_of_row; simpl.
  - intros p v H. apply (fold_insert_lookup (λ v, v)) in H as [(w & Hin & ->)|H]; [done|].
    by rewrite lookup_empty in H.
  - intros p v H. apply (fold_insert_lookup Z.opp) in H as [(w & Hin & ->)|H].
    + by rewrite Z.opp_involutive.
    + by rewrite lookup_empty in H.
  - intros Hnd p v Hin. by apply (fold_insert_lookup_NoDup (λ v, v)).
  - intros Hnd p v Hin. by apply (fold_insert_lookup_NoDup Z.opp).
Qed.

(** ** Indexing the feeds (run_backtest, lines 156-162 and 178) *)

Lemma last_filter_snoc {A} (P : A → Prop) `{!∀ x, Decision (P x)} (l : list A) (x : A) :
  last (filter P (l ++ [x])) = if decide (P x) then Some x else last (filter P l).
Proof.
  rewrite filter_app, filter_cons, filter_nil. destruct (decide (P x)).
  - by rewrite last_snoc.
  - by rewrite app_nil_r.
Qed.

Lemma prices_index_lookup (rows : list PriceRow) (ts : Z) (p : string) :
  default ∅ (foldl (λ m row,
                      <[timestamp row :=
                          <[product row := row]> (default ∅ (m !! timestamp row))]> m)
                   (∅ : gmap Z (gmap string PriceRow)) rows !! ts) !! p
  = last (filter (λ row, timestamp row = ts ∧ product row = p) rows).
Proof.
  induction rows as [|row rows IH] using rev_ind; [done|].
  rewrite foldl_app, last_filter_snoc. simpl.
  destruct (decide (timestamp row = ts)) as [Hts|Hts].
  - rewrite Hts, lookup_insert_eq. simpl.
    destruct (decide (product row = p)) as [Hp|Hp].
    + rewrite decide_True by done. by rewrite Hp, lookup_insert_eq.
    + rewrite decide_False by (by intros [_ ?]).
      rewrite lookup_insert_ne by done. exact IH.
  - rewrite lookup_insert_ne by done. rewrite decide_False by (by intros [? _]).
    exact IH.
Qed.

Lemma prices_index_keys (rows : list PriceRow) (ts : Z) :
  is_Some (foldl (λ m row,
                    <[timestamp row :=
                        <[product row := row]> (default ∅ (m !! timestamp row))]> m)
                 (∅ : gmap Z (gmap string PriceRow)) rows !! ts)
  ↔ ts ∈ timestamp <$> rows.
Proof.
  induction rows as [|row rows IH] using rev_ind.
  - simpl. rewrite lookup_empty. split; [by intros [? ?] | by intros ?%elem_of_nil].
  - rewrite foldl_app, fmap_app, elem_of_app. simpl.
    destruct (decide (timestamp row = ts)) as [Hts|Hts].
    + rewrite Hts, lookup_insert_eq. split; [intros _; right; left | by eexists].
    + rewrite lookup_insert_ne by done. rewrite IH.
      rewrite list_elem_of_singleton. split; [by left | intros [?|?]; [done | congruence]].
Qed.

(** X2.  The price feed is indexed by timestamp and product with later rows
    overriding earlier ones: the row the loop reads for a product at a
    timestamp is the last row of the feed carrying that timestamp and that
    product, and there is none exactly when the feed has no such row. *)
Theorem prices_by_timestamp_lookup (data : DayData) (ts : Z) (p : string) :
  default ∅ (prices_by_timestamp data !! ts) !! p
  = last (filter (λ row, timestamp row = ts ∧ product row = p) (prices data)).
Proof. apply prices_index_lookup. Qed.

(** X3.  The loop replays each timestamp that occurs in the price feed
    exactly once, in strictly ascending order, whatever the order and the
    repetitions of the rows. *)
Theorem timestamps_sorted_distinct (data : DayData) :
  StronglySorted Z.lt (timestamps data) ∧
  ∀ ts, ts ∈ timestamps data ↔ ts ∈ timestamp <$> prices data.
Proof.
  split; [apply sorted_keys|]. intros ts. unfold timestamps.
  rewrite merge_sort_Permutation, elem_of_keys. apply prices_index_keys.
Qed.

Lemma trades_index_lookup (l : list Trade) (ts : Z) (s : string) :
  default [] (default ∅ (foldl (λ m t,
       let at_ts := default ∅ (m !! t_timestamp t) in
       <[t_timestamp t :=
           <[t_symbol t := default [] (at_ts !! t_symbol t) ++ [t]]> at_ts]> m)
     (∅ : gmap Z (gmap string (list Trade))) l !! ts) !! s)
  = filter (λ t, t_timestamp t = ts ∧ t_symbol t = s) l.
Proof.
  induction l as [|t l IH] using rev_ind; [done|].
  rewrite foldl_app, filter_app, filter_cons, filter_nil. simpl.
  destruct (decide (t_timestamp t = ts)) as [Hts|Hts].
  - rewrite Hts, lookup_insert_eq. simpl.
    destruct (decide (t_symbol t = s)) as [Hs|Hs].
    + rewrite decide_True by done. rewrite Hs, lookup_insert_eq. simpl.
      by rewrite <- IH.
    + rewrite decide_False by (by intros [_ ?]).
      rewrite lookup_insert_ne by done. rewrite app_nil_r. by rewrite <- IH.
  - rewrite lookup_insert_ne by done. rewrite decide_False by (by intros [? _]).
    by rewrite app_nil_r.
Qed.

(** X4.  The market trades handed to the algorithm at a timestamp for a
    symbol are exactly the trades of the trade feed with that timestamp and
    that symbol, in feed order. *)
Theorem market_trades_of_timestamp (data : DayData) (ts : Z) (own : gmap string Z)
    (own_tr : gmap string (list Trade)) (state : TradingState) (s : string) :
  build_state data ts own own_tr = Ok state →
  default [] (ts_market_trades state !! s)
  = filter (λ t, t_timestamp t = ts ∧ t_symbol t = s) (trades data).
Proof.
  unfold build_state. intros H. apply bind_Ok in H as (d & _ & H).
  apply bind_Ok in H as (o & _ & H). injection H as <-. simpl.
  apply trades_index_lookup.
Qed.

(** ** The state handed to the algorithm (run_backtest, lines 179-194) *)

Section fold_rows.
Context {V : Type} (f : PriceRow → V) (rows : gmap string PriceRow).

Lemma fold_rows_step (acc : gmap string V) (q : string) :
  fold_rows_body f rows acc q
  = match rows !! q with
    | Some row => Ok (<[q := f row]> acc)
    | None => Raise KeyError
    end.
Proof. unfold fold_rows_body. by destruct (rows !! q). Qed.

Lemma fold_rows_Ok : ∀ (products : list string) (acc m : gmap string V),
  for_each (fold_rows_body f rows) products acc = Ok m →
  (∀ p, p ∈ products → is_Some (rows !! p)) ∧
  ∀ p, m !! p = if decide (p ∈ products) then f <$> rows !! p else acc !! p.
Proof.
  induction products as [|q products IH]; intros acc m H.
  - injection H as <-. split; [by intros p ?%elem_of_nil|].
    intros p. rewrite decide_False; [done | apply not_elem_of_nil].
  - cbn [for_each] in H. apply bind_Ok in H as (acc1 & H1 & H).
    rewrite fold_rows_step in H1.
    destruct (rows !! q) as [row|] eqn:Hrow; [|done].
    injection H1 as <-. destruct (IH _ _ H) as [Hall Hm]. split.
    + intros p Hp. apply elem_of_cons in Hp as [->|Hp]; [by eexists | by apply Hall].
    + intros p. rewrite Hm. destruct (decide (p ∈ products)) as [Hin|Hnin].
      * rewrite decide_True; [done | by right].
      * destruct (decide (p = q)) as [->|Hne].
        -- rewrite decide_True by left. by rewrite lookup_insert_eq, Hrow.
        -- rewrite decide_False by (by apply not_elem_of_cons).
           by rewrite lookup_insert_ne.
Qed.

Lemma fold_rows_total : ∀ (products : list string) (acc : gmap string V),
  (∀ p, p ∈ products → is_Some (rows !! p)) →
  is_ok (for_each (fold_rows_body f rows) products acc).
Proof.
  induction products as [|q products IH]; intros acc Hall; [by eexists|].
  cbn [for_each]. destruct (Hall q) as [row Hrow]; [left|].
  rewrite fold_rows_step, Hrow. simpl.
  apply IH. intros p Hp. apply Hall. by right.
Qed.

Lemma fold_rows_raise : ∀ (products : list string) (acc : gmap string V) e,
  for_each (fold_rows_body f rows) products acc = Raise e →
  e = KeyError ∧ ∃ p, p ∈ products ∧ rows !! p = None.
Proof.
  induction products as [|q products IH]; intros acc e H; [done|].
  cbn [for_each] in H. rewrite fold_rows_step in H.
  destruct (rows !! q) as [row|] eqn:Hrow; simpl in H.
  - destruct (IH _ _ H) as (-> & p & Hp & Hnone). split; [done|].
    exists p. split; [by right | done].
  - injection H as <-. split; [done|]. exists q. split; [left | done].
Qed.

End fold_rows.

Lemma products_of_feed data p :
  p ∈ product <$> prices data ↔
  p ∈ tradable_products data ∨ p ∈ non_tradable_products data.
Proof.
  rewrite elem_of_tradable_products, elem_of_non_tradable_products, list_elem_of_fmap.
  split.
  - intros (row & -> & Hrow). destruct (bid_prices row) as [|b bs] eqn:E.
    + right. by exists row.
    + left. exists row. split_and!; [done | done |]. by rewrite E.
  - intros [(row & Hrow & <- & _)|(row & Hrow & <- & _)]; by exists row.
Qed.

(** X5.  If building the state of a timestamp returns, every product of the
    price feed has a row at that timestamp; and when a tradable product has
    none, the lookup of its row raises KeyError. *)
Theorem build_state_needs_every_row (data : DayData) (ts : Z) (own : gmap string Z)
    (own_tr : gmap string (list Trade)) :
  (∀ state, build_state data ts own own_tr = Ok state →
     ∀ p, p ∈ product <$> prices data →
          is_Some (default ∅ (prices_by_timestamp data !! ts) !! p)) ∧
  (∀ p, p ∈ tradable_products data →
        default ∅ (prices_by_timestamp data !! ts) !! p = None →
        build_state data ts own own_tr = Raise KeyError).
Proof.
  unfold build_state, build_order_depths, build_observations.
  set (rows := default ∅ (prices_by_timestamp data !! ts)).
  change (for_each _ (elements (tradable_products data)) ∅)
    with (for_each (fold_rows_body book_of_row rows)
                   (elements (tradable_products data)) ∅).
  change (for_each _ (elements (non_tradable_products data)) ∅)
    with (for_each (fold_rows_body (λ row, int_of_float (mid_price row)) rows)
                   (elements (non_tradable_products data)) ∅).
  split.
  - intros state H. apply bind_Ok in H as (d & Hd & H).
    apply bind_Ok in H as (o & Ho & _).
    apply fold_rows_Ok in Hd as [Hd _]. apply fold_rows_Ok in Ho as [Ho _].
    intros p Hp. apply products_of_feed in Hp as [Hp|Hp].
    + apply Hd. by apply elem_of_elements.
    + apply Ho. by apply elem_of_elements.
  - intros p Hp Hnone.
    destruct (for_each (fold_rows_body book_of_row rows) _ ∅) as [d|e] eqn:Hd.
    + apply fold_rows_Ok in Hd as [Hd _].
      destruct (Hd p) as [row Hrow]; [by apply elem_of_elements | congruence].
    + by apply fold_rows_raise in Hd as [-> _].
Qed.

(** X6.  What the state of a timestamp holds: a book for each tradable
    product and for no other symbol, built from the product's row of that
    timestamp; a listing for exactly the tradable products; the own trades
    it was given; and the position ledger without its zero entries. *)
Theorem build_state_contents (data : DayData) (ts : Z) (own : gmap string Z)
    (own_tr : gmap string (list Trade)) (state : TradingState) :
  build_state data ts own own_tr = Ok state →
  ts_timestamp state = ts ∧
  ts_own_trades state = own_tr ∧
  (∀ p, ts_order_depths state !! p =
        if decide (p ∈ tradable_products data)
        then book_of_row <$> default ∅ (prices_by_timestamp data !! ts) !! p
        else None) ∧
  (∀ p, ts_listings state !! p =
        if decide (p ∈ tradable_products data)
        then Some (mkListing p p "SEASHELLS") else None) ∧
  (∀ p v, ts_position state !! p = Some v ↔ own !! p = Some v ∧ v ≠ 0).
Proof.
  unfold build_state, build_order_depths. intros H.
  apply bind_Ok in H as (d & Hd & H). apply bind_Ok in H as (o & _ & H).
  injection H as <-. simpl. split_and!; try done.
  - intros p.
    change (for_each _ (elements (tradable_products data)) ∅)
      with (for_each (fold_rows_body book_of_row
                        (default ∅ (prices_by_timestamp data !! ts)))
                     (elements (tradable_products data)) ∅) in Hd.
    apply fold_rows_Ok in Hd as [_ Hd]. rewrite Hd, lookup_empty.
    apply decide_ext, elem_of_elements.
  - intros p. unfold listings. destruct (decide (p ∈ tradable_products data)) as [Hp|Hp].
    + apply lookup_set_to_map; [by intros y y' _ _ [= ?] | by exists p].
    + destruct (set_to_map _ _ !! p) as [l|] eqn:E; [|done].
      apply lookup_set_to_map in E as (y & Hy & [= -> _]); [done|].
      by intros y1 y2 _ _ [= ?].
  - intros p v. unfold nonzero_positions. rewrite map_lookup_filter_Some. done.
Qed.

Lemma market_trades_of_timestamp_witness :
  ∃ state,
    build_state traded_data 100 ∅ ∅ = Ok state ∧
    default [] (ts_market_trades state !! PEARLS)
      = [mkTrade PEARLS (VFloat 13) 1 "Camilla" "Caesar" 100].
Proof.
  destruct (build_state traded_data 100 ∅ ∅) as [state|e] eqn:Hstate;
    [|vm_compute in Hstate; discriminate].
  exists state. split; [reflexivity|].
  rewrite (market_trades_of_timestamp traded_data 100 ∅ ∅ state PEARLS Hstate).
  vm_compute. reflexivity.
Defined.

Lemma build_state_contents_witness :
  ∃ state,
    build_state sample_data 100 {[ PEARLS := 5; BANANAS := 0 ]} ∅ = Ok state ∧
    ts_position state !! PEARLS = Some 5 ∧
    ts_position state !! BANANAS = None.
Proof.
  destruct (build_state sample_data 100 {[ PEARLS := 5; BANANAS := 0 ]} ∅)
    as [state|e] eqn:Hstate; [|vm_compute in Hstate; discriminate].
  destruct (build_state_contents sample_data 100 {[ PEARLS := 5; BANANAS := 0 ]} ∅
              state Hstate) as (_ & _ & _ & _ & Hpos).
  exists state. split; [reflexivity|]. split.
  - apply Hpos. split; [vm_compute; reflexivity | lia].
  - destruct (ts_position state !! BANANAS) as [v|] eqn:E; [|reflexivity].
    apply Hpos in E as [E Hne]. vm_compute in E. injection E as <-. lia.
Defined.

Lemma build_state_needs_every_row_witness :
  is_Some (default ∅ (prices_by_timestamp sample_data !! 0) !! PEARLS) ∧
  build_state gappy_data 0 ∅ ∅ = Raise KeyError.
Proof.
  split.
  - destruct (build_state_needs_every_row sample_data 0 ∅ ∅) as [Hrows _].
    destruct (build_state sample_data 0 ∅ ∅) as [state|e] eqn:Hstate;
      [|vm_compute in Hstate; discriminate].
    apply (Hrows state eq_refl). apply (bool_decide_unpack _). vm_compute. exact I.
  - destruct (build_state_needs_every_row gappy_data 0 ∅ ∅) as [_ Hraise].
    apply (Hraise BANANAS).
    + apply (bool_decide_unpack _). vm_compute. exact I.
    + vm_compute. reflexivity.
Defined.

(** ** When the limit guard raises (run_backtest, lines 202-212) *)

Lemma limit_guard_cons ts positions objs p ps acc :
  limit_guard ts positions objs (p :: ps) acc
  = guard_product ts positions objs acc p ≫= limit_guard ts positions objs ps.
Proof. reflexivity. Qed.

Lemma limit_guard_total ts positions objs : ∀ products orders logs,
  NoDup products →
  (∀ p, p ∈ products →
        is_Some (LIMITS !! p) ∧
        (rejected positions objs orders p = true → is_Some (orders !! p))) →
  is_ok (limit_guard ts positions objs products (orders, logs)).
Proof.
  induction products as [|p ps IH]; intros orders logs Hnd Hall; [by eexists|].
  apply NoDup_cons in Hnd as [Hp Hnd].
  destruct (Hall p) as [[limit Hl] Hrej]; [left|].
  rewrite limit_guard_cons, guard_product_unfold, Hl.
  destruct (rejected positions objs orders p) eqn:Hr.
  - destruct Hrej as [refs Ho]; [done|]. rewrite Ho. simpl.
    apply IH; [done|]. intros q Hq.
    assert (q ≠ p) as Hne by (intros ->; done).
    rewrite rejected_delete_ne, lookup_delete_ne by done. apply Hall. by right.
  - simpl. apply IH; [done|]. intros q Hq. apply Hall. by right.
Qed.

Lemma limit_guard_raises_KeyError ts positions objs : ∀ products acc e,
  limit_guard ts positions objs products acc = Raise e → e = KeyError.
Proof.
  induction products as [|p ps IH]; intros [orders logs] e H; [done|].
  rewrite limit_guard_cons, guard_product_unfold in H.
  destruct (LIMITS !! p); [|by injection H as <-].
  destruct (rejected positions objs orders p).
  - destruct (orders !! p); [by eapply IH | by injection H as <-].
  - by eapply IH.
Qed.

Lemma rejected_within_limit positions objs orders p limit :
  LIMITS !! p = Some limit →
  Z.abs (position_of positions p) ≤ limit →
  rejected positions objs orders p = true → is_Some (orders !! p).
Proof.
  intros Hl Hpos Hr. apply (rejected_iff _ _ _ _ _ Hl) in Hr.
  destruct (orders !! p) as [refs|]; [by eexists|]. exfalso.
  simpl in Hr. unfold total_long, total_short in Hr. simpl in Hr. lia.
Qed.

(** X7.  With a limit configured for every product of the loop and every
    position within its limit, the limit guard never raises: a product
    without orders is never rejected, so the entry the guard pops always
    exists. *)
Theorem limit_guard_never_raises (ts : Z) (positions : gmap string Z) (objs : store)
    (products : list string) (orders : gmap string (list nat))
    (logs : list SubmissionLogRow) :
  NoDup products →
  (∀ p, p ∈ products →
        ∃ limit, LIMITS !! p = Some limit ∧ Z.abs (position_of positions p) ≤ limit) →
  is_ok (limit_guard ts positions objs products (orders, logs)).
Proof.
  intros Hnd Hall. apply limit_guard_total; [done|].
  intros p Hp. destruct (Hall p Hp) as (limit & Hl & Hpos).
  split; [by eexists | by apply (rejected_within_limit _ _ _ _ limit)].
Qed.

(** X8.  The limit guard raises KeyError, and nothing else, in two cases:
    a product of the loop has no entry in LIMITS, or a product is rejected
    although the algorithm returned no entry for it (its position is
    already beyond the limit), so that there is nothing to pop. *)
Theorem limit_guard_raises_iff (ts : Z) (positions : gmap string Z) (objs : store)
    (products : list string) (orders : gmap string (list nat))
    (logs : list SubmissionLogRow) :
  NoDup products →
  (limit_guard ts positions objs products (orders, logs) = Raise KeyError ↔
     ∃ p, p ∈ products ∧
          (LIMITS !! p = None ∨
           (rejected positions objs orders p = true ∧ orders !! p = None))) ∧
  (∀ e, limit_guard ts positions objs products (orders, logs) = Raise e → e = KeyError).
Proof.
  intros Hnd. split; [|apply limit_guard_raises_KeyError]. split.
  - intros Hraise.
    destruct (decide (Exists (λ p, LIMITS !! p = None ∨
        (rejected positions objs orders p = true ∧ orders !! p = None)) products))
      as [Hex|Hno].
    + apply Exists_exists in Hex as (p & Hp & H). by exists p.
    + exfalso. destruct (limit_guard_total ts positions objs products orders logs Hnd)
        as [acc Hok]; [|congruence].
      intros p Hp. rewrite Exists_exists in Hno.
      destruct (LIMITS !! p) as [limit|] eqn:Hl.
      * split; [by eexists|]. intros Hr.
        destruct (orders !! p) as [refs|] eqn:Ho; [by eexists|].
        destruct Hno. exists p. split; [done|]. right. done.
      * destruct Hno. exists p. split; [done|]. by left.
  - intros (p & Hp & Hbad).
    destruct (limit_guard ts positions objs products (orders, logs))
      as [[accepted logs']|e] eqn:Hg.
    + exfalso. destruct (limit_guard_spec _ _ _ _ _ _ _ _ Hnd Hg) as (Hlim & Hacc & _).
      destruct Hbad as [Hnone|[Hr Ho]].
      * destruct (Hlim p Hp) as [l Hl]. congruence.
      * clear Hacc Hlim. revert orders logs Hg Hr Ho.
        induction products as [|q ps IH]; intros orders logs Hg Hr Ho;
          [by apply elem_of_nil in Hp|].
        apply NoDup_cons in Hnd as [Hq Hnd].
        rewrite limit_guard_cons, guard_product_unfold in Hg.
        destruct (LIMITS !! q) as [limit|]; [|done].
        apply elem_of_cons in Hp as [->|Hp].
        -- by rewrite Hr, Ho in Hg.
        -- assert (p ≠ q) as Hne by (intros ->; done).
           destruct (rejected positions objs orders q).
           ++ destruct (orders !! q); [|done]. simpl in Hg.
              apply (IH Hnd Hp _ _ Hg);
                [by rewrite rejected_delete_ne | by rewrite lookup_delete_ne].
           ++ by apply (IH Hnd Hp _ _ Hg).
    + f_equal. by eapply limit_guard_raises_KeyError.
Qed.

Lemma limit_guard_never_raises_witness :
  is_ok (limit_guard 0 ∅ (sample_store 25) [PEARLS] (sample_orders, [])).
Proof.
  apply (limit_guard_never_raises 0 ∅ (sample_store 25) [PEARLS] sample_orders []).
  - apply NoDup_singleton.
  - intros p Hp. apply list_elem_of_singleton in Hp as ->.
    exists 20. split; [reflexivity | vm_compute; discriminate].
Defined.

Lemma limit_guard_raises_iff_witness :
  limit_guard 0 ∅ (sample_store 5) [DOLPHINS] (sample_orders, []) = Raise KeyError.
Proof.
  apply (limit_guard_raises_iff 0 ∅ (sample_store 5) [DOLPHINS] sample_orders []).
  - apply NoDup_singleton.
  - exists DOLPHINS. split; [left | left; reflexivity].
Defined.

(** ** Whole sessions (run_backtest, lines 173-313) *)

Lemma guarded_positions_bounded ts products orders accepted logs logs' st (objs : store) :
  NoDup products →
  keyed orders objs →
  (∀ q, q ∈ products → ∃ d, order_depths st !! q = Some d ∧ book_wf d) →
  (∀ q limit, q ∈ products → LIMITS !! q = Some limit →
     Z.abs (position_of (own_positions st) q) ≤ limit) →
  limit_guard ts (own_positions st) objs products (orders, logs) = Ok (accepted, logs') →
  ∃ st' (objs' : store),
    match_all ts accepted products (st, objs) = Ok (st', objs') ∧
    ∀ p limit, p ∈ products → LIMITS !! p = Some limit →
      Z.abs (position_of (own_positions st') p) ≤ limit.
Proof.
  intros Hnd Hkey Hbooks Hstart Hg.
  pose proof (keyed_accepted _ _ _ _ _ _ _ _ Hnd Hg Hkey) as Hkey'.
  destruct (match_all_local ts accepted products st objs Hnd Hkey' Hbooks)
    as (st' & objs' & Hall & _).
  exists st', objs'. split; [done|]. intros p limit Hp Hl.
  destruct (guarded_product_outcome ts products orders logs accepted logs' st objs p
              Hnd Hp Hkey Hbooks Hg)
    as (st2 & objs2 & Hall2 & _ & _ & _ & _ & new & _ & _ & _ & _ & _ & Hpos & Hk).
  rewrite Hall in Hall2. injection Hall2 as <- <-.
  specialize (Hstart p limit Hp Hl). specialize (Hk (length new)).
  rewrite firstn_all in Hk. rewrite Hpos.
  destruct (limit_guard_spec _ _ _ _ _ _ _ _ Hnd Hg) as (_ & Hacc & _).
  rewrite Hacc in Hk. destruct (decide (p ∈ products ∧ _)) as [_|Hnr].
  - simpl in Hk. unfold total_short, total_long in Hk. simpl in Hk. lia.
  - assert (rejected (own_positions st) objs orders p ≠ true) as Hr
      by (intros ?; by apply Hnr).
    rewrite (rejected_iff _ _ _ _ _ Hl) in Hr. lia.
Qed.

Lemma append_rows_total {X} (mk : X → result ActivityLogRow) (xs : list X) logs :
  (∀ x, x ∈ xs → is_ok (mk x)) → is_ok (append_rows mk xs logs).
Proof.
  revert logs. induction xs as [|x xs IH]; intros logs Hall; [by eexists|].
  destruct (Hall x) as [row Hrow]; [left|].
  unfold append_rows in *. cbn [for_each]. rewrite Hrow. simpl.
  apply IH. intros y Hy. apply Hall. by right.
Qed.

Lemma LIMITS_positive p limit : LIMITS !! p = Some limit → 0 < limit.
Proof.
  assert (map_Forall (λ _ l, 0 < l) LIMITS) as H
    by (apply (bool_decide_unpack _); vm_compute; exact I).
  apply H.
Qed.

Lemma indexed_row_of_feed (data : DayData) (ts : Z) (p : string) (row : PriceRow) :
  default ∅ (prices_by_timestamp data !! ts) !! p = Some row → row ∈ prices data.
Proof.
  unfold prices_by_timestamp. rewrite prices_index_lookup. intros H.
  apply last_Some_elem_of in H. by apply list_elem_of_filter in H as [_ ?].
Qed.

(** The books of a state built from a feed with non-negative volumes. *)
Lemma build_state_books (data : DayData) (ts : Z) (own : gmap string Z)
    (own_tr : gmap string (list Trade)) (state : TradingState) :
  volumes_nonneg data →
  build_state data ts own own_tr = Ok state →
  ∀ p, p ∈ elements (tradable_products data) →
       ∃ d, ts_order_depths state !! p = Some d ∧ book_wf d.
Proof.
  intros Hvol H p Hp. unfold build_state, build_order_depths in H.
  change (for_each _ (elements (tradable_products data)) ∅)
    with (for_each (fold_rows_body book_of_row
                      (default ∅ (prices_by_timestamp data !! ts)))
                   (elements (tradable_products data)) ∅) in H.
  apply bind_Ok in H as (depths & Hdepths & H).
  apply bind_Ok in H as (obs & _ & H). injection H as <-. simpl.
  apply fold_rows_Ok in Hdepths as [Hrows Hd].
  destruct (Hrows p Hp) as [row Hrow].
  exists (book_of_row row). split.
  - rewrite Hd, decide_True by done. by rewrite Hrow.
  - apply (indexed_row_of_feed data ts p) in Hrow. unfold volumes_nonneg in Hvol.
    rewrite Forall_forall in Hvol. destruct (Hvol row Hrow) as [Hb Ha].
    by apply book_of_row_wf.
Qed.

Section Sessions.
Context {Mem : Type}.
Variable trader_run : Trader Mem.
Variable data : DayData.

(** One timestamp keeps the positions within the limits. *)
Lemma step_within (lp lp' : Loop Mem) (ts : Z) :
  volumes_nonneg data →
  files_by_symbol trader_run →
  step trader_run data lp ts = Ok lp' →
  within_limits data (lp_positions lp) →
  within_limits data (lp_positions lp').
Proof.
  intros Hvol Hfiles H Hwithin.
  apply step_Ok in H as (state & mem' & stdout & objs & objs' & orders
    & accepted & submission & eng & act1 & act2 & Hs & Ht & Hg & Hm & _ & _ & ->).
  simpl. apply Hfiles in Ht.
  pose proof (NoDup_elements (tradable_products data)) as Hnd.
  set (st := mkEngine (ts_order_depths state) (lp_positions lp) (lp_seashells lp) ∅) in *.
  destruct (guarded_positions_bounded ts (elements (tradable_products data)) orders
              accepted (submission_logs (lp_result lp)) submission st objs Hnd Ht)
    as (eng' & objs'' & Hm' & Hbound).
  - by apply (build_state_books data ts (lp_positions lp) (lp_own_trades lp)).
  - intros q limit Hq Hl. apply Hwithin; [by apply elem_of_elements | done].
  - exact Hg.
  - rewrite Hm in Hm'. injection Hm' as <- _.
    intros p limit Hp Hl. apply Hbound; [by apply elem_of_elements | done].
Qed.

(** X9.  In a session on a feed with non-negative volumes, with an
    algorithm that files every order under the symbol it names, every
    tradable product is within its limit after each replayed timestamp:
    after any prefix of the timestamps that replays without raising. *)
Theorem session_within_limits (round day : Z) (mem : Mem) (pre post : list Z)
    (lp : Loop Mem) :
  volumes_nonneg data →
  files_by_symbol trader_run →
  timestamps data = pre ++ post →
  for_each (step trader_run data) pre
           (mkLoop mem ∅ ∅ ∅ (mkDayResult round day [] [] [])) = Ok lp →
  within_limits data (lp_positions lp).
Proof.
  intros Hvol Hfiles _ Hrun.
  apply (for_each_invariant (step trader_run data)
           (λ lp, within_limits data (lp_positions lp))) in Hrun; [done | |].
  - intros st ts st' Hstep. exact (step_within st st' ts Hvol Hfiles Hstep).
  - intros p limit _ Hl. simpl. unfold position_of. rewrite lookup_empty. simpl.
    apply LIMITS_positive in Hl. lia.
Qed.

End Sessions.

Lemma sample_trader_files_by_symbol : files_by_symbol sample_trader.
Proof.
  intros mem state mem' stdout objs orders H. unfold sample_trader in H.
  case_decide; injection H as _ _ <- <-.
  - intros p refs r Hp _. by apply lookup_singleton_Some in Hp as [<- _].
  - intros p refs r Hp _. by rewrite lookup_empty in Hp.
Qed.

Lemma session_within_limits_witness :
  ∃ lp, for_each (step sample_trader sample_data) [0; 100] sample_start = Ok lp ∧
        within_limits sample_data (lp_positions lp) ∧
        position_of (lp_positions lp) PEARLS = 5.
Proof.
  destruct (for_each (step sample_trader sample_data) [0; 100] sample_start)
    as [lp|e] eqn:Hrun; [|vm_compute in Hrun; discriminate].
  exists lp. split; [reflexivity|]. split.
  - apply (session_within_limits sample_trader sample_data 1 0 tt [0; 100] [] lp).
    + repeat constructor; vm_compute; discriminate.
    + exact sample_trader_files_by_symbol.
    + vm_compute. reflexivity.
    + exact Hrun.
  - vm_compute in Hrun. injection Hrun as <-. vm_compute. reflexivity.
Defined.

(** ** The shape of a session result (run_backtest, lines 200, 254-313) *)

Lemma tradable_row_wf ts rows st p row :
  tradable_row ts rows st p = Ok row →
  activity_row_wf row ∧ columns row !! 1%nat = Some (VInt ts)
  ∧ columns row !! 2%nat = Some (VStr p).
Proof.
  unfold tradable_row. intros H. apply bind_Ok in H as (price & _ & H).
  apply bind_Ok in H as (pnl & _ & H). injection H as <-.
  split; [|done]. split; simpl; [done | by eexists..].
Qed.

Lemma non_tradable_row_wf ts rows p row :
  non_tradable_row ts rows p = Ok row →
  activity_row_wf row ∧ columns row !! 1%nat = Some (VInt ts)
  ∧ columns row !! 2%nat = Some (VStr p)
  ∧ last (columns row) = Some (VFloat 0).
Proof.
  unfold non_tradable_row. intros H. apply bind_Ok in H as (price & _ & H).
  injection H as <-. split; [|done]. split; simpl; [done | by eexists..].
Qed.

Lemma Forall2_fmap_names (ps : list string) (rows : list ActivityLogRow) :
  Forall2 (λ p row, columns row !! 2%nat = Some (VStr p)) ps rows →
  (λ row, columns row !! 2%nat) <$> rows = (λ p, Some (VStr p)) <$> ps.
Proof. induction 1 as [|p row ps rows H _ IH]; csimpl; [done|]. by rewrite H, IH. Qed.

(** What a block guarantees row by row. *)
Lemma session_block_facts data ts block :
  session_block data ts block →
  Forall (λ row, activity_row_wf row ∧ columns row !! 1%nat = Some (VInt ts)) block ∧
  length block = (length (elements (tradable_products data))
                  + length (elements (non_tradable_products data)))%nat ∧
  (λ row, columns row !! 2%nat) <$> block
    = (λ p, Some (VStr p)) <$> (elements (tradable_products data)
                                ++ elements (non_tradable_products data)).
Proof.
  intros (rows1 & rows2 & -> & H1 & H2). split_and!.
  - apply Forall_app. split.
    + apply Forall_forall. intros row Hrow. apply list_elem_of_lookup in Hrow as [i Hi].
      by destruct (Forall2_lookup_r _ _ _ _ _ H1 Hi) as (p & _ & ? & ? & _).
    + apply Forall_forall. intros row Hrow. apply list_elem_of_lookup in Hrow as [i Hi].
      by destruct (Forall2_lookup_r _ _ _ _ _ H2 Hi) as (p & _ & ? & ? & _).
  - rewrite length_app. apply Forall2_length in H1, H2. lia.
  - rewrite !fmap_app. f_equal.
    + apply Forall2_fmap_names. eapply Forall2_impl; [exact H1|]. by intros p row (_ & _ & ?).
    + apply Forall2_fmap_names. eapply Forall2_impl; [exact H2|].
      by intros p row (_ & _ & ? & _).
Qed.

Section Output.
Context {Mem : Type}.
Variable trader_run : Trader Mem.
Variable data : DayData.

(** The rows one timestamp appends to the three logs. *)
Lemma step_logs (lp lp' : Loop Mem) (ts : Z) :
  step trader_run data lp ts = Ok lp' →
  dr_round (lp_result lp') = dr_round (lp_result lp) ∧
  dr_day (lp_result lp') = dr_day (lp_result lp) ∧
  (∃ stdout, sandbox_logs (lp_result lp')
             = sandbox_logs (lp_result lp) ++ [mkSandboxLogRow ts stdout]) ∧
  (∃ dropped, submission_logs (lp_result lp')
              = submission_logs (lp_result lp) ++ (rejection_row ts <$> dropped)) ∧
  (∃ block, activity_logs (lp_result lp') = activity_logs (lp_result lp) ++ block ∧
            session_block data ts block).
Proof.
  intros H. apply step_Ok in H as (state & mem' & stdout & objs & objs' & orders
    & accepted & submission & eng & act1 & act2 & _ & _ & Hg & _ & Ha1 & Ha2 & ->).
  simpl. split_and!; [done | done | by eexists | |].
  - destruct (limit_guard_spec _ _ _ _ _ _ _ _
                (NoDup_elements (tradable_products data)) Hg) as (_ & _ & ->).
    by eexists.
  - apply append_rows_spec in Ha1 as (rows1 & -> & H1).
    apply append_rows_spec in Ha2 as (rows2 & -> & H2).
    exists (rows1 ++ rows2). rewrite <- app_assoc. split; [done|].
    exists rows1, rows2. split_and!; [done | |].
    + eapply Forall2_impl; [exact H1|]. intros p row Hmk.
      by apply tradable_row_wf in Hmk.
    + eapply Forall2_impl; [exact H2|]. intros p row Hmk.
      by apply non_tradable_row_wf in Hmk.
Qed.

(** The rows a run over a list of timestamps appends. *)
Lemma run_logs (tss : list Z) : ∀ lp lp' : Loop Mem,
  for_each (step trader_run data) tss lp = Ok lp' →
  dr_round (lp_result lp') = dr_round (lp_result lp) ∧
  dr_day (lp_result lp') = dr_day (lp_result lp) ∧
  sb_timestamp <$> sandbox_logs (lp_result lp')
    = (sb_timestamp <$> sandbox_logs (lp_result lp)) ++ tss ∧
  (∃ rejections, submission_logs (lp_result lp')
                 = submission_logs (lp_result lp) ++ rejections ∧
                 Forall (λ row, sm_timestamp row ∈ tss) rejections) ∧
  ∃ blocks, activity_logs (lp_result lp')
            = activity_logs (lp_result lp) ++ concat blocks ∧
    Forall2 (session_block data) tss blocks.
Proof.
  induction tss as [|ts tss IH]; intros lp lp' H.
  - injection H as <-. rewrite !app_nil_r. split_and!; try done.
    + exists []. by rewrite app_nil_r.
    + exists []. rewrite app_nil_r. split; [done | constructor].
  - cbn [for_each] in H. apply bind_Ok in H as (lp1 & Hstep & Hrun).
    apply step_logs in Hstep
      as (Hr1 & Hd1 & (out & Hsb1) & (dropped & Hsm1) & (block & Hact1 & Hblock1)).
    destruct (IH _ _ Hrun)
      as (Hr & Hd & Hsb & (rej & Hsm & Hrej) & (blocks & Hact & Hblocks)).
    split_and!.
    + congruence.
    + congruence.
    + rewrite Hsb, Hsb1, fmap_app, <- app_assoc. done.
    + exists ((rejection_row ts <$> dropped) ++ rej).
      rewrite Hsm, Hsm1, <- app_assoc. split; [done|].
      apply Forall_app. split.
      * apply Forall_fmap, Forall_forall. intros q _. simpl. left.
      * eapply Forall_impl; [exact Hrej|]. intros row Hrow. by right.
    + exists (block :: blocks). rewrite Hact, Hact1, <- app_assoc. simpl.
      split; [done|]. by constructor.
Qed.

End Output.

Lemma feed_has_product (data : DayData) :
  prices data ≠ [] →
  (0 < length (elements (tradable_products data))
       + length (elements (non_tradable_products data)))%nat.
Proof.
  intros Hne. destruct (prices data) as [|row rows] eqn:E; [done|].
  assert (product row ∈ product <$> prices data) as Hp by (rewrite E; left).
  apply products_of_feed in Hp as [Hp|Hp]; apply elem_of_elements in Hp.
  - destruct (elements (tradable_products data)); [by apply elem_of_nil in Hp|].
    simpl. lia.
  - destruct (elements (non_tradable_products data)); [by apply elem_of_nil in Hp|].
    simpl. lia.
Qed.

Lemma feed_has_timestamp (data : DayData) : prices data ≠ [] ↔ timestamps data ≠ [].
Proof.
  split.
  - intros Hne Hts. destruct (prices data) as [|row rows] eqn:E; [done|].
    assert (timestamp row ∈ timestamps data) as Hin.
    { unfold timestamps. rewrite merge_sort_Permutation, elem_of_keys.
      apply prices_index_keys. fold (prices data). rewrite E. left. }
    rewrite Hts in Hin. by apply elem_of_nil in Hin.
  - intros Hts Hnil. apply Hts. unfold timestamps, prices_by_timestamp.
    rewrite Hnil. done.
Qed.

Section SessionResults.
Context {Mem : Type}.
Variable trader_run : Trader Mem.
Variable data : DayData.

Lemma run_backtest_Ok (round day : Z) (mem : Mem) (res : DayResult) :
  run_backtest trader_run data round day mem = Ok res →
  ∃ lp, for_each (step trader_run data) (timestamps data)
                 (mkLoop mem ∅ ∅ ∅ (mkDayResult round day [] [] [])) = Ok lp ∧
        res = lp_result lp ∧ activity_logs res ≠ [].
Proof.
  unfold run_backtest, run_loop. intros H. apply bind_Ok in H as (lp & Hrun & H).
  apply bind_Ok in H as (row & Hlast & H). injection H as <-.
  exists lp. split_and!; [done | done |].
  apply from_option_Ok in Hlast. intros Hnil. by rewrite Hnil in Hlast.
Qed.

(** X10.  The result of a replayed session: the round and day it was given;
    one diagnostic row per replayed timestamp, in ascending order; rejection
    rows stamped with replayed timestamps; and an activity log that is the
    concatenation, timestamp by timestamp, of blocks of one 17-column row
    per product (integer timestamp, product name, float P&L), each row
    stamped with the timestamp of its block; a block names the tradable
    products first and the non-tradable ones after them. *)
Theorem session_result_shape (round day : Z) (mem : Mem) (res : DayResult) :
  run_backtest trader_run data round day mem = Ok res →
  dr_round res = round ∧ dr_day res = day ∧
  sb_timestamp <$> sandbox_logs res = timestamps data ∧
  Forall (λ row, sm_timestamp row ∈ timestamps data) (submission_logs res) ∧
  ∃ blocks, activity_logs res = concat blocks ∧
    Forall2 (λ ts block,
               Forall (λ row, activity_row_wf row ∧
                              columns row !! 1%nat = Some (VInt ts)) block ∧
               length block = (length (elements (tradable_products data))
                               + length (elements (non_tradable_products data)))%nat ∧
               (λ row, columns row !! 2%nat) <$> block
                 = (λ p, Some (VStr p)) <$> (elements (tradable_products data)
                                             ++ elements (non_tradable_products data)))
            (timestamps data) blocks.
Proof.
  intros H. apply run_backtest_Ok in H as (lp & Hrun & -> & _).
  apply run_logs in Hrun as (Hr & Hd & Hsb & (rej & Hsm & Hrej) & (blocks & Hact & Hb)).
  simpl in *. split_and!; try done.
  - by rewrite Hsm.
  - exists blocks. split; [done|]. eapply Forall2_impl; [exact Hb|].
    intros ts block. apply session_block_facts.
Qed.

(** X11.  On a feed without price rows the loop body never runs and the
    read of the last activity row raises IndexError.  On a feed with rows
    that read always succeeds: the session returns the result of the loop
    whenever the loop itself does not raise. *)
Theorem run_backtest_returns (round day : Z) (mem : Mem) :
  (prices data = [] →
     run_backtest trader_run data round day mem = Raise IndexError) ∧
  (prices data ≠ [] →
     ∀ lp, run_loop trader_run data round day mem = Ok lp →
           run_backtest trader_run data round day mem = Ok (lp_result lp)).
Proof.
  split.
  - intros Hnil. unfold run_backtest, run_loop, timestamps, prices_by_timestamp.
    rewrite Hnil. reflexivity.
  - intros Hne lp Hrun. unfold run_backtest. rewrite Hrun. simpl.
    unfold run_loop in Hrun.
    apply run_logs in Hrun as (_ & _ & _ & _ & (blocks & Hact & Hb)).
    simpl in Hact.
    pose proof (feed_has_product data Hne) as Hn.
    apply feed_has_timestamp in Hne.
    destruct (last (activity_logs (lp_result lp))) as [row|] eqn:Hlast; [done|].
    exfalso. apply last_None in Hlast. rewrite Hact in Hlast.
    destruct Hb as [|ts block tss blocks' (_ & Hlen & _)%session_block_facts _]; [done|].
    simpl in Hlast. apply app_eq_nil in Hlast as [Hblock _].
    rewrite Hblock in Hlen. simpl in Hlen. lia.
Qed.

End SessionResults.

(** A session result ends with the block of its last timestamp; all earlier
    rows carry another timestamp. *)
Lemma session_final_block {Mem : Type} (trader_run : Trader Mem) (data : DayData)
    (round day : Z) (mem : Mem) (res : DayResult) :
  run_backtest trader_run data round day mem = Ok res →
  ∃ T older final,
    final_timestamp res = Some T ∧
    activity_logs res = older ++ final ∧
    Forall (λ row, ∃ ts, columns row !! 1%nat = Some (VInt ts) ∧ ts ≠ T) older ∧
    Forall (λ row, activity_row_wf row ∧ columns row !! 1%nat = Some (VInt T)) final ∧
    Forall activity_row_wf (activity_logs res) ∧
    session_block data T final ∧
    final ≠ [].
Proof.
  intros H. pose proof (run_backtest_Ok _ _ _ _ _ _ H) as (lp & Hrun & -> & Hne).
  apply run_logs in Hrun as (_ & _ & Hsb & _ & (blocks & Hact & Hb)).
  simpl in Hsb, Hact.
  pose proof (sorted_keys (prices_by_timestamp data)) as Hsorted.
  fold (timestamps data) in Hsorted.
  assert (timestamps data ≠ [] →
          (0 < length (elements (tradable_products data))
               + length (elements (non_tradable_products data)))%nat) as Hn.
  { intros Hts. by apply feed_has_product, feed_has_timestamp. }
  destruct (timestamps data) as [|t0 tss0 _] using rev_ind.
  { apply Forall2_nil_inv_l in Hb as ->. by rewrite Hact in Hne. }
  apply Forall2_app_inv_l in Hb as (bpre & blast & Hbpre & Hblast & ->).
  apply Forall2_cons_inv_l in Hblast as (final & rest & Hfb & Hrest & ->).
  pose proof (session_block_facts _ _ _ Hfb) as (Hfinal & Hlen & _).
  apply Forall2_nil_inv_l in Hrest as ->.
  exists t0, (concat bpre), final.
  rewrite concat_app in Hact. simpl in Hact. rewrite app_nil_r in Hact.
  assert (Forall (λ row, activity_row_wf row ∧
                         ∃ ts, columns row !! 1%nat = Some (VInt ts) ∧ ts ≠ t0)
                 (concat bpre)) as Holder.
  { apply Forall_concat. apply Forall_forall. intros block Hblock.
    apply list_elem_of_lookup in Hblock as [i Hi].
    destruct (Forall2_lookup_r _ _ _ _ _ Hbpre Hi) as (ts & Hts & (Hrows & _)%session_block_facts).
    eapply Forall_impl; [exact Hrows|]. intros row [Hwf Hcol]. split; [done|].
    exists ts. split; [done|].
    assert (ts < t0); [|lia].
    eapply (StronglySorted_app_1_elem_of Z.lt); [exact Hsorted | | left].
    by eapply list_elem_of_lookup_2. }
  split_and!.
  - unfold final_timestamp. rewrite <- (fmap_last sb_timestamp), Hsb. by rewrite last_snoc.
  - done.
  - eapply Forall_impl; [exact Holder|]. by intros row [_ ?].
  - done.
  - rewrite Hact. apply Forall_app. split.
    + eapply Forall_impl; [exact Holder|]. by intros row [? _].
    + eapply Forall_impl; [exact Hfinal|]. by intros row [? _].
  - done.
  - intros Hnil. rewrite Hnil in Hlen. simpl in Hlen.
    assert (tss0 ++ [t0] ≠ []) as Hts by (by destruct tss0).
    specialize (Hn Hts). lia.
Qed.

(** X12.  Merging the results of two replayed sessions never raises,
    whatever the feeds, the algorithms and the continuity flag; the
    diagnostic rows of the merged result carry the timestamps of the first
    session followed by those of the second shifted by the last timestamp
    of the first plus 100. *)
Theorem merge_of_sessions {Mem1 Mem2 : Type}
    (trader1 : Trader Mem1) (trader2 : Trader Mem2) (data1 data2 : DayData)
    (round1 day1 round2 day2 : Z) (mem1 : Mem1) (mem2 : Mem2)
    (a b : DayResult) (flag : bool) :
  run_backtest trader1 data1 round1 day1 mem1 = Ok a →
  run_backtest trader2 data2 round2 day2 mem2 = Ok b →
  ∃ m T,
    merge_results a b flag = Ok m ∧
    last (timestamps data1) = Some T ∧
    sb_timestamp <$> sandbox_logs m
      = timestamps data1 ++ ((λ ts, ts + (T + 100)) <$> timestamps data2) ∧
    length (activity_logs m) = (length (activity_logs a) + length (activity_logs b))%nat.
Proof.
  intros Ha Hb.
  destruct (session_final_block _ _ _ _ _ _ Ha)
    as (T & older & final & HT & Hact & Holder & Hfinal & _).
  destruct (session_final_block _ _ _ _ _ _ Hb) as (_ & _ & _ & _ & _ & _ & _ & Hbwf & _).
  assert (Forall activity_row_wf final) as Hwf
    by (eapply Forall_impl; [exact Hfinal | by intros ? [? _]]).
  set (offsets := offset_binding flag <$> final).
  assert (collect_offsets T flag (reverse (activity_logs a)) [] = Ok offsets) as Hoff.
  { rewrite Hact, reverse_app, collect_offsets_block by done.
    rewrite collect_offsets_stop by done. by rewrite app_nil_r. }
  destruct (rebase_all (T + 100) offsets (activity_logs b) Hbwf) as (rebased & Hreb).
  { intros key. by apply offsets_numbers. }
  apply run_backtest_Ok in Ha as (lpa & Hruna & -> & _).
  apply run_backtest_Ok in Hb as (lpb & Hrunb & -> & _).
  apply run_logs in Hruna as (_ & _ & Hsba & _). apply run_logs in Hrunb as (_ & _ & Hsbb & _).
  simpl in Hsba, Hsbb.
  eexists _, T. split_and!.
  - apply merge_results_Ok. exists T, offsets, rebased. by split_and!.
  - unfold final_timestamp in HT. by rewrite <- Hsba, fmap_last.
  - simpl. rewrite fmap_app, Hsba, <- list_fmap_compose. f_equal.
    rewrite <- Hsbb, <- list_fmap_compose. done.
  - simpl. rewrite length_app. f_equal. symmetry. by eapply Forall2_length.
Qed.

Lemma session_result_shape_witness :
  ∃ res, run_backtest sample_trader sample_data 1 0 tt = Ok res ∧
         sb_timestamp <$> sandbox_logs res = [0; 100] ∧
         length (activity_logs res) = 2%nat.
Proof.
  destruct (run_backtest sample_trader sample_data 1 0 tt) as [res|e] eqn:Hrun;
    [|vm_compute in Hrun; discriminate].
  destruct (session_result_shape sample_trader sample_data 1 0 tt res Hrun)
    as (_ & _ & Hsb & _).
  exists res. split; [reflexivity|]. split; [exact Hsb|].
  vm_compute in Hrun. injection Hrun as <-. reflexivity.
Defined.

Lemma merge_of_sessions_witness :
  ∃ m, merge_results
         (match run_backtest sample_trader sample_data 1 0 tt with
          | Ok res => res | Raise _ => earlier_result end)
         (match run_backtest sample_trader traded_data 1 1 tt with
          | Ok res => res | Raise _ => later_result end) true = Ok m ∧
       sb_timestamp <$> sandbox_logs m = [0; 100; 200; 300].
Proof.
  destruct (run_backtest sample_trader sample_data 1 0 tt) as [a|e] eqn:Ha;
    [|vm_compute in Ha; discriminate].
  destruct (run_backtest sample_trader traded_data 1 1 tt) as [b|e] eqn:Hb;
    [|vm_compute in Hb; discriminate].
  destruct (merge_of_sessions sample_trader sample_trader sample_data traded_data
              1 0 1 1 tt tt a b true Ha Hb) as (m & T & Hm & HT & Hsb & _).
  exists m. split; [exact Hm|]. rewrite Hsb.
  vm_compute in HT. injection HT as <-. vm_compute. reflexivity.
Defined.

Lemma run_backtest_returns_witness :
  run_backtest sample_trader (mkDayData [] []) 1 0 tt = Raise IndexError ∧
  ∃ res, run_backtest sample_trader sample_data 1 0 tt = Ok res.
Proof.
  split.
  - destruct (run_backtest_returns sample_trader (mkDayData [] []) 1 0 tt) as [Hraise _].
    by apply Hraise.
  - destruct (run_backtest_returns sample_trader sample_data 1 0 tt) as [_ Hok].
    destruct (run_loop sample_trader sample_data 1 0 tt) as [lp|e] eqn:Hloop;
      [|vm_compute in Hloop; discriminate].
    exists (lp_result lp). by apply Hok.
Defined.

(** ** The matching loop on arbitrary books: failures and the ledger *)

Lemma booked_refl st : booked st st.
Proof.
  intros s. exists []. rewrite app_nil_r. unfold net, total_cost. simpl.
  split_and!; [done | lia | lia].
Qed.

Lemma total_cost_app l1 l2 : total_cost (l1 ++ l2) = total_cost l1 + total_cost l2.
Proof.
  unfold total_cost. rewrite fmap_app. induction (cost <$> l1) as [|x l IH]; simpl; lia.
Qed.

Lemma booked_trans st1 st2 st3 : booked st1 st2 → booked st2 st3 → booked st1 st3.
Proof.
  intros H12 H23 s. destruct (H12 s) as (n1 & Ht1 & Hp1 & Hc1).
  destruct (H23 s) as (n2 & Ht2 & Hp2 & Hc2).
  exists (n1 ++ n2). rewrite net_app, total_cost_app.
  split_and!; [by rewrite Ht2, Ht1, app_assoc | lia | lia].
Qed.

Lemma position_of_insert_ne (m : gmap string Z) (s s' : string) (x : Z) :
  s ≠ s' → position_of (<[s := x]> m) s' = position_of m s'.
Proof. intros Hne. unfold position_of. by rewrite lookup_insert_ne. Qed.

Lemma trades_of_insert_ne (m : gmap string (list Trade)) (s s' : string) x :
  s ≠ s' → trades_of (<[s := x]> m) s' = trades_of m s'.
Proof. intros Hne. unfold trades_of. by rewrite lookup_insert_ne. Qed.

(** One fill at a price the facing half holds: it never raises, touches
    that price only and books its trade. *)
Lemma fill_books sd sym ts price q st d v :
  order_depths st !! sym = Some d →
  facing sd d !! price = Some v →
  ∃ st' q' d',
    fill_of sd sym ts price q st = Ok (st', q') ∧
    order_depths st' = <[sym := d']> (order_depths st) ∧
    (∀ p, p ≠ price → facing sd d' !! p = facing sd d !! p) ∧
    booked st st'.
Proof.
  intros Hd Hv. destruct sd; simpl in *.
  - unfold buy_fill. rewrite Hd. simpl. rewrite Hv. simpl.
    eexists _, _, _. split; [reflexivity|]. simpl. split; [reflexivity|]. split.
    + intros p Hp. simpl.
      case_decide; [by rewrite lookup_delete_ne | by rewrite lookup_insert_ne].
    + intros s. simpl. destruct (decide (sym = s)) as [<-|Hne].
      * eexists [_]. rewrite trades_of_insert, !position_of_insert.
        split; [reflexivity|]. unfold net, total_cost, cost, signed_quantity. simpl.
        lia.
      * exists []. rewrite trades_of_insert_ne, !position_of_insert_ne by done.
        rewrite app_nil_r. unfold net, total_cost. simpl. split_and!; [done | lia | lia].
  - unfold sell_fill. rewrite Hd. simpl. rewrite Hv. simpl.
    eexists _, _, _. split; [reflexivity|]. simpl. split; [reflexivity|]. split.
    + intros p Hp. simpl.
      case_decide; [by rewrite lookup_delete_ne | by rewrite lookup_insert_ne].
    + intros s. simpl. destruct (decide (sym = s)) as [<-|Hne].
      * eexists [_]. rewrite trades_of_insert, !position_of_insert.
        split; [reflexivity|]. unfold net, total_cost, cost, signed_quantity. simpl.
        lia.
      * exists []. rewrite trades_of_insert_ne, !position_of_insert_ne by done.
        rewrite app_nil_r. unfold net, total_cost. simpl. split_and!; [done | lia | lia].
Qed.

Lemma fill_loop_books sd sym ts ps : ∀ q st d,
  order_depths st !! sym = Some d →
  NoDup ps →
  (∀ p, p ∈ ps → is_Some (facing sd d !! p)) →
  ∃ st' q',
    fill_loop (fill_of sd sym ts) ps q st = Ok (st', q') ∧
    dom (order_depths st') = dom (order_depths st) ∧
    booked st st'.
Proof.
  induction ps as [|p ps IH]; intros q st d Hd Hnd Hlv; cbn [fill_loop].
  - exists st, q. split_and!; [done | done | apply booked_refl].
  - apply NoDup_cons in Hnd as [Hp Hnd].
    destruct (Hlv p) as [v Hv]; [left|].
    destruct (fill_books sd sym ts p q st d v Hd Hv) as (st1 & q1 & d1 & Hfill & Hd1 & Hf1 & Hb1).
    rewrite Hfill. cbn [mbind result_bind].
    assert (dom (order_depths st1) = dom (order_depths st)) as Hdom.
    { rewrite Hd1. apply dom_insert_lookup_L. by rewrite Hd. }
    destruct (decide (q1 = 0)) as [Hz|Hnz].
    + by exists st1, q1.
    + destruct (IH q1 st1 d1) as (st' & q' & Hloop & Hdom' & Hb'); [| done | |].
      { rewrite Hd1. apply lookup_insert_eq. }
      { intros p' Hp'. rewrite Hf1 by (intros ->; done). apply Hlv. by right. }
      exists st', q'. split_and!; [done | congruence | by eapply booked_trans].
Qed.

(** One order: it raises exactly when its symbol has no book. *)
Lemma match_order_books ts o st :
  match st.(order_depths) !! o_symbol o with
  | Some _ =>
      ∃ st' o', match_order ts o st = Ok (st', o') ∧
                o_symbol o' = o_symbol o ∧
                dom (order_depths st') = dom (order_depths st) ∧
                booked st st'
  | None => match_order ts o st = Raise KeyError
  end.
Proof.
  unfold match_order. destruct (order_depths st !! o_symbol o) as [d|] eqn:Hd; [|done].
  cbn [from_option mbind result_bind].
  destruct (decide (o_quantity o > 0)); [|destruct (decide (o_quantity o < 0))].
  - destruct (fill_loop_books Buy (o_symbol o) ts (ask_matches d (o_price o))
                (o_quantity o) st d Hd) as (st' & q' & Hloop & Hdom & Hb).
    { apply (matches_NoDup Buy). }
    { intros p Hp. by apply (elem_of_matches Buy) in Hp as [? _]. }
    simpl in Hloop. rewrite Hloop. by eexists _, _.
  - destruct (fill_loop_books Sell (o_symbol o) ts (bid_matches d (o_price o))
                (o_quantity o) st d Hd) as (st' & q' & Hloop & Hdom & Hb).
    { apply (matches_NoDup Sell). }
    { intros p Hp. by apply (elem_of_matches Sell) in Hp as [? _]. }
    simpl in Hloop. rewrite Hloop. by eexists _, _.
  - exists st, o. split_and!; [done | done | done | apply booked_refl].
Qed.

Lemma match_batch_books ts : ∀ refs st (objs : store),
  (Forall (λ r, is_Some (order_depths st !! o_symbol (objs r))) refs ∧
   ∃ st' (objs' : store),
     match_batch ts refs (st, objs) = Ok (st', objs') ∧
     dom (order_depths st') = dom (order_depths st) ∧
     booked st st' ∧
     ∀ r, o_symbol (objs' r) = o_symbol (objs r))
  ∨ (¬ Forall (λ r, is_Some (order_depths st !! o_symbol (objs r))) refs ∧
     match_batch ts refs (st, objs) = Raise KeyError).
Proof.
  induction refs as [|r refs IH]; intros st objs.
  - left. split; [done|]. exists st, objs. split_and!; [done | done | apply booked_refl | done].
  - rewrite match_batch_cons. pose proof (match_order_books ts (objs r) st) as Hm.
    destruct (order_depths st !! o_symbol (objs r)) as [d|] eqn:Hd.
    + destruct Hm as (st1 & o1 & Hm & Ho1 & Hdom1 & Hb1). rewrite Hm.
      cbn [mbind result_bind fst snd].
      assert (∀ r', o_symbol ((<[r := o1]> objs : store) r') = o_symbol (objs r')) as Hsym.
      { intros r'. destruct (decide (r = r')) as [<-|Hne].
        - by rewrite fn_lookup_insert.
        - by rewrite fn_lookup_insert_ne. }
      assert (∀ s, is_Some (order_depths st1 !! s) ↔ is_Some (order_depths st !! s)) as Hsome.
      { intros s. by rewrite <- !elem_of_dom, Hdom1. }
      assert (Forall (λ r', is_Some (order_depths st1 !! o_symbol ((<[r := o1]> objs : store) r'))) refs
              ↔ Forall (λ r', is_Some (order_depths st !! o_symbol (objs r'))) refs) as Hall.
      { apply Forall_proper; [|done]. intros r'. by rewrite Hsym, Hsome. }
      destruct (IH st1 (<[r := o1]> objs)) as [[Hrefs (st' & objs' & Hb & Hdom & Hbk & Hs)]|[Hrefs Hb]].
      * left. split.
        { constructor; [by rewrite Hd | by apply Hall]. }
        exists st', objs'. split_and!; [done | congruence | by eapply booked_trans |].
        intros r'. by rewrite Hs, Hsym.
      * right. split; [|done]. intros Hc. apply Hrefs, Hall. by apply Forall_cons in Hc as [_ ?].
    + rewrite Hm. right. split; [|done]. intros Hc. apply Forall_cons in Hc as [[? Hc] _].
      congruence.
Qed.

Lemma match_all_books ts accepted : ∀ products st (objs : store),
  (orders_have_books (order_depths st) accepted objs products ∧
   ∃ st' (objs' : store),
     match_all ts accepted products (st, objs) = Ok (st', objs') ∧
     dom (order_depths st') = dom (order_depths st) ∧
     booked st st')
  ∨ (¬ orders_have_books (order_depths st) accepted objs products ∧
     match_all ts accepted products (st, objs) = Raise KeyError).
Proof.
  unfold orders_have_books.
  induction products as [|p products IH]; intros st objs.
  - left. split; [done|]. exists st, objs. split_and!; [done | done | apply booked_refl].
  - rewrite match_all_cons.
    destruct (match_batch_books ts (default [] (accepted !! p)) st objs)
      as [[Hrefs (st1 & objs1 & Hb1 & Hdom1 & Hbk1 & Hs1)]|[Hrefs Hb1]].
    + rewrite Hb1. cbn [mbind result_bind].
      assert (Forall (λ q, Forall (λ r, is_Some (order_depths st1 !! o_symbol (objs1 r)))
                                  (default [] (accepted !! q))) products
              ↔ Forall (λ q, Forall (λ r, is_Some (order_depths st !! o_symbol (objs r)))
                                    (default [] (accepted !! q))) products) as Hall.
      { apply Forall_proper; [|done]. intros q. apply Forall_proper; [|done].
        intros r. by rewrite Hs1, <- !elem_of_dom, Hdom1. }
      destruct (IH st1 objs1) as [[Hps (st' & objs' & Hb & Hdom & Hbk)]|[Hps Hb]].
      * left. split; [constructor; [done | by apply Hall]|].
        exists st', objs'. split_and!; [done | congruence | by eapply booked_trans].
      * right. split; [|done]. intros Hc. apply Hps, Hall. by apply Forall_cons in Hc as [_ ?].
    + rewrite Hb1. right. split; [|done]. intros Hc. by apply Forall_cons in Hc as [? _].
Qed.

(** X13.  The matching loop of a timestamp returns only if every order it
    replays names a symbol that has a book, and it neither adds nor removes
    a book. *)
Theorem match_all_needs_books (ts : Z) (accepted : gmap string (list nat))
    (products : list string) (st st' : Engine) (objs objs' : store) :
  match_all ts accepted products (st, objs) = Ok (st', objs') →
  orders_have_books (order_depths st) accepted objs products ∧
  dom (order_depths st') = dom (order_depths st).
Proof.
  intros H.
  destruct (match_all_books ts accepted products st objs)
    as [[Hall (st2 & objs2 & Hm & Hdom & _)]|[_ Hm]]; [|congruence].
  rewrite H in Hm. injection Hm as <- <-. by split.
Qed.

Section Ledger.
Context {Mem : Type}.
Variable trader_run : Trader Mem.
Variable data : DayData.

(** X14.  After every replayed timestamp, for every symbol, the position
    moved by the net quantity of the own trades of this timestamp and the
    cash by their total cost, whatever the algorithm ordered. *)
Theorem step_ledger (lp lp' : Loop Mem) (ts : Z) (s : string) :
  step trader_run data lp ts = Ok lp' →
  position_of (lp_positions lp') s
    = position_of (lp_positions lp) s + net (trades_of (lp_own_trades lp') s) ∧
  position_of (lp_seashells lp') s
    = position_of (lp_seashells lp) s - total_cost (trades_of (lp_own_trades lp') s).
Proof.
  intros H. apply step_Ok in H as (state & mem' & stdout & objs & objs' & orders
    & accepted & submission & eng & act1 & act2 & _ & _ & _ & Hm & _ & _ & ->).
  simpl.
  destruct (match_all_books ts accepted (elements (tradable_products data))
              (mkEngine (ts_order_depths state) (lp_positions lp) (lp_seashells lp) ∅) objs)
    as [[_ (st' & objs'' & Hm' & _ & Hbk)]|[_ Hm']]; [|congruence].
  rewrite Hm in Hm'. injection Hm' as <- <-.
  destruct (Hbk s) as (new & Ht & Hp & Hc). simpl in Ht, Hp, Hc.
  unfold trades_of at 2 in Ht. rewrite lookup_empty in Ht. simpl in Ht.
  by rewrite Ht.
Qed.

End Ledger.

Lemma match_all_needs_books_witness :
  ∃ st' (objs' : store),
    match_all 0 sample_orders [PEARLS] (sample_engine, sample_store 3) = Ok (st', objs') ∧
    orders_have_books (order_depths sample_engine) sample_orders (sample_store 3) [PEARLS] ∧
    dom (order_depths st') = dom (order_depths sample_engine).
Proof.
  destruct (match_all 0 sample_orders [PEARLS] (sample_engine, sample_store 3))
    as [[st' objs']|e] eqn:Hm; [|vm_compute in Hm; discriminate].
  exists st', objs'. split; [reflexivity|].
  exact (match_all_needs_books 0 sample_orders [PEARLS] sample_engine st'
           (sample_store 3) objs' Hm).
Defined.

Lemma step_ledger_witness :
  position_of (lp_positions sample_after_buy) PEARLS = 5 ∧
  position_of (lp_seashells sample_after_buy) PEARLS = -50.
Proof.
  assert (step sample_trader sample_data sample_start 0 = Ok sample_after_buy) as Hstep.
  { unfold sample_after_buy.
    destruct (step sample_trader sample_data sample_start 0) eqn:E;
      [reflexivity | vm_compute in E; discriminate]. }
  destruct (step_ledger sample_trader sample_data sample_start sample_after_buy 0 PEARLS Hstep)
    as [Hp Hc].
  split.
  - rewrite Hp. vm_compute. reflexivity.
  - rewrite Hc. vm_compute. reflexivity.
Defined.

(** ** Merging well-formed results, and chains of merges *)

Lemma offset_of_number offsets key :
  Forall (λ kv : value * value, is_number kv.2) offsets →
  is_number (offset_of offsets key).
Proof.
  induction 1 as [|[k v] offsets Hv _ IH]; simpl; [done|]. by destruct (py_eqb k key).
Qed.

Lemma collect_offsets_wf T flag : ∀ rows offs,
  Forall activity_row_wf rows →
  Forall (λ kv : value * value, is_number kv.2) offs →
  ∃ offsets, collect_offsets T flag rows offs = Ok offsets ∧
             Forall (λ kv : value * value, is_number kv.2) offsets.
Proof.
  induction rows as [|row rows IH]; intros offs Hwf Hoffs.
  - by exists offs.
  - apply Forall_cons in Hwf as [Hrow Hwf]. cbn [collect_offsets].
    pose proof Hrow as [Hlen (ts & Hts) (p & Hp) (pnl & Hpnl)].
    unfold row_timestamp. rewrite Hts. cbn [from_option mbind result_bind].
    destruct (negb (py_eqb (VInt ts) (VInt T))); [by exists offs|].
    rewrite Hp. cbn [from_option mbind result_bind].
    rewrite (wf_last _ Hrow), Hpnl.
    destruct flag; cbn [from_option mbind result_bind]; apply IH; try done;
      by constructor.
Qed.

Lemma rebase_row_wf off offsets row row' :
  activity_row_wf row →
  (∀ key, is_number (offset_of offsets key)) →
  rebase_row off offsets row = Ok row' →
  activity_row_wf row'.
Proof.
  intros Hwf Hnum H. pose proof Hwf as [Hlen _ (p & Hp) _].
  unfold rebase_row in H. rewrite Hp in H. cbn [from_option mbind result_bind] in H.
  destruct (activity_with_offset_wf row off (offset_of offsets (VStr p)) Hwf (Hnum _))
    as (row2 & ts & pnl & pnl' & Hok & Hts & Hpnl & Hadd & Hts' & Hpnl' & _).
  rewrite Hok in H. injection H as <-.
  destruct (activity_with_offset_frame _ _ _ _ Hok) as [Hlen' Hframe].
  split.
  - by rewrite Hlen'.
  - by eexists.
  - exists p. rewrite Hframe; [done | done | by rewrite Hlen].
  - destruct (offset_of offsets (VStr p)); simpl in Hadd; try done;
      injection Hadd as <-; by eexists.
Qed.

Lemma merge_results_wf (a b : DayResult) (flag : bool) :
  sandbox_logs a ≠ [] →
  Forall activity_row_wf (activity_logs a) →
  Forall activity_row_wf (activity_logs b) →
  ∃ m T,
    merge_results a b flag = Ok m ∧
    final_timestamp a = Some T ∧
    dr_round m = dr_round a ∧ dr_day m = dr_day a ∧
    sb_timestamp <$> sandbox_logs m
      = (sb_timestamp <$> sandbox_logs a)
          ++ ((λ ts, ts + (T + 100)) <$> (sb_timestamp <$> sandbox_logs b)) ∧
    length (submission_logs m)
      = (length (submission_logs a) + length (submission_logs b))%nat ∧
    length (activity_logs m)
      = (length (activity_logs a) + length (activity_logs b))%nat ∧
    Forall activity_row_wf (activity_logs m).
Proof.
  intros Hne Ha Hb.
  destruct (last (sandbox_logs a)) as [last_row|] eqn:Hlast;
    [|by apply last_None in Hlast].
  set (T := sb_timestamp last_row).
  destruct (collect_offsets_wf T flag (reverse (activity_logs a)) [])
    as (offsets & Hoff & Hnum); [by apply Forall_reverse | done |].
  assert (∀ key, is_number (offset_of offsets key)) as Hnums
    by (intros key; by apply offset_of_number).
  destruct (rebase_all (T + 100) offsets (activity_logs b) Hb Hnums) as (rebased & Hreb).
  eexists _, T. split_and!.
  - apply merge_results_Ok. exists T, offsets, rebased.
    split_and!; [by unfold final_timestamp; rewrite Hlast | done | done | done].
  - unfold final_timestamp. by rewrite Hlast.
  - done.
  - done.
  - simpl. rewrite fmap_app, <- !list_fmap_compose. done.
  - simpl. by rewrite length_app, length_fmap.
  - simpl. rewrite length_app. f_equal. symmetry. by eapply Forall2_length.
  - simpl. apply Forall_app. split; [done|].
    apply Forall_forall. intros row' Hrow'.
    apply list_elem_of_lookup in Hrow' as [i Hi].
    destruct (Forall2_lookup_r _ _ _ _ _ Hreb Hi) as (row & Hrow & Hrebase).
    eapply rebase_row_wf; [| exact Hnums | exact Hrebase].
    rewrite Forall_forall in Hb. apply Hb. by eapply list_elem_of_lookup_2.
Qed.

(** X15.  Merging raises IndexError when the earlier result has no
    diagnostic row.  Otherwise, on results whose activity rows have the
    shape the replay loop writes, it never raises, and its result has that
    shape again: it can be merged further. *)
Theorem merge_results_total (a b : DayResult) (flag : bool) :
  (sandbox_logs a = [] → merge_results a b flag = Raise IndexError) ∧
  (sandbox_logs a ≠ [] →
   Forall activity_row_wf (activity_logs a) →
   Forall activity_row_wf (activity_logs b) →
   ∃ m, merge_results a b flag = Ok m ∧
        sandbox_logs m ≠ [] ∧
        Forall activity_row_wf (activity_logs m) ∧
        length (sandbox_logs m) = (length (sandbox_logs a) + length (sandbox_logs b))%nat ∧
        length (submission_logs m)
          = (length (submission_logs a) + length (submission_logs b))%nat ∧
        length (activity_logs m)
          = (length (activity_logs a) + length (activity_logs b))%nat).
Proof.
  split.
  - intros Hnil. unfold merge_results. by rewrite Hnil.
  - intros Hne Ha Hb.
    destruct (merge_results_wf a b flag Hne Ha Hb)
      as (m & T & Hm & _ & _ & _ & Hsb & Hsm & Hact & Hwf).
    exists m. apply (f_equal length) in Hsb.
    rewrite length_app, !length_fmap in Hsb.
    split_and!; try done.
    intros Hnil. rewrite Hnil in Hsb. simpl in Hsb.
    destruct (sandbox_logs a); [done | simpl in Hsb; lia].
Qed.

Lemma merge_results_total_witness :
  merge_results (mkDayResult 1 0 [] [] []) later_result true = Raise IndexError ∧
  ∃ m, merge_results earlier_result later_result true = Ok m ∧
       length (activity_logs m) = 3%nat.
Proof.
  destruct (merge_results_total (mkDayResult 1 0 [] [] []) later_result true) as [Hraise _].
  split; [by apply Hraise|].
  destruct (merge_results_total earlier_result later_result true) as [_ Hok].
  destruct Hok as (m & Hm & _ & _ & _ & _ & Hlen).
  - done.
  - repeat (constructor; [apply sample_activity_wf|]). constructor.
  - repeat (constructor; [apply sample_activity_wf|]). constructor.
  - by exists m.
Defined.

(** ** The results of several days *)

Lemma collect_results_spec {X R} (mk : X → result R) (xs : list X) :
  ∀ acc out,
    for_each (λ acc x, r ← mk x; Ok (acc ++ [r])) xs acc = Ok out ↔
    ∃ rs, out = acc ++ rs ∧ Forall2 (λ x r, mk x = Ok r) xs rs.
Proof.
  induction xs as [|x xs IH]; intros acc out; simpl.
  - split.
    + intros [= <-]. exists []. by rewrite app_nil_r.
    + intros (rs & -> & H). apply Forall2_nil_inv_l in H as ->. by rewrite app_nil_r.
  - destruct (mk x) as [r|e] eqn:E; simpl.
    + rewrite IH. split.
      * intros (rs & -> & H). exists (r :: rs). rewrite <- app_assoc.
        split; [done|]. by constructor.
      * intros (rs & -> & H). apply Forall2_cons_inv_l in H as (r' & rs' & Hr & H & ->).
        rewrite E in Hr. injection Hr as <-.
        exists rs'. by rewrite <- app_assoc.
    + split; [done|]. intros (rs & _ & H).
      apply Forall2_cons_inv_l in H as (r' & rs' & Hr & _). congruence.
Qed.

Lemma elem_of_timestamps (data : DayData) (ts : Z) :
  ts ∈ timestamps data ↔ ts ∈ timestamp <$> prices data.
Proof.
  unfold timestamps. rewrite merge_sort_Permutation, elem_of_keys.
  apply prices_index_keys.
Qed.

Lemma sorted_le_last (l : list Z) (T x : Z) :
  StronglySorted Z.lt l → last l = Some T → x ∈ l → x ≤ T.
Proof.
  intros Hs Hlast Hx. destruct l as [|y l _] using rev_ind; [done|].
  rewrite last_snoc in Hlast. injection Hlast as ->.
  apply elem_of_app in Hx as [Hx|Hx].
  - assert (x < T); [|lia].
    eapply (StronglySorted_app_1_elem_of Z.lt); [exact Hs | done | left].
  - apply list_elem_of_singleton in Hx. lia.
Qed.

(** What a session result offers to a merge. *)
Lemma session_mergeable {Mem : Type} (trader_run : Trader Mem) (data : DayData)
    (round day : Z) (mem : Mem) (res : DayResult) :
  run_backtest trader_run data round day mem = Ok res →
  dr_round res = round ∧ dr_day res = day ∧
  sb_timestamp <$> sandbox_logs res = timestamps data ∧
  sandbox_logs res ≠ [] ∧
  Forall activity_row_wf (activity_logs res).
Proof.
  intros H.
  destruct (session_final_block _ _ _ _ _ _ H) as (T & _ & _ & HT & _ & _ & _ & Hwf & _).
  apply run_backtest_Ok in H as (lp & Hrun & -> & _).
  apply run_logs in Hrun as (Hr & Hd & Hsb & _). simpl in Hr, Hd, Hsb.
  split_and!; try done.
  intros Hnil. unfold final_timestamp in HT. by rewrite Hnil in HT.
Qed.

(** A chain of merges over results that are sorted in themselves. *)
Lemma merge_chain (flag : bool) : ∀ (rest : list DayResult) (a : DayResult),
  sandbox_logs a ≠ [] →
  Forall activity_row_wf (activity_logs a) →
  Forall (λ r, Forall activity_row_wf (activity_logs r)) rest →
  ∃ m, for_each (λ a b, merge_results a b flag) rest a = Ok m ∧
       dr_round m = dr_round a ∧ dr_day m = dr_day a ∧
       length (sandbox_logs m)
         = (length (sandbox_logs a)
            + sum_list_with (λ r, length (sandbox_logs r)) rest)%nat ∧
       (StronglySorted Z.lt (sb_timestamp <$> sandbox_logs a) →
        Forall (λ r, StronglySorted Z.lt (sb_timestamp <$> sandbox_logs r) ∧
                     Forall (λ ts, -100 < ts) (sb_timestamp <$> sandbox_logs r)) rest →
        StronglySorted Z.lt (sb_timestamp <$> sandbox_logs m)).
Proof.
  induction rest as [|b rest IH]; intros a Hne Ha Hrest.
  - exists a. simpl. split_and!; [done | done | done | lia | done].
  - apply Forall_cons in Hrest as [Hb Hrest].
    destruct (merge_results_wf a b flag Hne Ha Hb)
      as (m1 & T & Hm1 & HT & Hr1 & Hd1 & Hsb1 & _ & _ & Hwf1).
    assert (sandbox_logs m1 ≠ []) as Hne1.
    { intros Hnil. rewrite Hnil in Hsb1. simpl in Hsb1.
      destruct (sandbox_logs a); [done | discriminate]. }
    destruct (IH m1 Hne1 Hwf1 Hrest) as (m & Hm & Hr & Hd & Hlen & Hsorted).
    exists m. cbn [for_each]. rewrite Hm1. cbn [mbind result_bind].
    split_and!; [done | congruence | congruence | |].
    + rewrite Hlen. apply (f_equal length) in Hsb1.
      rewrite length_app, !length_fmap in Hsb1. simpl. lia.
    + intros Hsa Hall. apply Forall_cons in Hall as [[Hsb Hlow] Hall].
      apply Hsorted; [|done]. rewrite Hsb1.
      apply StronglySorted_app_2; [| done |].
      * intros x1 x2 Hx1 Hx2. apply list_elem_of_fmap in Hx2 as (y & -> & Hy).
        rewrite Forall_forall in Hlow. specialize (Hlow y Hy).
        assert (x1 ≤ T); [|lia].
        eapply sorted_le_last; [exact Hsa | | exact Hx1].
        unfold final_timestamp in HT. by rewrite fmap_last.
      * eapply StronglySorted_fmap; [|exact Hsb]. intros x y Hxy. simpl. lia.
Qed.

Section Days.
Context {Mem : Type}.
Variable read_day_data : Z → Z → DayData.
Variable trader_run : Trader Mem.
Variable trader_cls : Mem.

(** X16.  When every requested day replays without raising, merging the
    results of the days never raises either, except that no day at all is a
    TypeError.  The merged result carries the round and day of the first
    day and one diagnostic row per replayed timestamp of every day; when
    all timestamps of the feeds are above -100, its diagnostic rows are in
    strictly ascending timestamp order. *)
Theorem merged_results_of_days (days : list (Z * Z)) (flag : bool)
    (results : list DayResult) :
  run_days read_day_data trader_run trader_cls days = Ok results →
  match days with
  | [] => merged_results read_day_data trader_run trader_cls days flag = Raise TypeError
  | first :: _ =>
      ∃ m, merged_results read_day_data trader_run trader_cls days flag = Ok m ∧
           dr_round m = first.1 ∧ dr_day m = first.2 ∧
           length (sandbox_logs m)
             = sum_list_with (λ rd, length (timestamps (read_day_data rd.1 rd.2))) days ∧
           ((∀ rd row, rd ∈ days → row ∈ prices (read_day_data rd.1 rd.2) →
                       -100 < timestamp row) →
            StronglySorted Z.lt (sb_timestamp <$> sandbox_logs m))
  end.
Proof.
  intros Hrun. unfold merged_results. rewrite Hrun. cbn [mbind result_bind].
  unfold run_days in Hrun. apply collect_results_spec in Hrun as (rs & -> & Hall).
  rewrite app_nil_l.
  destruct Hall as [|first a days results Ha Hall]; [done|].
  cbn [reduce].
  assert (Forall2 (λ rd r,
            sb_timestamp <$> sandbox_logs r = timestamps (read_day_data rd.1 rd.2) ∧
            Forall activity_row_wf (activity_logs r)) days results) as Hfacts.
  { eapply Forall2_impl; [exact Hall|]. intros rd r Hr. simpl in Hr.
    by apply session_mergeable in Hr as (_ & _ & ? & _ & ?). }
  apply session_mergeable in Ha as (Hra & Hda & Hsba & Hnea & Hwfa).
  destruct (merge_chain flag results a Hnea Hwfa) as (m & Hm & Hr & Hd & Hlen & Hsorted).
  { apply Forall_forall. intros r Hin. apply list_elem_of_lookup in Hin as [i Hi].
    by destruct (Forall2_lookup_r _ _ _ _ _ Hfacts Hi) as (rd & _ & _ & ?). }
  exists m. split_and!; [done | congruence | congruence | |].
  - rewrite Hlen. simpl. rewrite <- Hsba, length_fmap. f_equal.
    clear -Hfacts. induction Hfacts as [|rd r days results [Hsb _] _ IH]; [done|].
    simpl. rewrite IH, <- Hsb, length_fmap. done.
  - intros Hlow. apply Hsorted.
    + rewrite Hsba. apply sorted_keys.
    + apply Forall_forall. intros r Hin. apply list_elem_of_lookup in Hin as [i Hi].
      destruct (Forall2_lookup_r _ _ _ _ _ Hfacts Hi) as (rd & Hrd & Hsb & _).
      rewrite Hsb. split; [apply sorted_keys|].
      apply Forall_forall. intros ts Hts. apply elem_of_timestamps in Hts.
      apply list_elem_of_fmap in Hts as (row & -> & Hrow).
      apply (Hlow rd row); [|done]. right. by eapply list_elem_of_lookup_2.
Qed.

End Days.

Lemma merged_results_of_days_witness :
  ∃ m, merged_results (λ _ day, if decide (day = 0) then sample_data else traded_data)
                      sample_trader tt [(1, 0); (1, 1)] true = Ok m ∧
       dr_day m = 0 ∧ length (sandbox_logs m) = 4%nat.
Proof.
  set (read := λ (_ day : Z), if decide (day = 0) then sample_data else traded_data).
  destruct (run_days read sample_trader tt [(1, 0); (1, 1)]) as [results|e] eqn:Hrun;
    [|vm_compute in Hrun; discriminate].
  destruct (merged_results_of_days read sample_trader tt [(1, 0); (1, 1)] true results Hrun)
    as (m & Hm & _ & Hd & Hlen & _).
  exists m. split; [exact Hm|]. split; [exact Hd|]. rewrite Hlen. vm_compute. reflexivity.
Defined.

(** ** The profit summary of a session *)

Lemma sum_Q_app (l1 l2 : list Q) :
  (foldr Qplus 0 (l1 ++ l2) == foldr Qplus 0 l1 + foldr Qplus 0 l2)%Q.
Proof.
  induction l1 as [|x l1 IH]; simpl.
  - ring.
  - rewrite IH. ring.
Qed.

Lemma vadd_float total pnl :
  is_number total →
  vadd total (VFloat pnl) = Ok (VFloat (Qred (num_val total + pnl)%Q)).
Proof. by destruct total. Qed.

Lemma total_after_value total block :
  (num_val (total_after total block)
   == num_val total + foldr Qplus 0 (pnl_of <$> block))%Q.
Proof.
  induction block as [|row block IH]; csimpl.
  - ring.
  - rewrite Qred_correct, IH. ring.
Qed.

Lemma total_after_float total block :
  block ≠ [] → ∃ q, total_after total block = VFloat q.
Proof. destruct block; [done|]. intros _. simpl. by eexists. Qed.

Lemma total_after_number total block : is_number total → is_number (total_after total block).
Proof. by destruct block. Qed.

Lemma sum_final_block T final : ∀ rest total,
  Forall (λ row, activity_row_wf row ∧ columns row !! 1%nat = Some (VInt T)) final →
  is_number total →
  sum_final (VInt T) (reverse final ++ rest) total
  = sum_final (VInt T) rest (total_after total final).
Proof.
  induction final as [|f final IH] using rev_ind; intros rest total Hall Htotal; [done|].
  apply Forall_app in Hall as [Hall Hf].
  apply Forall_singleton in Hf as [Hwf Hts].
  rewrite reverse_app, reverse_singleton. cbn [app sum_final].
  unfold row_timestamp. rewrite Hts. cbn [from_option mbind result_bind py_eqb].
  rewrite bool_decide_eq_true_2 by done. cbn [negb].
  pose proof (wf_last _ Hwf) as Hlast. destruct Hwf as [_ _ _ (pnl & Hpnl)].
  rewrite Hpnl in Hlast. rewrite Hlast. cbn [from_option mbind result_bind].
  rewrite (vadd_float total pnl Htotal). cbn [mbind result_bind].
  rewrite IH by done. unfold total_after. rewrite foldr_app. simpl.
  assert (pnl_of f = pnl) as -> by (unfold pnl_of; by rewrite Hlast).
  done.
Qed.

Lemma sum_final_stop T rows total :
  Forall (λ row, ∃ ts, columns row !! 1%nat = Some (VInt ts) ∧ ts ≠ T) rows →
  sum_final (VInt T) (reverse rows) total = Ok total.
Proof.
  destruct rows as [|r rows _] using rev_ind; [done|]. intros Hall.
  apply Forall_app in Hall as [_ Hr]. apply Forall_singleton in Hr as (ts & Hts & Hne).
  rewrite reverse_app, reverse_singleton. cbn [app sum_final].
  unfold row_timestamp. rewrite Hts. cbn [from_option mbind result_bind py_eqb].
  by rewrite bool_decide_eq_false_2.
Qed.

Lemma filter_final_block T (older final : list ActivityLogRow) :
  Forall (λ row, ∃ ts, columns row !! 1%nat = Some (VInt ts) ∧ ts ≠ T) older →
  Forall (λ row, activity_row_wf row ∧ columns row !! 1%nat = Some (VInt T)) final →
  filter (λ row, stamped T row = true) (older ++ final) = final.
Proof.
  intros Holder Hfinal. rewrite filter_app.
  assert (filter (λ row, stamped T row = true) older = []) as ->.
  { induction Holder as [|row older (ts & Hts & Hne) _ IH]; [done|].
    rewrite filter_cons, decide_False; [done|]. unfold stamped. rewrite Hts. simpl.
    by rewrite bool_decide_eq_false_2. }
  induction Hfinal as [|row final [_ Hts] _ IH]; [done|].
  rewrite filter_cons, decide_True.
  - simpl in IH. by rewrite IH.
  - unfold stamped. rewrite Hts. simpl. by rewrite bool_decide_eq_true_2.
Qed.

(** The last row of a session and the timestamp read from it. *)
Lemma last_of_final_block T (older final : list ActivityLogRow) :
  final ≠ [] →
  Forall (λ row, activity_row_wf row ∧ columns row !! 1%nat = Some (VInt T)) final →
  ∃ last_row, last (older ++ final) = Some last_row ∧
              row_timestamp last_row = Ok (VInt T).
Proof.
  intros Hne Hfinal. destruct final as [|f final _] using rev_ind; [done|].
  apply Forall_app in Hfinal as [_ Hf]. apply Forall_singleton in Hf as [_ Hts].
  exists f. rewrite app_assoc, last_snoc. split; [done|].
  unfold row_timestamp. by rewrite Hts.
Qed.

(** X17.  The total profit of a session that returned is computed without
    raising: it is a float, the sum of the P&L column over the activity
    rows of the session's last timestamp. *)
Theorem total_profit_of_session {Mem : Type} (trader_run : Trader Mem) (data : DayData)
    (round day : Z) (mem : Mem) (res : DayResult) :
  run_backtest trader_run data round day mem = Ok res →
  ∃ T total,
    final_timestamp res = Some T ∧
    total_profit res = Ok (VFloat total) ∧
    (total == final_total res T)%Q.
Proof.
  intros H.
  destruct (session_final_block _ _ _ _ _ _ H)
    as (T & older & final & HT & Hact & Holder & Hfinal & _ & _ & Hne).
  destruct (last_of_final_block T older final Hne Hfinal) as (last_row & Hlast & Hts).
  destruct (total_after_float (VInt 0) final Hne) as (total & Htotal).
  exists T, total. split; [done|].
  unfold total_profit, final_total. rewrite Hact, Hlast.
  cbn [from_option mbind result_bind]. rewrite Hts. cbn [mbind result_bind].
  rewrite reverse_app, sum_final_block, sum_final_stop by done.
  rewrite Htotal. split; [done|].
  rewrite filter_final_block by done.
  pose proof (total_after_value (VInt 0) final) as Hval.
  rewrite Htotal in Hval. simpl in Hval. rewrite Hval. ring.
Qed.

Lemma total_profit_of_session_witness :
  ∃ total, total_profit (match run_backtest sample_trader sample_data 1 0 tt with
                         | Ok res => res
                         | Raise _ => earlier_result
                         end) = Ok (VFloat total) ∧ (total == 10)%Q.
Proof.
  destruct (run_backtest sample_trader sample_data 1 0 tt) as [res|e] eqn:Hrun;
    [|vm_compute in Hrun; discriminate].
  destruct (total_profit_of_session sample_trader sample_data 1 0 tt res Hrun)
    as (T & total & HT & Htotal & Hsum).
  exists total. split; [exact Htotal|]. rewrite Hsum.
  vm_compute in Hrun. injection Hrun as <-.
  vm_compute in HT. injection HT as <-. vm_compute. reflexivity.
Defined.

(** ** The profit of one product *)

Lemma next_profit_scan T p rows : ∀ rest,
  Forall (λ row, activity_row_wf row ∧ columns row !! 1%nat = Some (VInt T)) rows →
  next_profit (VInt T) p (reverse rows ++ rest)
  = match last (filter (λ row, names_product p row = true) rows) with
    | Some row => Ok (last (columns row))
    | None => next_profit (VInt T) p rest
    end.
Proof.
  induction rows as [|f rows IH] using rev_ind; intros rest Hall; [done|].
  apply Forall_app in Hall as [Hall Hf].
  apply Forall_singleton in Hf as [Hwf Hts].
  rewrite reverse_app, reverse_singleton. cbn [app next_profit].
  unfold row_timestamp. rewrite Hts. cbn [from_option mbind result_bind py_eqb].
  rewrite bool_decide_eq_true_2 by done.
  pose proof (wf_last _ Hwf) as Hlast. destruct Hwf as [_ _ (q & Hq) (pnl & Hpnl)].
  rewrite Hpnl in Hlast. rewrite Hq. cbn [from_option mbind result_bind py_eqb].
  assert (names_product p f = bool_decide (q = p)) as Hnp
    by (unfold names_product; by rewrite Hq).
  rewrite last_filter_snoc, Hnp.
  destruct (decide (q = p)) as [Heq|Hne].
  - rewrite bool_decide_eq_true_2 by done. rewrite decide_True by done.
    by rewrite Hlast.
  - rewrite bool_decide_eq_false_2 by done. rewrite decide_False by done.
    by apply IH.
Qed.

Lemma next_profit_skip T p older :
  Forall (λ row, ∃ ts, columns row !! 1%nat = Some (VInt ts) ∧ ts ≠ T) older →
  next_profit (VInt T) p older = Ok None.
Proof.
  induction 1 as [|row older (ts & Hts & Hne) _ IH]; [done|].
  cbn [next_profit]. unfold row_timestamp. rewrite Hts.
  cbn [from_option mbind result_bind py_eqb].
  by rewrite bool_decide_eq_false_2.
Qed.

Lemma last_filter_names p (rows : list ActivityLogRow) row :
  row ∈ rows → names_product p row = true →
  ∃ found, last (filter (λ row, names_product p row = true) rows) = Some found ∧
           found ∈ rows ∧ names_product p found = true.
Proof.
  intros Hin Hp.
  assert (row ∈ filter (λ row, names_product p row = true) rows) as Hf
    by (by apply list_elem_of_filter).
  destruct (last (filter (λ row, names_product p row = true) rows)) as [found|] eqn:E.
  - exists found. split; [done|].
    assert (found ∈ filter (λ row, names_product p row = true) rows) as Hfound.
    { apply last_Some in E as (l' & ->). apply elem_of_app. right. left. }
    by apply list_elem_of_filter in Hfound as [? ?].
  - apply last_None in E. rewrite E in Hf. by apply elem_of_nil in Hf.
Qed.

Lemma last_filter_no_names p (rows : list ActivityLogRow) :
  (∀ row, row ∈ rows → names_product p row = false) →
  last (filter (λ row, names_product p row = true) rows) = None.
Proof.
  intros H. apply last_None.
  induction rows as [|row rows IH]; [done|].
  rewrite filter_cons, decide_False.
  - apply IH. intros r Hr. apply H. by right.
  - rewrite (H row) by left. done.
Qed.

(** X18.  For every tradable product the per-product profit of a session
    that returned is found without raising and without exhausting the
    search: it is the P&L column of a row of the last timestamp that names
    the product.  For a product that is also in the non-tradable class that
    row is the non-tradable one, whose P&L is 0.0. *)
Theorem product_profit_of_session {Mem : Type} (trader_run : Trader Mem) (data : DayData)
    (round day : Z) (mem : Mem) (res : DayResult) (p : string) :
  run_backtest trader_run data round day mem = Ok res →
  p ∈ tradable_products data →
  ∃ T row pnl,
    final_timestamp res = Some T ∧
    product_profit res p = Ok (Some (VFloat pnl)) ∧
    row ∈ activity_logs res ∧
    columns row !! 1%nat = Some (VInt T) ∧
    columns row !! 2%nat = Some (VStr p) ∧
    last (columns row) = Some (VFloat pnl) ∧
    (p ∈ non_tradable_products data → pnl = 0%Q).
Proof.
  intros H Hp.
  destruct (session_final_block _ _ _ _ _ _ H)
    as (T & older & final & HT & Hact & Holder & Hfinal & _ & Hblock & Hne).
  destruct (last_of_final_block T older final Hne Hfinal) as (last_row & Hlast & Hts).
  destruct Hblock as (rows1 & rows2 & -> & H1 & H2).
  apply Forall_app in Hfinal as [Hf1 Hf2].
  assert (product_profit res p
          = match last (filter (λ row, names_product p row = true) rows2) with
            | Some row => Ok (last (columns row))
            | None =>
                match last (filter (λ row, names_product p row = true) rows1) with
                | Some row => Ok (last (columns row))
                | None => Ok None
                end
            end) as Hprofit.
  { unfold product_profit. rewrite Hact, Hlast.
    cbn [from_option mbind result_bind]. rewrite Hts. cbn [mbind result_bind].
    rewrite !reverse_app, <- app_assoc.
    rewrite next_profit_scan by done.
    destruct (last (filter _ rows2)); [done|].
    rewrite next_profit_scan by done.
    destruct (last (filter _ rows1)); [done|].
    apply next_profit_skip. by apply Forall_reverse. }
  exists T.
  destruct (decide (p ∈ non_tradable_products data)) as [Hnt|Hnt].
  - apply elem_of_elements, list_elem_of_lookup in Hnt as [i Hi].
    destruct (Forall2_lookup_l _ _ _ _ _ H2 Hi) as (row & Hrow & Hwf & Hrts & Hname & Hzero).
    destruct (last_filter_names p rows2 row) as (found & Hfound & Hin & Hnp).
    { by eapply list_elem_of_lookup_2. }
    { unfold names_product. rewrite Hname. by apply bool_decide_eq_true_2. }
    rewrite Hfound in Hprofit.
    apply list_elem_of_lookup in Hin as [j Hj].
    destruct (Forall2_lookup_r _ _ _ _ _ H2 Hj) as (q & Hq & _ & Hfts & Hfname & Hfzero).
    assert (q = p) as ->.
    { unfold names_product in Hnp. rewrite Hfname in Hnp.
      by apply bool_decide_eq_true_1 in Hnp. }
    exists found, 0%Q. rewrite Hprofit, Hfzero.
    split_and!; try done.
    rewrite Hact. apply elem_of_app. right. apply elem_of_app. right.
    by eapply list_elem_of_lookup_2.
  - rewrite last_filter_no_names in Hprofit.
    2:{ intros row Hrow. apply list_elem_of_lookup in Hrow as [j Hj].
        destruct (Forall2_lookup_r _ _ _ _ _ H2 Hj) as (q & Hq & _ & _ & Hname & _).
        unfold names_product. rewrite Hname. apply bool_decide_eq_false_2.
        intros ->. apply Hnt, elem_of_elements. by eapply list_elem_of_lookup_2. }
    apply elem_of_elements, list_elem_of_lookup in Hp as [i Hi].
    destruct (Forall2_lookup_l _ _ _ _ _ H1 Hi) as (row & Hrow & Hwf & Hrts & Hname).
    destruct (last_filter_names p rows1 row) as (found & Hfound & Hin & Hnp).
    { by eapply list_elem_of_lookup_2. }
    { unfold names_product. rewrite Hname. by apply bool_decide_eq_true_2. }
    rewrite Hfound in Hprofit.
    apply list_elem_of_lookup in Hin as [j Hj].
    destruct (Forall2_lookup_r _ _ _ _ _ H1 Hj) as (q & Hq & Hfwf & Hfts & Hfname).
    assert (q = p) as ->.
    { unfold names_product in Hnp. rewrite Hfname in Hnp.
      by apply bool_decide_eq_true_1 in Hnp. }
    pose proof (wf_last _ Hfwf) as Hflast. destruct Hfwf as [_ _ _ (pnl & Hpnl)].
    rewrite Hpnl in Hflast.
    exists found, pnl. rewrite Hprofit, Hflast.
    split_and!; try done.
    rewrite Hact. apply elem_of_app. right. apply elem_of_app. left.
    by eapply list_elem_of_lookup_2.
Qed.

Lemma product_profit_of_session_witness :
  (∃ pnl, product_profit (match run_backtest sample_trader sample_data 1 0 tt with
                          | Ok res => res
                          | Raise _ => earlier_result
                          end) PEARLS = Ok (Some (VFloat pnl))) ∧
  (∃ res, run_backtest idle_trader thin_bid_data 1 0 tt = Ok res ∧
          product_profit res PEARLS = Ok (Some (VFloat 0))).
Proof.
  split.
  - destruct (run_backtest sample_trader sample_data 1 0 tt) as [res|e] eqn:Hrun;
      [|vm_compute in Hrun; discriminate].
    destruct (product_profit_of_session sample_trader sample_data 1 0 tt res PEARLS Hrun)
      as (T & row & pnl & _ & Hprofit & _).
    + apply (bool_decide_unpack _). vm_compute. exact I.
    + by exists pnl.
  - destruct (run_backtest idle_trader thin_bid_data 1 0 tt) as [res|e] eqn:Hrun;
      [|vm_compute in Hrun; discriminate].
    destruct (product_profit_of_session idle_trader thin_bid_data 1 0 tt res PEARLS Hrun)
      as (T & row & pnl & _ & Hprofit & _ & _ & _ & _ & Hzero).
    + apply (bool_decide_unpack _). vm_compute. exact I.
    + exists res. split; [reflexivity|]. rewrite Hprofit, Hzero; [done|].
      apply (bool_decide_unpack _). vm_compute. exact I.
Defined.

(** ** A session without orders *)





Section Idle.
Context {Mem : Type}.
Variable trader_run : Trader Mem.
Variable data : DayData.
Hypothesis no_orders : ∀ mem state mem' stdout (objs : store) orders,
  trader_run mem state = Ok (mem', stdout, objs, orders) → orders = ∅.



End Idle.


(** ** When the accounting loop fails (run_backtest, lines 254-288) *)

Lemma mark_to_market_outcome cash position price :
  (valued position price ∧ is_ok (mark_to_market cash position price))
  ∨ (¬ valued position price ∧ mark_to_market cash position price = Raise IndexError).
Proof.
  unfold mark_to_market, valued.
  destruct (decide (position < 0)) as [Hneg|Hneg];
    [|destruct (decide (position > 0)) as [Hpos|Hpos]].
  - destruct (ask_prices price) as [|ask asks] eqn:E; simpl.
    + right. split; [|done]. intros [H _]. by apply H.
    + left. split; [|by eexists]. split; [done | lia].
  - destruct (bid_prices price) as [|bid bids] eqn:E; simpl.
    + right. split; [|done]. intros [_ H]. by apply H.
    + left. split; [|by eexists]. split; [lia | done].
  - left. split; [|by eexists]. split; lia.
Qed.

Lemma tradable_row_outcome ts rows st p :
  match rows !! p with
  | None => tradable_row ts rows st p = Raise KeyError
  | Some price =>
      (valued (position_of (own_positions st) p) price ∧
       is_ok (tradable_row ts rows st p))
      ∨ (¬ valued (position_of (own_positions st) p) price ∧
         tradable_row ts rows st p = Raise IndexError)
  end.
Proof.
  unfold tradable_row. destruct (rows !! p) as [price|]; [|done].
  cbn [from_option mbind result_bind].
  destruct (mark_to_market_outcome (position_of (seashells_by_product st) p)
              (position_of (own_positions st) p) price) as [[Hv [pnl Hpnl]]|[Hv Hraise]].
  - left. split; [done|]. rewrite Hpnl. by eexists.
  - right. split; [done|]. by rewrite Hraise.
Qed.

(** X20.  The loop that writes the activity rows of the tradable products
    returns only if every product has a price row at the timestamp whose
    relevant side is quoted: an ask for a short position, a bid for a long
    one, nothing for a flat one.  It then has appended one row per
    product. *)
Theorem accounting_loop_needs_quotes (ts : Z) (rows : gmap string PriceRow) (st : Engine)
    (products : list string) (logs logs' : list ActivityLogRow) :
  append_rows (tradable_row ts rows st) products logs = Ok logs' →
  length logs' = (length logs + length products)%nat ∧
  ∀ p, p ∈ products →
       ∃ price, rows !! p = Some price ∧
                valued (position_of (own_positions st) p) price.
Proof.
  intros H. apply append_rows_spec in H as (new & -> & Hrows). split.
  - rewrite length_app. f_equal. symmetry. by eapply Forall2_length.
  - intros p Hp. apply list_elem_of_lookup in Hp as [i Hi].
    destruct (Forall2_lookup_l _ _ _ _ _ Hrows Hi) as (row & _ & Hrow).
    pose proof (tradable_row_outcome ts rows st p) as Hout.
    destruct (rows !! p) as [price|]; [|congruence].
    exists price. split; [done|]. destruct Hout as [[? _]|[_ ?]]; [done | congruence].
Qed.

Lemma accounting_loop_needs_quotes_witness :
  ∃ logs', append_rows (tradable_row 0 {[ PEARLS := sample_row ]} sample_engine)
                       [PEARLS] [] = Ok logs' ∧
           length logs' = 1%nat.
Proof.
  destruct (append_rows (tradable_row 0 {[ PEARLS := sample_row ]} sample_engine)
              [PEARLS] []) as [logs'|e] eqn:H; [|vm_compute in H; discriminate].
  exists logs'. split; [reflexivity|].
  by destruct (accounting_loop_needs_quotes 0 {[ PEARLS := sample_row ]} sample_engine
                 [PEARLS] [] logs' H) as [Hlen _].
Defined.

(** ** Reading the feed *)

Lemma reading_bind_Read {A B} (m : reading A) (f : A → reading B) (b : B) :
  m ≫= f = Read b ↔ ∃ a, m = Read a ∧ f a = Read b.
Proof.
  destruct m as [a| |]; simpl.
  - split; [by exists a | by intros (a' & [= <-] & ?)].
  - split; [done | by intros (a' & ? & _)].
  - split; [done | by intros (a' & ? & _)].
Qed.

Lemma column_Read columns index value :
  column columns index = Read value ↔ columns !! index = Some value.
Proof.
  unfold column. destruct (columns !! index); split; intros H; by inversion H.
Qed.

Section ReaderFacts.
Variable int : string → option Z.
Variable float : string → option Q.

Lemma to_int_Read s z : to_int int s = Read z ↔ int s = Some z.
Proof. unfold to_int. destruct (int s); split; intros H; by inversion H. Qed.

Lemma get_values_spec columns : ∀ indices values out,
  get_values int columns indices values = Read out ↔
  ∃ new, out = values ++ new ∧
         (length new ≤ length indices)%nat ∧
         Forall2 (number_at int columns) (take (length new) indices) new ∧
         (∀ index, indices !! length new = Some index →
                   columns !! index = Some EmptyString).
Proof.
  induction indices as [|index rest IH]; intros values out.
  - cbn [get_values]. split.
    + intros [= <-]. exists []. rewrite app_nil_r.
      split_and!; [done | done | constructor | done].
    + intros (new & -> & Hlen & _). destruct new; [|simpl in Hlen; lia].
      by rewrite app_nil_r.
  - cbn [get_values]. unfold column at 1.
    destruct (columns !! index) as [value|] eqn:Hcol; cbn [mbind reading_bind].
    + destruct (decide (value = EmptyString)) as [->|Hne].
      * split.
        -- intros [= <-]. exists []. rewrite app_nil_r.
           split_and!; [done | simpl; lia | constructor |].
           simpl. by intros ? [= <-].
        -- intros (new & -> & _ & Hall & _). destruct new as [|z new].
           ++ by rewrite app_nil_r.
           ++ simpl in Hall. apply Forall2_cons_1 in Hall as [(cell & Hc & Hcell & _) _].
              congruence.
      * unfold to_int. destruct (int value) as [z|] eqn:Hint; cbn [mbind reading_bind].
        -- rewrite IH. split.
           ++ intros (new & -> & Hlen & Hall & Hstop). exists (z :: new).
              rewrite <- app_assoc. split_and!; [done | simpl; lia | |done].
              simpl. constructor; [by exists value | done].
           ++ intros (new & -> & Hlen & Hall & Hstop). destruct new as [|z' new].
              ** specialize (Hstop index eq_refl). congruence.
              ** simpl in Hall.
                 apply Forall2_cons_1 in Hall as [(cell & Hc & _ & Hz) Hall].
                 assert (cell = value) as -> by congruence.
                 assert (z' = z) as -> by congruence.
                 exists new. rewrite <- app_assoc.
                 split_and!; [done | simpl in Hlen; lia | done | done].
        -- split; [done|]. intros (new & -> & _ & Hall & Hstop).
           destruct new as [|z' new].
           ++ specialize (Hstop index eq_refl). congruence.
           ++ simpl in Hall.
              apply Forall2_cons_1 in Hall as [(cell & Hc & _ & Hz) _]. congruence.
    + split; [done|]. intros (new & -> & _ & Hall & Hstop).
      destruct new as [|z' new].
      * specialize (Hstop index eq_refl). congruence.
      * simpl in Hall. apply Forall2_cons_1 in Hall as [(cell & Hc & _) _]. congruence.
Qed.

End ReaderFacts.

(** X21.  [get_column_values] returns exactly the integers of the indexed
    cells that come before the first empty one: every cell before it must
    exist and convert, the cell at which it stops is empty, and what lies
    behind that cell is never read. *)
Theorem get_column_values_reads_prefix (int : string → option Z)
    (columns : list string) (indices : list nat) (values : list Z) :
  get_column_values int columns indices = Read values ↔
  (length values ≤ length indices)%nat ∧
  Forall2 (λ index z, ∃ cell, columns !! index = Some cell ∧
                              cell ≠ EmptyString ∧ int cell = Some z)
          (take (length values) indices) values ∧
  (∀ index, indices !! length values = Some index →
            columns !! index = Some EmptyString).
Proof.
  unfold get_column_values. rewrite get_values_spec. split.
  - by intros (new & -> & ?).
  - intros ?. by exists values.
Qed.

Lemma get_column_values_length int columns indices values :
  get_column_values int columns indices = Read values →
  (length values ≤ length indices)%nat.
Proof.
  unfold get_column_values. rewrite get_values_spec. by intros (new & -> & ? & _).
Qed.

Lemma get_column_values_nil int columns index rest values :
  get_column_values int columns (index :: rest) = Read values →
  values = [] ↔ columns !! index = Some EmptyString.
Proof.
  unfold get_column_values. rewrite get_values_spec.
  intros (new & -> & _ & Hall & Hstop). simpl. destruct new as [|z new].
  - split; [|done]. intros _. by apply Hstop.
  - split; [done|]. intros Hcol. simpl in Hall.
    apply Forall2_cons_1 in Hall as [(cell & Hc & Hne & _) _]. congruence.
Qed.

Lemma read_lines_spec {A} (of_line : string → reading A) (lines : list string) :
  ∀ rows out,
    read_lines of_line lines rows = Read out ↔
    ∃ new, out = rows ++ new ∧ Forall2 (λ line row, of_line line = Read row) lines new.
Proof.
  induction lines as [|line lines IH]; intros rows out; cbn [read_lines].
  - split.
    + intros [= <-]. exists []. by rewrite app_nil_r.
    + intros (new & -> & H). apply Forall2_nil_inv_l in H as ->. by rewrite app_nil_r.
  - rewrite reading_bind_Read. split.
    + intros (row & Hrow & H). apply IH in H as (new & -> & Hall).
      exists (row :: new). rewrite <- app_assoc. split; [done|]. by constructor.
    + intros (new & -> & H). apply Forall2_cons_inv_l in H as (row & new' & Hrow & H & ->).
      exists row. split; [done|]. apply IH. exists new'. by rewrite <- app_assoc.
Qed.

Lemma price_row_of_line_fields int float line row :
  price_row_of_line int float line = Read row →
  (17 ≤ length (split_on ";" line))%nat ∧
  split_on ";" line !! 2%nat = Some (product row) ∧
  (length (bid_prices row) ≤ 3)%nat ∧ (length (bid_volumes row) ≤ 3)%nat ∧
  (length (ask_prices row) ≤ 3)%nat ∧ (length (ask_volumes row) ≤ 3)%nat ∧
  (bid_prices row = [] ↔ split_on ";" line !! 3%nat = Some EmptyString).
Proof.
  unfold price_row_of_line. intros H.
  apply reading_bind_Read in H as (d & _ & H).
  apply reading_bind_Read in H as (t & _ & H).
  apply reading_bind_Read in H as (p & Hp & H). apply column_Read in Hp.
  apply reading_bind_Read in H as (bp & Hbp & H).
  apply reading_bind_Read in H as (bv & Hbv & H).
  apply reading_bind_Read in H as (ap & Hap & H).
  apply reading_bind_Read in H as (av & Hav & H).
  apply reading_bind_Read in H as (m & _ & H).
  apply reading_bind_Read in H as (pl & Hpl & H).
  apply reading_bind_Read in Hpl as (cell & Hcell & _). apply column_Read in Hcell.
  injection H as <-. simpl.
  pose proof (get_column_values_nil _ _ _ _ _ Hbp) as Hnil.
  apply get_column_values_length in Hbp, Hbv, Hap, Hav. simpl in *.
  split_and!; try done. apply lookup_lt_Some in Hcell. lia.
Qed.

Lemma trade_of_line_fields int float line t :
  trade_of_line int float line = Read t →
  (7 ≤ length (split_on ";" line))%nat ∧
  split_on ";" line !! 3%nat = Some (t_symbol t) ∧
  (∃ price, t_price t = VFloat price).
Proof.
  unfold trade_of_line. intros H.
  apply reading_bind_Read in H as (s & Hs & H). apply column_Read in Hs.
  apply reading_bind_Read in H as (p & _ & H).
  apply reading_bind_Read in H as (q & Hq & H).
  apply reading_bind_Read in Hq as (cell & Hcell & _). apply column_Read in Hcell.
  apply reading_bind_Read in H as (b & _ & H).
  apply reading_bind_Read in H as (sl & _ & H).
  apply reading_bind_Read in H as (ts & _ & H).
  injection H as <-. simpl. split_and!; [|done|by eexists].
  apply lookup_lt_Some in Hcell. lia.
Qed.

(** X22.  When the two files are read without an exception, the first line
    of each is skipped and every further line gives one row, in file order;
    a price line has at least 17 fields, names its product in the third
    field, gives at most three levels per side and per kind, and has no bid
    price exactly when its fourth field is empty; a trade line has at
    least 7 fields and gives a trade with a float price. *)
Theorem read_day_data_rows (int : string → option Z) (float : string → option Q)
    (price_lines trade_lines : list string) (data : DayData) :
  read_day_data int float price_lines trade_lines = Read data →
  Forall2 (λ line row,
             price_row_of_line int float line = Read row ∧
             (17 ≤ length (split_on ";" line))%nat ∧
             split_on ";" line !! 2%nat = Some (product row) ∧
             (length (bid_prices row) ≤ 3)%nat ∧ (length (bid_volumes row) ≤ 3)%nat ∧
             (length (ask_prices row) ≤ 3)%nat ∧ (length (ask_volumes row) ≤ 3)%nat ∧
             (bid_prices row = [] ↔ split_on ";" line !! 3%nat = Some EmptyString))
          (drop 1 price_lines) (prices data) ∧
  Forall2 (λ line t,
             trade_of_line int float line = Read t ∧
             (7 ≤ length (split_on ";" line))%nat ∧
             split_on ";" line !! 3%nat = Some (t_symbol t) ∧
             ∃ price, t_price t = VFloat price)
          (drop 1 trade_lines) (trades data).
Proof.
  unfold read_day_data. intros H.
  apply reading_bind_Read in H as (rows & Hrows & H).
  apply reading_bind_Read in H as (ts & Hts & H). injection H as <-. simpl.
  apply read_lines_spec in Hrows as (new1 & -> & H1).
  apply read_lines_spec in Hts as (new2 & -> & H2). rewrite !app_nil_l. split.
  - eapply Forall2_impl; [exact H1|]. intros line row Hrow. simpl in Hrow.
    split; [done|]. exact (price_row_of_line_fields _ _ _ _ Hrow).
  - eapply Forall2_impl; [exact H2|]. intros line t Ht. simpl in Ht.
    split; [done|]. exact (trade_of_line_fields _ _ _ _ Ht).
Qed.

Lemma read_day_data_rows_witness :
  ∃ data, read_day_data sample_int sample_float sample_price_lines sample_trade_lines
          = Read data ∧
          length (prices data) = 1%nat ∧ length (trades data) = 1%nat.
Proof.
  destruct (read_day_data sample_int sample_float sample_price_lines sample_trade_lines)
    as [data| |] eqn:H; [|vm_compute in H; discriminate..].
  destruct (read_day_data_rows _ _ _ _ _ H) as [H1 H2].
  exists data. split; [reflexivity|].
  apply Forall2_length in H1, H2. simpl in H1, H2. by split.
Defined.

(** ** Rebasing a diagnostic row (SandboxLogRow.with_offset) *)

Lemma prefix_append (p s : string) : String.prefix p (p +:+ s) = true.
Proof.
  induction p as [|c p IH]; simpl; [by destruct s|].
  destruct (ascii_dec c c); [exact IH | done].
Qed.

Lemma replace_go_skip pat rep (p s : string) :
  replace_go pat rep (String.length p) (p +:+ s) = replace_go pat rep 0 s.
Proof. induction p as [|c p IH]; simpl; [by destruct s | exact IH]. Qed.

Lemma prefix_cons a b (s1 s2 : string) :
  String.prefix (String a s1) (String b s2)
  = if ascii_dec a b then String.prefix s1 s2 else false.
Proof. reflexivity. Qed.

Lemma replace_go_cons pat rep c (s : string) :
  replace_go pat rep 0 (String c s)
  = if String.prefix pat (String c s)
    then rep +:+ replace_go pat rep (String.length pat - 1) s
    else String c (replace_go pat rep 0 s).
Proof. reflexivity. Qed.

Lemma replace_go_front c pat rep (s : string) :
  replace_go (String c pat) rep 0 (String c pat +:+ s)
  = rep +:+ replace_go (String c pat) rep 0 s.
Proof.
  change (String c pat +:+ s) with (String c (pat +:+ s)).
  rewrite replace_go_cons.
  assert (String.prefix (String c pat) (String c (pat +:+ s)) = true) as ->
    by apply (prefix_append (String c pat) s).
  f_equal. cbn [String.length]. rewrite Nat.sub_1_r. cbn [Nat.pred].
  apply replace_go_skip.
Qed.

Lemma replace_go_quote_free pat rep (pre rest : string) :
  quote_free pre →
  replace_go (String dquote pat) rep 0 (pre +:+ rest)
  = pre +:+ replace_go (String dquote pat) rep 0 rest.
Proof.
  induction pre as [|c pre IH]; intros Hpre; [done|]. destruct Hpre as [Hc Hpre].
  change (String c pre +:+ rest) with (String c (pre +:+ rest)).
  rewrite replace_go_cons.
  assert (String.prefix (String dquote pat) (String c (pre +:+ rest)) = false) as ->.
  { rewrite prefix_cons. by destruct (ascii_dec dquote c). }
  change (String c pre +:+ ?x) with (String c (pre +:+ x)).
  f_equal. by apply IH.
Qed.

Lemma append_nil_r (t : string) : t +:+ EmptyString = t.
Proof.
  induction t as [|c t IH]; [done|].
  change (String c (t +:+ EmptyString) = String c t). by f_equal.
Qed.

Lemma replace_go_plain pat rep (s : string) :
  quote_free s → replace_go (String dquote pat) rep 0 s = s.
Proof.
  intros Hs. pose proof (replace_go_quote_free pat rep s EmptyString Hs) as H.
  cbn [replace_go] in H. by rewrite !append_nil_r in H.
Qed.

Lemma quote_free_app (a b : string) : quote_free a → quote_free b → quote_free (a +:+ b).
Proof.
  induction a as [|x a IH]; [done|]. intros [Hx Ha] Hb.
  change (x ≠ dquote ∧ quote_free (a +:+ b)). split; [done | by apply IH].
Qed.

Lemma quote_free_uint (d : Decimal.uint) : quote_free (NilEmpty.string_of_uint d).
Proof. induction d; simpl; try done; (split; [done | exact IHd]). Qed.

Lemma quote_free_show_Z (z : Z) : quote_free (show_Z z).
Proof.
  unfold show_Z, NilZero.string_of_int.
  destruct (Z.to_int z) as [d|d]; unfold NilZero.string_of_uint.
  - destruct d; try apply quote_free_uint. simpl. done.
  - simpl. split; [done|]. destruct d; try apply quote_free_uint. simpl. done.
Qed.

(** The pattern of one kind of marker does not occur in a text whose only
    quoted word is the other kind's. *)
Lemma t_pattern_skips_timestamp_marker n m rep (post : string) :
  quote_free post →
  replace_go (t_marker n) rep 0 (timestamp_marker m +:+ post)
  = timestamp_marker m +:+ post.
Proof.
  intros Hpost.
  assert (timestamp_marker m +:+ post
          = String dquote ("timestamp" +:+ String dquote (":" +:+ (show_Z m +:+ post))))
    as -> by reflexivity.
  rewrite replace_go_cons.
  assert (String.prefix (t_marker n)
            (String dquote ("timestamp" +:+ String dquote (":" +:+ (show_Z m +:+ post))))
          = false) as -> by reflexivity.
  f_equal. unfold t_marker. rewrite replace_go_quote_free by (simpl; repeat split; done).
  f_equal. rewrite replace_go_cons.
  assert (String.prefix (String dquote ("t" +:+ String dquote (":" +:+ show_Z n)))
            (String dquote (":" +:+ (show_Z m +:+ post))) = false) as -> by reflexivity.
  f_equal. apply replace_go_plain.
  apply (quote_free_app ":"); [simpl; by split|].
  apply quote_free_app; [apply quote_free_show_Z | done].
Qed.

Lemma timestamp_pattern_skips_t_marker n m rep (post : string) :
  quote_free post →
  replace_go (timestamp_marker n) rep 0 (t_marker m +:+ post)
  = t_marker m +:+ post.
Proof.
  intros Hpost.
  assert (t_marker m +:+ post
          = String dquote ("t" +:+ String dquote (":" +:+ (show_Z m +:+ post))))
    as -> by reflexivity.
  rewrite replace_go_cons.
  assert (String.prefix (timestamp_marker n)
            (String dquote ("t" +:+ String dquote (":" +:+ (show_Z m +:+ post))))
          = false) as -> by reflexivity.
  f_equal. unfold timestamp_marker.
  rewrite replace_go_quote_free by (simpl; repeat split; done).
  f_equal. rewrite replace_go_cons.
  assert (String.prefix
            (String dquote ("timestamp" +:+ String dquote (":" +:+ show_Z n)))
            (String dquote (":" +:+ (show_Z m +:+ post))) = false) as -> by reflexivity.
  f_equal. apply replace_go_plain.
  apply (quote_free_app ":"); [simpl; by split|].
  apply quote_free_app; [apply quote_free_show_Z | done].
Qed.

(** [replace] with a pattern that starts with a double quote. *)
Lemma replace_quoted pat pat' rep (s : string) :
  pat = String dquote pat' → replace pat rep s = replace_go (String dquote pat') rep 0 s.
Proof. by intros ->. Qed.

Lemma replace_pre pat pat' rep (pre rest : string) :
  pat = String dquote pat' → quote_free pre →
  replace pat rep (pre +:+ rest) = pre +:+ replace pat rep rest.
Proof.
  intros Hpat Hpre. rewrite !(replace_quoted _ _ _ _ Hpat).
  by apply replace_go_quote_free.
Qed.

Lemma replace_front pat pat' rep (s : string) :
  pat = String dquote pat' →
  replace pat rep (pat +:+ s) = rep +:+ replace pat rep s.
Proof.
  intros Hpat. rewrite !(replace_quoted _ _ _ _ Hpat). rewrite Hpat.
  apply replace_go_front.
Qed.

Lemma replace_plain pat pat' rep (s : string) :
  pat = String dquote pat' → quote_free s → replace pat rep s = s.
Proof.
  intros Hpat Hs. rewrite (replace_quoted _ _ _ _ Hpat). by apply replace_go_plain.
Qed.

(** X23.  Rebasing a diagnostic row adds the offset to its timestamp and
    rewrites a marker of the row's own timestamp, of either kind, to the
    new timestamp; the text around the marker, when it holds no double
    quote, is copied as it is, and so is a text without any double quote. *)
Theorem sandbox_marker_rewritten (ts off : Z) (pre post : string) :
  quote_free pre → quote_free post →
  sandbox_with_offset (mkSandboxLogRow ts (pre +:+ timestamp_marker ts +:+ post)) off
    = mkSandboxLogRow (ts + off) (pre +:+ timestamp_marker (ts + off) +:+ post) ∧
  sandbox_with_offset (mkSandboxLogRow ts (pre +:+ t_marker ts +:+ post)) off
    = mkSandboxLogRow (ts + off) (pre +:+ t_marker (ts + off) +:+ post) ∧
  sandbox_with_offset (mkSandboxLogRow ts pre) off = mkSandboxLogRow (ts + off) pre.
Proof.
  intros Hpre Hpost. unfold sandbox_with_offset. cbn [sb_timestamp sb_data foldl fst snd].
  split_and!; f_equal.
  - rewrite (replace_pre (timestamp_marker ts) _ _ pre _ eq_refl Hpre).
    rewrite (replace_front (timestamp_marker ts) _ _ post eq_refl).
    rewrite (replace_plain (timestamp_marker ts) _ _ post eq_refl Hpost).
    rewrite (replace_pre (t_marker ts) _ _ pre _ eq_refl Hpre). f_equal.
    rewrite (replace_quoted (t_marker ts) _ _ _ eq_refl).
    by apply (t_pattern_skips_timestamp_marker ts).
  - rewrite (replace_pre (timestamp_marker ts) _ _ pre _ eq_refl Hpre).
    rewrite (replace_quoted (timestamp_marker ts) _ _ (t_marker ts +:+ post) eq_refl).
    rewrite (timestamp_pattern_skips_t_marker ts ts _ post Hpost).
    rewrite (replace_pre (t_marker ts) _ _ pre _ eq_refl Hpre). f_equal.
    rewrite (replace_front (t_marker ts) _ _ post eq_refl).
    by rewrite (replace_plain (t_marker ts) _ _ post eq_refl Hpost).
  - rewrite (replace_plain (timestamp_marker ts) _ _ pre eq_refl Hpre).
    by rewrite (replace_plain (t_marker ts) _ _ pre eq_refl Hpre).
Qed.

Lemma sandbox_marker_rewritten_witness :
  sandbox_with_offset
    (mkSandboxLogRow 100 ("at " +:+ timestamp_marker 100 +:+ " done")) 200
  = mkSandboxLogRow 300 ("at " +:+ timestamp_marker 300 +:+ " done").
Proof.
  destruct (sandbox_marker_rewritten 100 200 "at " " done") as (H & _ & _).
  - vm_compute. repeat split; discriminate.
  - vm_compute. repeat split; discriminate.
  - exact H.
Defined.
